(** * card-data-crawler: crawl-and-acquire subsystem

    A shallow embedding of the retry policy ([utils/errorHandler.js]), the
    per-domain rate limiter ([utils/rateLimiter.js]), the link handler
    ([crawler/linkHandler.js]), the relevance filter
    ([crawler/htmlCrawler.js]), the crawl orchestrator ([index.js]) and the
    aggregator ([aggregator/cardDataAggregator.js]), followed by the
    properties established about them.

    Part I holds the definitions, Part II the proofs. *)

From Stdlib Require Import ZArith NArith String Ascii DecimalString Bool Lia ZifyBool.
From Stdlib Require Import QArith Qminmax Qpower Qround Lqa Floats List.
Import ListNotations.

Close Scope Q_scope.
Set Implicit Arguments.

(* ===================================================================== *)
(** * Part I: definitions                                                  *)
(* ===================================================================== *)

(** ** JavaScript strings

    A JavaScript string is a sequence of UTF-16 code units; [length],
    [includes], [trim] and the regular expressions used by the program (none
    carries the [u] flag) all work on code units. *)

Module JS.

Definition jsstring := list N.

(** An ASCII literal as a JavaScript string. *)
Definition lit (s : string) : jsstring :=
  map N_of_ascii (list_ascii_of_string s).
Arguments lit s%_string.

Fixpoint eqb (a b : jsstring) : bool :=
  match a, b with
  | [], [] => true
  | x :: a', y :: b' => N.eqb x y && eqb a' b'
  | _, _ => false
  end.

(** [s.startsWith(p)] *)
Fixpoint startsWith (s p : jsstring) {struct p} : bool :=
  match p with
  | [] => true
  | x :: p' =>
      match s with
      | [] => false
      | c :: s' => N.eqb c x && startsWith s' p'
      end
  end.

(** [s.includes(p)] *)
Fixpoint includes (s p : jsstring) {struct s} : bool :=
  startsWith s p ||
  match s with
  | [] => false
  | _ :: s' => includes s' p
  end.

(** [s.endsWith(p)] *)
Definition endsWith (s p : jsstring) : bool :=
  startsWith (rev s) (rev p).

(** [arr.includes(x)] for an array of strings. *)
Definition arrayIncludes (arr : list jsstring) (x : jsstring) : bool :=
  existsb (eqb x) arr.

(** ECMAScript WhiteSpace and LineTerminator code units: what [trim] removes
    and what [\s] matches. *)
Definition isWhiteSpace (c : N) : bool :=
  ((9 <=? c) && (c <=? 13) || (c =? 32) || (c =? 160) || (c =? 5760)
   || (8192 <=? c) && (c <=? 8202) || (c =? 8232) || (c =? 8233)
   || (c =? 8239) || (c =? 8287) || (c =? 12288) || (c =? 65279))%N.

Fixpoint trimStart (s : jsstring) : jsstring :=
  match s with
  | c :: s' => if isWhiteSpace c then trimStart s' else s
  | [] => []
  end.

Definition trimEnd (s : jsstring) : jsstring := rev (trimStart (rev s)).

(** [s.trim()] *)
Definition trim (s : jsstring) : jsstring := trimEnd (trimStart s).

(** ASCII case mapping; on ASCII-only strings this is [toLowerCase]. *)
Definition asciiLower (c : N) : N :=
  if ((65 <=? c) && (c <=? 90))%N then (c + 32)%N else c.

Definition asciiLowerCase (s : jsstring) : jsstring := map asciiLower s.

(** [s.replace(/pat/g, rep)] for a literal, non-empty [pat]: matches are
    found left to right and do not overlap.  [skip] counts the code units of
    the current match still to be dropped. *)
Fixpoint replaceAllFrom (skip : nat) (pat rep s : jsstring) : jsstring :=
  match s with
  | [] => []
  | c :: s' =>
      match skip with
      | S k => replaceAllFrom k pat rep s'
      | O =>
          if startsWith s pat
          then rep ++ replaceAllFrom (length pat - 1) pat rep s'
          else c :: replaceAllFrom 0 pat rep s'
      end
  end.

Definition replaceAll (s pat rep : jsstring) : jsstring :=
  replaceAllFrom 0 pat rep s.

(** [s.replace(/\/$/, '')]: at most one trailing slash goes. *)
Definition stripTrailingSlash (s : jsstring) : jsstring :=
  match rev s with
  | 47%N :: r => rev r
  | _ => s
  end.

End JS.

Import JS.

(** ** Regular expressions

    The fragment of ECMAScript regular expressions that the settings tables
    and the link handler use, with a backtracking matcher.  [test] mirrors
    [RegExp.prototype.test] for a pattern without the [g] flag: it looks for
    a match at any position and keeps no state between calls. *)

Module Regex.

Inductive re : Type :=
| Chr (c : N)                (* a literal code unit *)
| ChrI (c : N)               (* a literal ASCII letter under the [i] flag *)
| Dot                        (* [.]: anything but a line terminator *)
| NotChr (c : N)             (* [[^c]] *)
| Eps
| Seq (a b : re)
| Alt (a b : re)
| Star (a : re)
| Eos                        (* [$] *)
| NegLook (a : re).          (* [(?!a)] *)

Definition isLineTerminator (c : N) : bool :=
  ((c =? 10) || (c =? 13) || (c =? 8232) || (c =? 8233))%N.

(** Continuation-passing matcher: [matchK r s k] holds when [r] matches a
    prefix of [s] and [k] accepts what is left.  A starred pattern that
    matched the empty string is not iterated again. *)
Fixpoint matchK (r : re) (s : jsstring) (k : jsstring -> bool) {struct r} : bool :=
  match r with
  | Chr c => match s with x :: s' => N.eqb x c && k s' | [] => false end
  | ChrI c =>
      match s with
      | x :: s' => N.eqb (asciiLower x) (asciiLower c) && k s'
      | [] => false
      end
  | Dot => match s with x :: s' => negb (isLineTerminator x) && k s' | [] => false end
  | NotChr c => match s with x :: s' => negb (N.eqb x c) && k s' | [] => false end
  | Eps => k s
  | Seq a b => matchK a s (fun s' => matchK b s' k)
  | Alt a b => matchK a s k || matchK b s k
  | Star a =>
      (fix star (fuel : nat) (s : jsstring) {struct fuel} : bool :=
         match fuel with
         | O => k s
         | S fuel' =>
             matchK a s (fun s' => (length s' <? length s)%nat && star fuel' s')
             || k s
         end) (length s) s
  | Eos => match s with [] => k [] | _ :: _ => false end
  | NegLook a => negb (matchK a s (fun _ => true)) && k s
  end.

(** A match starting at the first code unit ([^] in front of the pattern). *)
Definition testAtStart (r : re) (s : jsstring) : bool :=
  matchK r s (fun _ => true).

Fixpoint test (r : re) (s : jsstring) {struct s} : bool :=
  testAtStart r s ||
  match s with
  | [] => false
  | _ :: s' => test r s'
  end.

(** A literal word, and the same under the [i] flag. *)
Fixpoint word (w : jsstring) : re :=
  match w with
  | [] => Eps
  | [c] => Chr c
  | c :: w' => Seq (Chr c) (word w')
  end.

Fixpoint wordI (w : jsstring) : re :=
  match w with
  | [] => Eps
  | [c] => ChrI c
  | c :: w' => Seq (ChrI c) (wordI w')
  end.

Definition W (s : string) : re := word (lit s).
Definition WI (s : string) : re := wordI (lit s).
Arguments W s%_string.
Arguments WI s%_string.

(** [a.*b] *)
Definition thenLater (a b : re) : re := Seq a (Seq (Star Dot) b).

Fixpoint alts (l : list re) : re :=
  match l with
  | [] => NegLook Eps
  | [a] => a
  | a :: l' => Alt a (alts l')
  end.

End Regex.

Import Regex.

(** ** Error classification and retry policy (utils/errorHandler.js) *)

Module ErrorHandler.

(** The class an error object is an instance of.  The five subclasses of
    [CrawlerError] are siblings, so [instanceof] tells them apart. *)
Inductive ErrorClass : Type :=
| ValidationError | NetworkError | RateLimitError | ParsingError
| DataValidationError | CrawlerError | OtherError.

(** What [categorizeError] reads off an error object. *)
Record JsError : Type := mkError {
  cls : ErrorClass;
  response : option Z;        (* [error.response.status] when there is a response *)
  code : option jsstring;     (* [error.code] *)
  message : jsstring
}.

Inductive ErrorKind : Type :=
| VALIDATION | NETWORK | RATE_LIMIT | PARSING | DATA_VALIDATION
| NOT_FOUND | CLIENT_ERROR | SERVER_ERROR
| TIMEOUT | DNS_ERROR | CONNECTION_REFUSED | CONNECTION_RESET
| FILE_NOT_FOUND | PERMISSION_DENIED | IS_DIRECTORY
| PDF_ERROR | HTML_ERROR | JSON_ERROR | URL_ERROR | UNKNOWN.

Definition ErrorKind_eqb (a b : ErrorKind) : bool :=
  match a, b with
  | VALIDATION, VALIDATION | NETWORK, NETWORK | RATE_LIMIT, RATE_LIMIT
  | PARSING, PARSING | DATA_VALIDATION, DATA_VALIDATION
  | NOT_FOUND, NOT_FOUND | CLIENT_ERROR, CLIENT_ERROR
  | SERVER_ERROR, SERVER_ERROR | TIMEOUT, TIMEOUT | DNS_ERROR, DNS_ERROR
  | CONNECTION_REFUSED, CONNECTION_REFUSED
  | CONNECTION_RESET, CONNECTION_RESET | FILE_NOT_FOUND, FILE_NOT_FOUND
  | PERMISSION_DENIED, PERMISSION_DENIED | IS_DIRECTORY, IS_DIRECTORY
  | PDF_ERROR, PDF_ERROR | HTML_ERROR, HTML_ERROR | JSON_ERROR, JSON_ERROR
  | URL_ERROR, URL_ERROR | UNKNOWN, UNKNOWN => true
  | _, _ => false
  end.

Definition codeIs (e : JsError) (c : string) : bool :=
  match code e with
  | Some x => JS.eqb x (lit c)
  | None => false
  end.
Arguments codeIs e c%_string.

Definition byStatus (status : Z) : option ErrorKind :=
  if (status =? 429)%Z then Some RATE_LIMIT
  else if (status =? 404)%Z then Some NOT_FOUND
  else if ((400 <=? status) && (status <? 500))%Z then Some CLIENT_ERROR
  else if (500 <=? status)%Z then Some SERVER_ERROR
  else None.

Definition byCodeOrMessage (e : JsError) : ErrorKind :=
  if codeIs e "ECONNABORTED" then TIMEOUT
  else if codeIs e "ENOTFOUND" then DNS_ERROR
  else if codeIs e "ECONNREFUSED" then CONNECTION_REFUSED
  else if codeIs e "ECONNRESET" then CONNECTION_RESET
  else if codeIs e "ETIMEDOUT" then TIMEOUT
  else if codeIs e "ENOENT" then FILE_NOT_FOUND
  else if codeIs e "EACCES" then PERMISSION_DENIED
  else if codeIs e "EISDIR" then IS_DIRECTORY
  else if includes (message e) (lit "PDF") then PDF_ERROR
  else if includes (message e) (lit "HTML") then HTML_ERROR
  else if includes (message e) (lit "JSON") then JSON_ERROR
  else if includes (message e) (lit "URL") then URL_ERROR
  else UNKNOWN.

Definition categorizeError (e : JsError) : ErrorKind :=
  match cls e with
  | ValidationError => VALIDATION
  | NetworkError => NETWORK
  | RateLimitError => RATE_LIMIT
  | ParsingError => PARSING
  | DataValidationError => DATA_VALIDATION
  | CrawlerError | OtherError =>
      match response e with
      | Some status =>
          match byStatus status with
          | Some k => k
          | None => byCodeOrMessage e
          end
      | None => byCodeOrMessage e
      end
  end.

Definition noRetryTypes : list ErrorKind :=
  [VALIDATION; DATA_VALIDATION; FILE_NOT_FOUND; PERMISSION_DENIED;
   IS_DIRECTORY; CLIENT_ERROR; NOT_FOUND].

Definition alwaysRetryTypes : list ErrorKind :=
  [NETWORK; TIMEOUT; CONNECTION_RESET; CONNECTION_REFUSED; DNS_ERROR;
   SERVER_ERROR].

Definition shouldRetry (e : JsError) (attempt maxAttempts : Z) : bool :=
  if (attempt >=? maxAttempts)%Z then false
  else
    let errorType := categorizeError e in
    if existsb (ErrorKind_eqb errorType) noRetryTypes then false
    else if existsb (ErrorKind_eqb errorType) alwaysRetryTypes then true
    else if ErrorKind_eqb errorType RATE_LIMIT
         then (attempt <? maxAttempts + 2)%Z
         else false.

(** Errors as an HTTP client reports them: a response with a status. *)
Definition httpError (status : Z) : JsError :=
  mkError OtherError (Some status) None (lit "Request failed").

End ErrorHandler.

(** ** [Map] objects

    A JavaScript [Map] keeps its keys in insertion order; [set] on a key that
    is present replaces the value where the key stands. *)

Module JsMap.

Section WithValue.
Variable V : Type.

Definition t := list (jsstring * V).

Fixpoint get (m : t) (k : jsstring) : option V :=
  match m with
  | [] => None
  | (k', v) :: m' => if JS.eqb k' k then Some v else get m' k
  end.

Fixpoint set (m : t) (k : jsstring) (v : V) : t :=
  match m with
  | [] => [(k, v)]
  | (k', v') :: m' =>
      if JS.eqb k' k then (k', v) :: m' else (k', v') :: set m' k v
  end.

Fixpoint delete (m : t) (k : jsstring) : t :=
  match m with
  | [] => []
  | (k', v') :: m' =>
      if JS.eqb k' k then m' else (k', v') :: delete m' k
  end.

(** [new Map(entries)] *)
Definition ofEntries (entries : list (jsstring * V)) : t :=
  fold_left (fun m kv => set m (fst kv) (snd kv)) entries [].

Definition values (m : t) : list V := map snd m.

End WithValue.

End JsMap.

(** ** Per-domain rate limiter (utils/rateLimiter.js)

    Time is the millisecond clock [Date.now()], passed explicitly; numbers
    are exact rationals, so the rounding of the source's double-precision
    arithmetic is not modelled.  Synchronous code takes no time, and
    [delay ms] advances the clock by exactly the timer's duration. *)

Module RateLimiter.

Record TokenBucket : Type := mkBucket {
  tokensPerInterval : Q;
  interval : Q;
  maxBurst : Q;
  tokens : Q;
  lastFill : Z
}.

Definition Qzero (q : Q) : bool := Qeq_bool q 0.

(** [new TokenBucket(tokensPerInterval, interval, maxBurst)] at time [now];
    [maxBurst || tokensPerInterval] falls back on a missing or zero burst. *)
Definition newTokenBucket (tpi itv : Q) (burst : option Q) (now : Z) : TokenBucket :=
  let mb := match burst with
            | Some b => if Qzero b then tpi else b
            | None => tpi
            end in
  mkBucket tpi itv mb mb now.

Definition fillBucket (b : TokenBucket) (now : Z) : TokenBucket :=
  let elapsed := (inject_Z (now - lastFill b) / 1000)%Q in
  let refilled :=
    (tokens b + elapsed * tokensPerInterval b / (interval b / 1000))%Q in
  mkBucket (tokensPerInterval b) (interval b) (maxBurst b)
           (Qred (Qmin (maxBurst b) refilled)) now.

Definition tryTake (b : TokenBucket) (now : Z) : bool * TokenBucket :=
  let b1 := fillBucket b now in
  if Qle_bool 1 (tokens b1)
  then (true, mkBucket (tokensPerInterval b1) (interval b1) (maxBurst b1)
                       (Qred (tokens b1 - 1)) (lastFill b1))
  else (false, b1).

Definition getWaitTime (b : TokenBucket) (now : Z) : Q * TokenBucket :=
  let b1 := fillBucket b now in
  if Qle_bool 1 (tokens b1) then (0%Q, b1)
  else
    let tokensNeeded := (1 - tokens b1)%Q in
    (Qred (tokensNeeded * interval b1 / tokensPerInterval b1), b1).

(** The options object a caller passes; a missing key is [None]. *)
Record UserOptions : Type := mkUserOptions {
  u_requestsPerSecond : option Q;
  u_burstSize : option Q;
  u_minDelayMs : option Q;
  u_maxDelayMs : option Q
}.

Record Options : Type := mkOptions {
  requestsPerSecond : Q;
  burstSize : Q;
  minDelayMs : Q;
  maxDelayMs : Q
}.

(** [{ requestsPerSecond: options.requestsPerSecond || 2, ..., ...options }]:
    the spread at the end puts every key the caller gave back as given, so a
    default applies only to a missing key. *)
Definition withDefault (given : option Q) (dflt : Q) : Q :=
  match given with
  | Some v => v
  | None => dflt
  end.

Definition makeOptions (o : UserOptions) : Options :=
  mkOptions (withDefault (u_requestsPerSecond o) 2)
            (withDefault (u_burstSize o) 5)
            (withDefault (u_minDelayMs o) 500)
            (withDefault (u_maxDelayMs o) 10000).

Record DomainRateLimiter : Type := mkLimiter {
  options : Options;
  limiters : JsMap.t TokenBucket;
  lastRequestTime : JsMap.t Z
}.

(** [new DomainRateLimiter(options)] *)
Definition newDomainRateLimiter (o : UserOptions) : DomainRateLimiter :=
  mkLimiter (makeOptions o) [] [].

Definition getLimiter (l : DomainRateLimiter) (domain : jsstring) (now : Z)
  : TokenBucket * DomainRateLimiter :=
  match JsMap.get (limiters l) domain with
  | Some b => (b, l)
  | None =>
      let b := newTokenBucket (requestsPerSecond (options l)) 1000
                              (Some (burstSize (options l))) now in
      (b, mkLimiter (options l) (JsMap.set (limiters l) domain b)
                    (lastRequestTime l))
  end.

(** How long [setTimeout(resolve, ms)] waits: whole milliseconds, and one
    millisecond when the request is below one or above the timer's range. *)
Definition timerDuration (ms : Q) : Z :=
  let whole := (Qnum ms / Z.pos (Qden ms))%Z in
  if ((whole <? 1) || (2147483647 <? whole))%Z then 1%Z else whole.

(** The [while (!limiter.tryTake())] loop.  It answers the bucket after the
    successful take and the time at which that take happened. *)
Fixpoint takeLoop (fuel : nat) (o : Options) (b : TokenBucket) (now : Z)
  : option (TokenBucket * Z) :=
  match fuel with
  | O => None
  | S fuel' =>
      let (taken, b1) := tryTake b now in
      if taken then Some (b1, now)
      else
        let (w, b2) := getWaitTime b1 now in
        let waitTime := Qmin w (maxDelayMs o) in
        takeLoop fuel' o b2 (now + timerDuration waitTime)%Z
  end.

(** The delay imposed by the minimum spacing, before any token is taken. *)
Definition spacingDelay (o : Options) (lastRequest now : Z) : Z :=
  let timeSinceLastRequest := (now - lastRequest)%Z in
  if Qlt_le_dec (inject_Z timeSinceLastRequest) (minDelayMs o)
  then timerDuration (minDelayMs o - inject_Z timeSinceLastRequest)
  else 0%Z.

(** [waitForRateLimit(domain)] entered at time [now]: the limiter afterwards
    and the time at which the call completes. *)
Definition waitForRateLimit (fuel : nat) (l : DomainRateLimiter)
           (domain : jsstring) (now : Z) : option (DomainRateLimiter * Z) :=
  let (limiter, l1) := getLimiter l domain now in
  let lastRequest :=
    match JsMap.get (lastRequestTime l1) domain with
    | Some t => t
    | None => 0%Z
    end in
  let now1 := (now + spacingDelay (options l1) lastRequest now)%Z in
  match takeLoop fuel (options l1) limiter now1 with
  | None => None
  | Some (limiter', now2) =>
      Some (mkLimiter (options l1) (JsMap.set (limiters l1) domain limiter')
                      (JsMap.set (lastRequestTime l1) domain now2),
            now2)
  end.


(** *** Calls in flight together

    Several [waitForRateLimit] calls started in one tick, as by
    [Promise.all], share the limiter.  A call runs until it awaits a timer
    and goes on when the timer fires; timers fire in the order of their
    times, and those set for the same time in the order in which they were
    set. *)










End RateLimiter.

(** ** Objects

    A card-data object: its own string keys in insertion order, as
    [Object.keys] lists them.  An array here holds strings, and an object
    field holds scalars and arrays of strings (the schema goes one level
    deep). *)

Module Obj.

#[warnings="-register-all"]
Inductive Value : Type :=
| VNull
| VUndefined
| VStr (s : jsstring)
| VArr (items : list jsstring)
| VObj (fields : list (jsstring * Value)).

Definition t := list (jsstring * Value).

(** [o[k]]: a missing key reads as [undefined]. *)
Definition get (o : t) (k : jsstring) : Value :=
  match JsMap.get o k with
  | Some v => v
  | None => VUndefined
  end.

(** [o[k] = v] *)
Definition set (o : t) (k : jsstring) (v : Value) : t := JsMap.set o k v.

Definition keys (o : t) : list jsstring := map fst o.

(** JavaScript truthiness: [null], [undefined] and the empty string are
    falsy; every array and object is truthy. *)
Definition truthy (v : Value) : bool :=
  match v with
  | VNull | VUndefined => false
  | VStr s => negb (JS.eqb s [])
  | VArr _ | VObj _ => true
  end.

End Obj.

(** ** Card schema (schema/cardSchema.js) *)

Module CardSchema.

Inductive FieldType : Type := TString | TArray | TObject.

Definition cardSchema : list (jsstring * FieldType) :=
  [ (lit "cardName", TString);
    (lit "annualFee", TString);
    (lit "joiningFee", TString);
    (lit "rewards", TArray);
    (lit "benefits", TArray);
    (lit "eligibilityCriteria", TArray);
    (lit "documentsRequired", TArray);
    (lit "interestRate", TString);
    (lit "otherCharges", TArray);
    (lit "links", TObject);
    (lit "cardType", TString);
    (lit "creditLimit", TString);
    (lit "welcomeBenefits", TArray);
    (lit "milestoneBenefits", TArray);
    (lit "loungeAccess", TObject);
    (lit "insurance", TObject);
    (lit "redemptionOptions", TArray);
    (lit "foreignCurrencyMarkup", TString);
    (lit "contactInfo", TObject) ].

Definition emptyValue (ty : FieldType) : Obj.Value :=
  match ty with
  | TArray => Obj.VArr []
  | TObject => Obj.VObj []
  | TString => Obj.VNull
  end.

Definition createEmptyCardData : Obj.t :=
  fold_left (fun cardData f => Obj.set cardData (fst f) (emptyValue (snd f)))
            cardSchema [].

End CardSchema.

(** ** Aggregator (aggregator/cardDataAggregator.js)

    The card data is mutated in place, so a method that throws half-way
    leaves behind what it had written so far.  A step therefore answers the
    card data as it leaves it together with a flag: [true] when it ran to
    its end, [false] when it threw a [TypeError]. *)

Module Aggregator.

Import Obj.

Inductive SourceType : Type := html | pdf.

Record Source : Type := mkSource {
  data : Obj.t;
  sourceType : SourceType;
  url : jsstring
}.

Record CardDataAggregator : Type := mkAggregator {
  cardData : Obj.t;
  sources : list Source
}.

(** [new CardDataAggregator()] *)
Definition newAggregator : CardDataAggregator :=
  mkAggregator CardSchema.createEmptyCardData [].

Definition stringFields : list jsstring :=
  [lit "cardName"; lit "annualFee"; lit "joiningFee"; lit "interestRate";
   lit "foreignCurrencyMarkup"].

Definition arrayFields : list jsstring :=
  [lit "rewards"; lit "benefits"; lit "eligibilityCriteria";
   lit "documentsRequired"; lit "otherCharges"; lit "welcomeBenefits";
   lit "milestoneBenefits"; lit "redemptionOptions"].

Definition objectFields : list jsstring :=
  [lit "links"; lit "loungeAccess"; lit "insurance"; lit "contactInfo"].

(** A loop over [l] that stops at the first step that throws. *)
Fixpoint foldRes (A B : Type) (f : B -> A -> B * bool) (l : list A) (b : B)
  : B * bool :=
  match l with
  | [] => (b, true)
  | a :: l' =>
      let (b', ok) := f b a in
      if ok then foldRes f l' b' else (b', false)
  end.

(** [if (!current) current = incoming], guarded by [if (incoming)]: the slot
    after one source offered [incoming]. *)
Definition keepFirst (current incoming : Value) : Value :=
  if truthy incoming && negb (truthy current) then incoming else current.

(** One round of the first [forEach] of [mergeData]. *)
Definition mergeString (sourceData : Obj.t) (cd : Obj.t) (field : jsstring) : Obj.t :=
  if truthy (get sourceData field)
  then if negb (truthy (get cd field))
       then set cd field (get sourceData field)
       else cd
  else cd.

(** [item && item.trim() !== ''] *)
Definition nonBlank (item : jsstring) : bool :=
  negb (JS.eqb item []) && negb (JS.eqb (trim item) []).

(** [if (item && item.trim() !== '' && !acc.includes(item.trim()))
    acc.push(item.trim())] *)
Definition pushItem (acc : list jsstring) (item : jsstring) : list jsstring :=
  if nonBlank item && negb (arrayIncludes acc (trim item))
  then acc ++ [trim item]
  else acc.

Definition pushItems (acc items : list jsstring) : list jsstring :=
  fold_left pushItem items acc.

(** The [forEach] that pushes the items of a source on the slot [current].
    A falsy slot is first replaced by a fresh array.  A non-empty string has
    [includes] but no [push], and an object has neither, so the first item
    that gets that far throws. *)
Definition mergeInto (current : Value) (items : list jsstring) : Value * bool :=
  match current with
  | VArr acc => (VArr (pushItems acc items), true)
  | VNull | VUndefined => (VArr (pushItems [] items), true)
  | VStr s =>
      if JS.eqb s [] then (VArr (pushItems [] items), true)
      else (current,
            negb (existsb (fun item => nonBlank item && negb (includes s (trim item)))
                          items))
  | VObj _ => (current, negb (existsb nonBlank items))
  end.

(** One round of the second [forEach] of [mergeData]. *)
Definition mergeArray (sourceData : Obj.t) (cd : Obj.t) (field : jsstring)
  : Obj.t * bool :=
  match get sourceData field with
  | VArr (i :: items) =>
      let (v, ok) := mergeInto (get cd field) (i :: items) in
      (set cd field v, ok)
  | _ => (cd, true)
  end.

(** One key of [mergeObjectField], on the object [target] that the card data
    holds under the field. *)
Definition mergeKey (target : Obj.t) (kv : jsstring * Value) : Obj.t * bool :=
  let (key, v) := kv in
  match v with
  | VNull | VUndefined => (target, true)
  | VArr items =>
      let (v', ok) := mergeInto (get target key) items in
      (set target key v', ok)
  | VStr s =>
      if JS.eqb s [] then (target, true)
      else (set target key (keepFirst (get target key) v), true)
  | VObj _ => (set target key (keepFirst (get target key) v), true)
  end.

(** [Object.keys] of an array: its indices. *)
Definition indexKey (i : nat) : jsstring :=
  lit (NilEmpty.string_of_uint (Nat.to_uint i)).

Definition entriesOf (sv : Value) : list (jsstring * Value) :=
  match sv with
  | VObj kvs => kvs
  | VArr items => combine (map indexKey (seq 0 (length items))) (map VStr items)
  | _ => []
  end.

(** [mergeObjectField(fieldName, sourceData)].  The field of the card data
    is an object in every state the aggregator reaches
    ([createEmptyCardData] puts [{}] there and this method alone writes
    it); on a non-empty string or an array in that place the model stops
    with a throw. *)
Definition mergeObjectField (cd : Obj.t) (fieldName : jsstring) (sv : Value)
  : Obj.t * bool :=
  match sv with
  | VNull | VUndefined | VStr _ => (cd, true)
  | VArr _ | VObj _ =>
      match get cd fieldName with
      | VObj target =>
          let (target', ok) := foldRes mergeKey (entriesOf sv) target in
          (set cd fieldName (VObj target'), ok)
      | VNull | VUndefined =>
          let (target', ok) := foldRes mergeKey (entriesOf sv) [] in
          (set cd fieldName (VObj target'), ok)
      | VStr s =>
          if JS.eqb s [] then
            let (target', ok) := foldRes mergeKey (entriesOf sv) [] in
            (set cd fieldName (VObj target'), ok)
          else (cd, false)
      | VArr _ => (cd, false)
      end
  end.

Definition mergeData (cd : Obj.t) (sourceData : Obj.t) : Obj.t * bool :=
  let cd1 := fold_left (mergeString sourceData) stringFields cd in
  let (cd2, ok) := foldRes (mergeArray sourceData) arrayFields cd1 in
  if ok
  then foldRes (fun c field => mergeObjectField c field (get sourceData field))
               objectFields cd2
  else (cd2, false).

(** [addSourceData(data, sourceType, url)]: the source is recorded, then
    merged. *)
Definition addSourceData (a : CardDataAggregator) (src : Source)
  : CardDataAggregator * bool :=
  let (cd, ok) := mergeData (cardData a) (data src) in
  (mkAggregator cd (sources a ++ [src]), ok).

(** A run of [addSourceData] calls in arrival order.  The caller catches
    what a call throws and goes on with the next source. *)
Definition addSources (a : CardDataAggregator) (srcs : list Source)
  : CardDataAggregator :=
  fold_left (fun a src => fst (addSourceData a src)) srcs a.

Definition getCardData (a : CardDataAggregator) : Obj.t := cardData a.

Inductive FieldStatus : Type := filled | empty.

Record Report : Type := mkReport {
  totalFields : Z;
  filledFields : Z;
  emptyFields : Z;
  fieldDetails : JsMap.t FieldStatus;
  completenessPercentage : float
}.

Definition isFilled (value : Value) : bool :=
  match value with
  | VNull | VUndefined => false
  | VStr s => negb (JS.eqb s [])
  | VArr items => (0 <? length items)%nat
  | VObj fields => (0 <? length (keys fields))%nat
  end.

(** A count as a JavaScript number (a double); counts stay far below 2^53. *)
Definition number (n : Z) : float := PrimFloat.of_uint63 (Uint63.of_Z n).

(** [(report.filledFields / report.totalFields) * 100] *)
Definition percentage (filledCount total : Z) : float :=
  ((number filledCount / number total) * 100)%float.

(** The body of the [forEach] over [Object.keys(this.cardData)]. *)
Definition tally (cd : Obj.t) (r : Report) (field : jsstring) : Report :=
  if isFilled (get cd field)
  then mkReport (totalFields r + 1) (filledFields r + 1) (emptyFields r)
                (JsMap.set (fieldDetails r) field filled)
                (completenessPercentage r)
  else mkReport (totalFields r + 1) (filledFields r) (emptyFields r + 1)
                (JsMap.set (fieldDetails r) field empty)
                (completenessPercentage r).

(** [getCompletenessReport()]: the report, and the aggregator as the call
    leaves it. *)
Definition getCompletenessReport (a : CardDataAggregator)
  : Report * CardDataAggregator :=
  let r := fold_left (tally (cardData a)) (keys (cardData a))
                     (mkReport 0 0 0 [] 0%float) in
  (mkReport (totalFields r) (filledFields r) (emptyFields r) (fieldDetails r)
            (percentage (filledFields r) (totalFields r)),
   a).

End Aggregator.

(** ** The platform's [URL] class

    The link handler reaches the WHATWG URL parser through [new URL(...)],
    three getters, two setters and [toString()].  Whatever is proved for
    every [Platform] holds for the real parser; [Whatwg] below gives a
    concrete one. *)

Module Url.

Class Platform : Type := {
  URL : Type;
  (** [new URL(input)]; [None] when the constructor throws. *)
  parse : jsstring -> option URL;
  (** [new URL(input, base)] *)
  parseWithBase : jsstring -> jsstring -> option URL;
  protocol : URL -> jsstring;
  hostname : URL -> jsstring;
  pathname : URL -> jsstring;
  (** [u.href], which is also [u.toString()] *)
  href : URL -> jsstring;
  (** [u.hash = ''] *)
  clearHash : URL -> URL;
  (** [u.pathname = p] *)
  setPathname : URL -> jsstring -> URL
}.

End Url.

(** ** Settings (config/settings.js) *)

Module Settings.

Record t : Type := mkSettings {
  cardUrl : jsstring;
  baseDomain : jsstring;
  maxPages : Z;
  maxPDFs : Z;
  requestDelayMs : Z;
  ignorePatterns : list re;
  priorityPatterns : list (re * Z);
  categories : list (jsstring * re)
}.

(** The tables as the repository ships them. *)
Definition defaultIgnorePatterns : list re :=
  [ W "/login"; W "/netbanking"; W "/mycards"; W "/careers";
    W "/investor-relations"; W "/press-releases"; W "/money-transfer";
    W "/upi"; W "/donation"; W "/remittance"; W "/forex"; W "/bill-pay";
    W "/recharge"; W "/fastag"; W "/demat"; W "/mutual-fund"; W "/loan";
    W "/deposit"; W "/savings"; W "/current-account"; W "/debit-card";
    W "/business-card"; W "/commercial-card"; W "/tax";
    Seq (W "/insurance") (NegLook (Seq (Star Dot) (W "credit")));
    W "/personal-loan"; W "/home-loan";
    W "javascript:"; W "mailto:"; W "tel:";
    Seq (W "#") Eos;
    W "/search"; W "/sitemap"; W "/privacy-policy"; W "/cookie-policy";
    W "/contact"; W "/about";
    Seq (W ".css") Eos; Seq (W ".js") Eos; Seq (W ".jpg") Eos;
    Seq (W ".png") Eos; Seq (W ".gif") Eos; Seq (W ".svg") Eos;
    thenLater (W "{{") (W "}}");
    thenLater (W "%7B%7B") (W "%7D%7D");
    W "CCredit"; W "immediiate"; W "nationnal"; W "remitnnow";
    Seq (NotChr 58) (Seq (W "///") (Star (W "/"))) ].

Definition defaultPriorityPatterns : list (re * Z) :=
  [ (thenLater (WI "regalia") (WI "gold"), 25%Z);
    (thenLater (WI "credit") (WI "card"), 20%Z);
    (thenLater (WI "fees") (WI "charges"), 18%Z);
    (thenLater (WI "terms") (WI "conditions"), 15%Z);
    (WI "benefits", 12%Z);
    (WI "rewards", 10%Z);
    (WI "cashback", 10%Z);
    (WI "points", 9%Z);
    (WI "eligibility", 8%Z);
    (WI "insurance", 8%Z);
    (WI "coverage", 8%Z);
    (WI "tnc", 15%Z);
    (Seq (WI ".pdf") Eos, 12%Z);
    (WI "pricing", 8%Z);
    (WI "apply", 7%Z);
    (WI "features", 9%Z);
    (WI "offers", 8%Z);
    (WI "lounge", 7%Z);
    (WI "milestone", 7%Z) ].

Definition defaultCategories : list (jsstring * re) :=
  [ (lit "fees", alts [WI "fees"; WI "charges"; WI "pricing"]);
    (lit "terms", alts [WI "terms"; WI "tnc"; WI "conditions"]);
    (lit "benefits", alts [WI "benefits"; WI "features"; WI "offers"]);
    (lit "rewards", alts [WI "rewards"; WI "cashback"; WI "points"]);
    (lit "eligibility", alts [WI "eligibility"; WI "requirements"; WI "criteria"]);
    (lit "insurance", alts [WI "insurance"; WI "coverage"; WI "protection"]);
    (lit "pdf", Seq (WI ".pdf") Eos);
    (lit "application", alts [WI "apply"; WI "application"]) ].

(** [parseInt(process.env.X) || dflt]: the default stands in for a missing,
    unreadable or zero setting. *)
Definition envOr (env : option Z) (dflt : Z) : Z :=
  match env with
  | Some v => if (v =? 0)%Z then dflt else v
  | None => dflt
  end.

Definition fromEnv (MAX_PAGES MAX_PDFS REQUEST_DELAY : option Z) : t :=
  mkSettings
    (lit "https://www.hdfcbank.com/personal/pay/cards/credit-cards/regalia-gold-credit-card")
    (lit "hdfcbank.com")
    (envOr MAX_PAGES 10) (envOr MAX_PDFS 5) (envOr REQUEST_DELAY 1500)
    defaultIgnorePatterns defaultPriorityPatterns defaultCategories.

End Settings.

(** ** Link handler (crawler/linkHandler.js) *)

Module LinkHandler.

Import Url.

Section WithPlatform.

Context {P : Platform}.
Variable settings : Settings.t.

Definition corruptionPatterns : list re :=
  [ WI "creddit"; WI "cardds"; WI "traansfer"; WI "milllennia";
    WI "commmercial"; WI "busiiness"; WI "ccredit"; WI "uusers" ].

Definition scriptSchemes : re :=
  Seq (alts [WI "javascript"; WI "data"; WI "vbscript"; WI "file"]) (Chr 58).

Definition corruptionWords : re :=
  alts [ WI "CCredit"; WI "immediiate"; WI "nationnal"; WI "remitnnow";
         WI "ttime"; WI "Cardds"; WI "Creddit"; WI "ppay"; WI "donattions" ].

Definition hasTemplateMarker (url : jsstring) : bool :=
  includes url (lit "{{") || includes url (lit "}}")
  || includes url (lit "%7B%7B") || includes url (lit "%7D%7D").

(** [pathname.startsWith(`/${hostname}/`)] *)
Definition pathRepeatsHost (u : URL) : bool :=
  startsWith (pathname u) (lit "/" ++ hostname u ++ lit "/").

Definition isValidUrl (url : jsstring) : bool :=
  match parse url with
  | None => false
  | Some urlObj =>
      if negb (arrayIncludes [lit "http:"; lit "https:"] (protocol urlObj)) then false
      else if existsb (fun pattern => test pattern url) corruptionPatterns then false
      else if testAtStart scriptSchemes url then false
      else if JS.eqb (hostname urlObj) [] then false
      else if hasTemplateMarker url then false
      else if test corruptionWords url then false
      else if pathRepeatsHost urlObj then false
      else if includes url (lit "%%20") || includes url (lit "%20%20") then false
      else if (2000 <? length url)%nat then false
      else true
  end.

(** [if (s.includes(bad)) s = s.replace(/bad/g, good)] *)
Definition repair (bad good : string) (s : jsstring) : jsstring :=
  if includes s (lit bad) then replaceAll s (lit bad) (lit good) else s.

(** The repair table, in the order the repairs are applied. *)
Definition repairTable : list (string * string) :=
  [ ("CCredit", "Credit"); ("Carrds", "Cards"); ("Creditt", "Credit");
    ("CCard", "Card"); ("Supeer", "Super"); ("Preemium", "Premium");
    ("immediiate", "immediate"); ("nationnal", "national");
    ("remitnnow", "remitnow"); ("ttime", "time"); ("Cardds", "Cards");
    ("Creddit", "Credit"); ("ppay", "pay"); ("donattions", "donations");
    ("%%20", "%20"); ("%20%20", "%20") ]%string.

Definition applyRepairs (s : jsstring) : jsstring :=
  fold_left (fun acc r => repair (fst r) (snd r) acc) repairTable s.

(** [s.replace(/\s+/g, '%20')] *)
Fixpoint encodeSpaces (inRun : bool) (s : jsstring) : jsstring :=
  match s with
  | [] => []
  | c :: s' =>
      if isWhiteSpace c
      then if inRun then encodeSpaces true s'
           else lit "%20" ++ encodeSpaces true s'
      else c :: encodeSpaces false s'
  end.

Fixpoint dropSlashes (s : jsstring) : jsstring :=
  match s with
  | 47%N :: s' => dropSlashes s'
  | _ => s
  end.

(** [s.replace(/scheme:\/\/+/g, 'scheme://')] with [full] standing for
    [scheme://]: wherever [full] occurs, the slashes that follow it go.  The
    scan goes on behind the match; [fuel] bounds it by the length of the
    string. *)
Fixpoint squeezeAfter (fuel : nat) (full s : jsstring) : jsstring :=
  match fuel with
  | O => s
  | S fuel' =>
      match s with
      | [] => []
      | c :: s' =>
          if startsWith s full
          then full ++ squeezeAfter fuel' full (dropSlashes (skipn (length full) s))
          else c :: squeezeAfter fuel' full s'
      end
  end.

(** [s.replace(/([^:]\/)\/+/g, '$1')]: a run of slashes behind anything but
    a colon shrinks to one slash. *)
Fixpoint collapseSlashes (fuel : nat) (s : jsstring) : jsstring :=
  match fuel with
  | O => s
  | S fuel' =>
      match s with
      | c :: 47%N :: 47%N :: rest =>
          if negb (N.eqb c 58)
          then c :: 47%N :: collapseSlashes fuel' (dropSlashes rest)
          else c :: collapseSlashes fuel' (47%N :: 47%N :: rest)
      | c :: s' => c :: collapseSlashes fuel' s'
      | [] => []
      end
  end.

(** [cleanUrl(url)]; [None] is [null]. *)
Definition cleanUrl (url : jsstring) : option jsstring :=
  if JS.eqb url [] then None
  else if hasTemplateMarker url then None
  else
    let cleaned := trim url in
    let cleaned := applyRepairs cleaned in
    let cleaned := encodeSpaces false cleaned in
    let cleaned := squeezeAfter (length cleaned) (lit "https://") cleaned in
    let cleaned := squeezeAfter (length cleaned) (lit "http://") cleaned in
    let cleaned := collapseSlashes (length cleaned) cleaned in
    Some (stripTrailingSlash cleaned).

(** [normalizeUrl(url)]; [None] is [null]. *)
Definition normalizeUrl (url : jsstring) : option jsstring :=
  match cleanUrl url with
  | None => None
  | Some cleanedUrl =>
      if JS.eqb cleanedUrl [] then None
      else if negb (isValidUrl cleanedUrl) then None
      else
        match parse cleanedUrl with
        | None => None
        | Some u =>
            let u1 :=
              if pathRepeatsHost u
              then setPathname u (skipn (length (hostname u) + 1) (pathname u))
              else u in
            Some (stripTrailingSlash (href (clearHash u1)))
        end
  end.

Definition isIgnored (url : jsstring) : bool :=
  if JS.eqb url [] then true
  else existsb (fun pattern => test pattern url) (Settings.ignorePatterns settings).

Definition getPriorityScore (url : jsstring) : Z :=
  fold_left (fun score pw => if test (fst pw) url then (score + snd pw)%Z else score)
            (Settings.priorityPatterns settings) 0%Z.

Fixpoint firstCategory (rules : list (jsstring * re)) (url : jsstring) : jsstring :=
  match rules with
  | [] => lit "general"
  | (name, pattern) :: rules' =>
      if test pattern url then name else firstCategory rules' url
  end.

Definition categorizeLink (url : jsstring) : jsstring :=
  firstCategory (Settings.categories settings) url.

(** The pathname is ASCII, so [toLowerCase] is the ASCII mapping. *)
Definition isPDFLink (url : jsstring) : bool :=
  match parse url with
  | Some urlObj => endsWith (asciiLowerCase (pathname urlObj)) (lit ".pdf")
  | None => false
  end.

Definition isInternalLink (url baseDomain : jsstring) : bool :=
  match parse url with
  | Some urlObj =>
      JS.eqb (hostname urlObj) baseDomain
      || endsWith (hostname urlObj) (lit "." ++ baseDomain)
  | None => false
  end.

(** An element of the [links] array: a string, an object with optional
    [href], [text] and [title], or [null]/[undefined]. *)
Inductive RawLink : Type :=
| LinkString (href : jsstring)
| LinkObject (href text title : option jsstring)
| LinkNull.

Inductive LinkType : Type := PdfLink | PageLink.

Record ProcessedLink : Type := mkLink {
  l_href : jsstring;
  l_text : jsstring;
  l_title : jsstring;
  l_priority : Z;
  l_category : jsstring;
  l_isPDF : bool;
  l_type : LinkType;
  l_processedAt : jsstring
}.

Definition orEmpty (o : option jsstring) : jsstring :=
  match o with
  | Some s => s
  | None => []
  end.

(** What one round of the loop does. *)
Inductive Round : Type :=
| Pushed (l : ProcessedLink)
| Skipped                      (* [continue] *)
| Failed.                      (* the [catch] at the foot of the loop *)

(** The absolute URL of an [href]; [None] is [continue]. *)
Definition resolveHref (baseUrl href : jsstring) : option jsstring :=
  if startsWith href (lit "/") then Some (baseUrl ++ href)
  else if startsWith href (lit "http://") || startsWith href (lit "https://")
  then Some href
  else if startsWith href (lit "./") || startsWith href (lit "../")
  then match parseWithBase href baseUrl with
       | Some u => Some (Url.href u)
       | None => None
       end
  else if negb (includes href (lit "://")) then Some (baseUrl ++ lit "/" ++ href)
  else None.

(** The canonical URL of an absolute one, as [processLinks] computes it:
    cleaned, hash removed, trailing slash stripped, and on the base
    domain. *)
Definition finalUrlOf (baseDomain absoluteUrl : jsstring) : option jsstring :=
  match cleanUrl absoluteUrl with
  | None => None
  | Some cleanedUrl =>
      if JS.eqb cleanedUrl [] then None
      else
        match parse cleanedUrl with
        | None => None
        | Some urlObj =>
            let urlObj := clearHash urlObj in
            let finalUrl := stripTrailingSlash (Url.href urlObj) in
            if negb (includes (hostname urlObj) baseDomain) then None
            else Some finalUrl
        end
  end.

Definition hrefOf (link : RawLink) : option jsstring :=
  match link with
  | LinkString h => Some h
  | LinkObject h _ _ => h
  | LinkNull => None
  end.

Definition skipHref (href : jsstring) : bool :=
  startsWith href (lit "javascript:") || startsWith href (lit "mailto:")
  || startsWith href (lit "tel:") || JS.eqb href (lit "#")
  || JS.eqb href (lit "/").

(** The body of [for (const link of links)]; [now] is the clock reading
    [new Date().toISOString()] of this round. *)
Definition processLink (baseDomain : jsstring) (now : jsstring) (link : RawLink)
  : Round :=
  match link with
  | LinkNull => Failed
  | _ =>
      match hrefOf link with
      | None => Skipped
      | Some href =>
          if JS.eqb href [] then Skipped
          else if skipHref href then Skipped
          else
            match resolveHref (lit "https://" ++ baseDomain) href with
            | None => Skipped
            | Some absoluteUrl =>
                match finalUrlOf baseDomain absoluteUrl with
                | None => Skipped
                | Some finalUrl =>
                    if isIgnored finalUrl then Skipped
                    else
                      let priority := getPriorityScore finalUrl in
                      let category := categorizeLink finalUrl in
                      let isPDF := isPDFLink finalUrl in
                      Pushed (mkLink finalUrl
                                (match link with
                                 | LinkObject _ t _ => orEmpty t
                                 | _ => []
                                 end)
                                (match link with
                                 | LinkObject _ _ t => orEmpty t
                                 | _ => []
                                 end)
                                priority category isPDF
                                (if isPDF then PdfLink else PageLink)
                                now)
                end
            end
      end
  end.

Record Stats : Type := mkStats {
  totalProcessed : nat;
  validLinks : nat;
  internalPages : nat;
  pdfFiles : nat;
  errorCount : nat
}.

Record LinkResults : Type := mkResults {
  internalLinks : list ProcessedLink;
  pdfLinks : list ProcessedLink;
  allLinks : list ProcessedLink;
  errors : list RawLink;
  stats : Stats
}.

(** The loop of [processLinks]: the links pushed and the links that threw,
    both in input order.  [clock i] is the time read in round [i]. *)
Fixpoint processLoop (baseDomain : jsstring) (clock : nat -> jsstring)
         (i : nat) (links : list RawLink)
  : list ProcessedLink * list RawLink :=
  match links with
  | [] => ([], [])
  | link :: links' =>
      let (processed, errs) := processLoop baseDomain clock (S i) links' in
      match processLink baseDomain (clock i) link with
      | Pushed l => (l :: processed, errs)
      | Skipped => (processed, errs)
      | Failed => (processed, link :: errs)
      end
  end.

(** [Array.from(new Map(processedLinks.map(l => [l.href, l])).values())] *)
Definition uniqueByHref (processedLinks : list ProcessedLink) : list ProcessedLink :=
  JsMap.values (JsMap.ofEntries (map (fun l => (l_href l, l)) processedLinks)).

(** [processLinks(links, baseDomain, ignorePatterns)].  The third argument
    is never read: [isIgnored] consults the settings. *)
Definition processLinks (clock : nat -> jsstring) (links : list RawLink)
           (baseDomain : jsstring) : LinkResults :=
  let (processedLinks, errs) := processLoop baseDomain clock 0 links in
  let uniqueLinks := uniqueByHref processedLinks in
  let internal := filter (fun l => negb (l_isPDF l)) uniqueLinks in
  let pdfs := filter l_isPDF uniqueLinks in
  mkResults internal pdfs uniqueLinks errs
            (mkStats (length links) (length uniqueLinks) (length internal)
                     (length pdfs) (length errs)).

(** [handleLinks(links, baseDomain, ignorePatterns)]; an empty
    [baseDomain] is refused. *)
Definition handleLinks (clock : nat -> jsstring) (links : list RawLink)
           (baseDomain : jsstring) : LinkResults :=
  if JS.eqb baseDomain [] then mkResults [] [] [] [] (mkStats 0 0 0 0 0)
  else processLinks clock links baseDomain.

End WithPlatform.

End LinkHandler.

(** ** A model of the WHATWG URL parser

    The parser of the URL Standard for [http:] and [https:] URLs with an
    ASCII domain, and for URLs with an opaque path ([mailto:], [tel:],
    [javascript:] and the like).  What it leaves out (credentials, IP
    addresses, percent-encoded or internationalised hosts, other special
    schemes, non-ASCII input, [^]) is answered [Unmodelled], never guessed. *)

Module Whatwg.

Inductive Path : Type :=
| Segments (l : list jsstring)
| Opaque (s : jsstring).

Record URLRecord : Type := mkURL {
  scheme : jsstring;
  host : option jsstring;
  port : option N;
  path : Path;
  query : option jsstring;
  fragment : option jsstring
}.

Inductive Outcome (A : Type) : Type :=
| Parsed (a : A)
| Failure                     (* the constructor throws a TypeError *)
| Unmodelled.
Arguments Parsed {A} a.
Arguments Failure {A}.
Arguments Unmodelled {A}.

Definition isAlpha (c : N) : bool :=
  ((65 <=? c) && (c <=? 90) || (97 <=? c) && (c <=? 122))%N.
Definition isDigit (c : N) : bool := ((48 <=? c) && (c <=? 57))%N.
Definition isSchemeChar (c : N) : bool :=
  isAlpha c || isDigit c || (c =? 43)%N || (c =? 45)%N || (c =? 46)%N.
Definition isC0OrSpace (c : N) : bool := (c <=? 32)%N.
Definition isTabOrNewline (c : N) : bool :=
  ((c =? 9) || (c =? 10) || (c =? 13))%N.
Definition isSlash (c : N) : bool := ((c =? 47) || (c =? 92))%N.
Definition oneOf (l : list N) (c : N) : bool := existsb (N.eqb c) l.

(** Percent-encode sets, on ASCII. *)
Definition inC0ControlSet (c : N) : bool := ((c <? 32) || (126 <? c))%N.
Definition inFragmentSet (c : N) : bool :=
  inC0ControlSet c || oneOf [32; 34; 60; 62; 96]%N c.
Definition inQuerySet (c : N) : bool :=
  inC0ControlSet c || oneOf [32; 34; 35; 60; 62]%N c.
Definition inSpecialQuerySet (c : N) : bool := inQuerySet c || (c =? 39)%N.
Definition inPathSet (c : N) : bool :=
  inQuerySet c || oneOf [63; 96; 123; 125]%N c.

Definition hexDigit (n : N) : N :=
  if (n <? 10)%N then (48 + n)%N else (55 + n)%N.

Definition percentEncode (c : N) : jsstring :=
  [37%N; hexDigit (c / 16); hexDigit (c mod 16)].

Definition encodeWith (inSet : N -> bool) (s : jsstring) : jsstring :=
  flat_map (fun c => if inSet c then percentEncode c else [c]) s.

Fixpoint dropWhile (p : N -> bool) (s : jsstring) : jsstring :=
  match s with
  | c :: s' => if p c then dropWhile p s' else s
  | [] => []
  end.

(** The longest prefix whose code units all satisfy [p], and the rest. *)
Fixpoint span (p : N -> bool) (s : jsstring) : jsstring * jsstring :=
  match s with
  | c :: s' =>
      if p c then let (a, b) := span p s' in (c :: a, b) else ([], s)
  | [] => ([], [])
  end.

(** The pieces between separators; there is always at least one piece. *)
Fixpoint splitOn (sep : N -> bool) (s : jsstring) : list jsstring :=
  match s with
  | [] => [[]]
  | c :: s' =>
      if sep c then [] :: splitOn sep s'
      else match splitOn sep s' with
           | seg :: segs => (c :: seg) :: segs
           | [] => [[c]]
           end
  end.

(** Leading and trailing C0 controls and spaces go, then every tab and
    newline. *)
Definition preprocess (input : jsstring) : jsstring :=
  let trimmed := rev (dropWhile isC0OrSpace (rev (dropWhile isC0OrSpace input))) in
  filter (fun c => negb (isTabOrNewline c)) trimmed.

Fixpoint schemeSpan (s : jsstring) : option (jsstring * jsstring) :=
  match s with
  | [] => None
  | c :: s' =>
      if (c =? 58)%N then Some ([], s')
      else if isSchemeChar c
           then match schemeSpan s' with
                | Some (a, r) => Some (asciiLower c :: a, r)
                | None => None
                end
           else None
  end.

(** The lower-cased scheme and what follows its colon. *)
Definition splitScheme (s : jsstring) : option (jsstring * jsstring) :=
  match s with
  | c :: _ => if isAlpha c then schemeSpan s else None
  | [] => None
  end.

Definition isHttp (sch : jsstring) : bool :=
  JS.eqb sch (lit "http") || JS.eqb sch (lit "https").

Definition isOtherSpecial (sch : jsstring) : bool :=
  JS.eqb sch (lit "ftp") || JS.eqb sch (lit "file")
  || JS.eqb sch (lit "ws") || JS.eqb sch (lit "wss").

Definition defaultPort (sch : jsstring) : N :=
  if JS.eqb sch (lit "http") then 80%N else 443%N.

Definition forbiddenDomainChar (c : N) : bool :=
  (c <=? 32)%N
  || oneOf [35; 37; 47; 58; 60; 62; 63; 64; 91; 92; 93; 94; 124; 127]%N c.

Definition plainHostChar (c : N) : bool :=
  ((97 <=? c) && (c <=? 122))%N || isDigit c || (c =? 45)%N || (c =? 46)%N.

Definition startsWithDigit (label : jsstring) : bool :=
  match label with
  | c :: _ => isDigit c
  | [] => false
  end.

(** Labels the model handles: none is empty, none is Punycode, and the last
    one cannot be read as a number (which would make the host an IPv4
    address). *)
Definition plainLabels (labels : list jsstring) : bool :=
  forallb (fun l => negb (JS.eqb l [])) labels
  && forallb (fun l => negb (startsWith l (lit "xn--"))) labels
  && negb (startsWithDigit (last labels [])).

(** The host parser on a domain: lower-cased, refused on a forbidden code
    point. *)
Definition parseHost (raw : jsstring) : Outcome jsstring :=
  if oneOf raw 37%N || startsWith raw (lit "[") then Unmodelled
  else
    let h := asciiLowerCase raw in
    if existsb forbiddenDomainChar h then Failure
    else if negb (forallb plainHostChar h) then Unmodelled
    else if negb (plainLabels (splitOn (N.eqb 46) h)) then Unmodelled
    else Parsed h.

Fixpoint decimal (acc : N) (digits : jsstring) : N :=
  match digits with
  | [] => acc
  | c :: digits' => decimal (acc * 10 + (c - 48))%N digits'
  end.

(** The port behind the colon: [None] inside [Parsed] is the null port. *)
Definition parsePort (sch : jsstring) (raw : jsstring) : Outcome (option N) :=
  if negb (forallb isDigit raw) then Failure
  else match raw with
       | [] => Parsed None
       | _ =>
           let p := decimal 0 raw in
           if (65535 <? p)%N then Failure
           else if (p =? defaultPort sch)%N then Parsed None
           else Parsed (Some p)
       end.

Definition isSingleDot (seg : jsstring) : bool :=
  let s := asciiLowerCase seg in
  JS.eqb s (lit ".") || JS.eqb s (lit "%2e").

Definition isDoubleDot (seg : jsstring) : bool :=
  let s := asciiLowerCase seg in
  JS.eqb s (lit "..") || JS.eqb s (lit ".%2e")
  || JS.eqb s (lit "%2e.") || JS.eqb s (lit "%2e%2e").

(** The path state, one segment at a time: a double dot removes the last
    segment, a single dot adds nothing, and either leaves an empty segment
    when it ends the path. *)
Fixpoint pathSteps (stack : list jsstring) (segs : list jsstring) : list jsstring :=
  match segs with
  | [] => stack
  | seg :: rest =>
      let closing := match rest with [] => [[]] | _ :: _ => [] end in
      if isDoubleDot seg then pathSteps (removelast stack ++ closing) rest
      else if isSingleDot seg then pathSteps (stack ++ closing) rest
      else pathSteps (stack ++ [encodeWith inPathSet seg]) rest
  end.

(** The path start state takes one leading slash; the path state does the
    rest. *)
Definition parsePath (stack : list jsstring) (raw : jsstring) : list jsstring :=
  let body := match raw with
              | c :: r => if isSlash c then r else raw
              | [] => []
              end in
  pathSteps stack (splitOn isSlash body).

(** [?query] and [#fragment] at the end of the input. *)
Definition parseTail (special : bool) (rest : jsstring)
  : option jsstring * option jsstring :=
  let (q, rest') :=
    match rest with
    | 63%N :: r =>
        let (q, r') := span (fun c => negb (c =? 35)%N) r in
        (Some (encodeWith (if special then inSpecialQuerySet else inQuerySet) q), r')
    | _ => (None, rest)
    end in
  match rest' with
  | 35%N :: f => (q, Some (encodeWith inFragmentSet f))
  | _ => (q, None)
  end.

Definition notPathEnd (c : N) : bool := negb (oneOf [63; 35]%N c).
Definition notAuthorityEnd (c : N) : bool := negb (oneOf [47; 92; 63; 35]%N c).

(** An [http(s)] URL from what follows the scheme's colon. *)
Definition parseHttp (sch rest : jsstring) : Outcome URLRecord :=
  let (authority, rest1) := span notAuthorityEnd (dropWhile isSlash rest) in
  if oneOf authority 64%N then Unmodelled
  else
    let (hostRaw, portPart) := span (fun c => negb (c =? 58)%N) authority in
    match hostRaw with
    | [] => Failure
    | _ =>
        match parseHost hostRaw with
        | Unmodelled => Unmodelled
        | Failure => Failure
        | Parsed h =>
            match parsePort sch (tl portPart) with
            | Unmodelled => Unmodelled
            | Failure => Failure
            | Parsed p =>
                let (pathRaw, rest2) := span notPathEnd rest1 in
                let (q, f) := parseTail true rest2 in
                Parsed (mkURL sch (Some h) p (Segments (parsePath [] pathRaw)) q f)
            end
        end
    end.

(** A URL with an opaque path from what follows the scheme's colon. *)
Definition parseOpaque (sch rest : jsstring) : Outcome URLRecord :=
  let (pathRaw, rest2) := span notPathEnd rest in
  let (q, f) := parseTail false rest2 in
  Parsed (mkURL sch None None (Opaque (encodeWith inC0ControlSet pathRaw)) q f).

Definition unmodelledChar (c : N) : bool := ((127 <? c) || (c =? 94))%N.

Definition parseAbsolute (sch rest : jsstring) : Outcome URLRecord :=
  if isHttp sch then parseHttp sch rest
  else if isOtherSpecial sch then Unmodelled
  else if startsWith rest (lit "/") then Unmodelled
  else parseOpaque sch rest.

(** [new URL(input)] *)
Definition basicParse (input : jsstring) : Outcome URLRecord :=
  let s := preprocess input in
  if existsb unmodelledChar s then Unmodelled
  else
    match splitScheme s with
    | None => Failure
    | Some (sch, rest) => parseAbsolute sch rest
    end.

(** [new URL(input, base)], for an [http(s)] base and an input that is
    absolute, or a path with or without a leading slash. *)
Definition parseRelative (input : jsstring) (base : URLRecord) : Outcome URLRecord :=
  let s := preprocess input in
  if existsb unmodelledChar s then Unmodelled
  else
    match splitScheme s with
    | Some (sch, rest) =>
        if JS.eqb sch (scheme base) && negb (startsWith rest (lit "//"))
        then Unmodelled
        else parseAbsolute sch rest
    | None =>
        match path base, s with
        | Opaque _, _ => Unmodelled
        | Segments _, [] => Unmodelled
        | Segments bp, c :: r =>
            if oneOf [63; 35]%N c then Unmodelled
            else
              let (pathRaw, rest2) := span notPathEnd s in
              let (q, f) := parseTail true rest2 in
              if isSlash c
              then match r with
                   | c' :: _ =>
                       if isSlash c' then Unmodelled
                       else Parsed (mkURL (scheme base) (host base) (port base)
                                          (Segments (parsePath [] pathRaw)) q f)
                   | [] => Parsed (mkURL (scheme base) (host base) (port base)
                                         (Segments (parsePath [] pathRaw)) q f)
                   end
              else Parsed (mkURL (scheme base) (host base) (port base)
                                 (Segments (pathSteps (removelast bp)
                                                      (splitOn isSlash pathRaw)))
                                 q f)
        end
    end.

Definition parseWithBase (input base : jsstring) : Outcome URLRecord :=
  match basicParse base with
  | Parsed b => if isHttp (scheme b) then parseRelative input b else Unmodelled
  | Failure => Failure
  | Unmodelled => Unmodelled
  end.

Definition serializePath (p : Path) : jsstring :=
  match p with
  | Segments segs => concat (map (cons 47%N) segs)
  | Opaque s => s
  end.

Definition printPort (p : N) : jsstring :=
  lit (NilEmpty.string_of_uint (N.to_uint p)).

(** The URL serializer. *)
Definition serialize (u : URLRecord) : jsstring :=
  scheme u ++ lit ":"
  ++ match host u with
     | Some h =>
         lit "//" ++ h
         ++ match port u with
            | Some p => lit ":" ++ printPort p
            | None => []
            end
     | None => []
     end
  ++ serializePath (path u)
  ++ match query u with Some q => lit "?" ++ q | None => [] end
  ++ match fragment u with Some f => lit "#" ++ f | None => [] end.

Definition answer (A : Type) (o : Outcome A) : option A :=
  match o with
  | Parsed a => Some a
  | Failure | Unmodelled => None
  end.

(** The inputs on which the model speaks for the real parser. *)
Definition modelled (input : jsstring) : bool :=
  match basicParse input with
  | Unmodelled => false
  | _ => true
  end.

#[export] Instance platform : Url.Platform := {|
  Url.URL := URLRecord;
  Url.parse := fun input => answer (basicParse input);
  Url.parseWithBase := fun input base => answer (parseWithBase input base);
  Url.protocol := fun u => scheme u ++ lit ":";
  Url.hostname := fun u => match host u with Some h => h | None => [] end;
  Url.pathname := fun u => serializePath (path u);
  Url.href := serialize;
  Url.clearHash := fun u =>
    mkURL (scheme u) (host u) (port u) (path u) (query u) None;
  Url.setPathname := fun u p =>
    match path u with
    | Opaque _ => u
    | Segments _ =>
        mkURL (scheme u) (host u) (port u)
              (Segments (parsePath [] (filter (fun c => negb (isTabOrNewline c)) p)))
              (query u) (fragment u)
    end
|}.

End Whatwg.

(** ** HTML crawler (crawler/htmlCrawler.js)

    The network, the HTML parser and [String.prototype.toLowerCase] are
    parameters. *)

Module HtmlCrawler.

Import Url.

Section WithPlatform.

Context {P : Platform}.
Variable toLowerCase : jsstring -> jsstring.
(** [fetchHTML(url)]; [None] when it throws. *)
Variable fetchHTML : jsstring -> option jsstring.
(** [extractStructuredContent(cheerio.load(html)).fullText] *)
Variable extractFullText : jsstring -> jsstring.
(** [extractLinks(cheerio.load(html), url)] *)
Variable extractLinks : jsstring -> jsstring -> list LinkHandler.RawLink.

Definition validateCrawlUrl (url : jsstring) : bool :=
  match parse url with
  | None => false
  | Some urlObj =>
      if negb (arrayIncludes [lit "http:"; lit "https:"] (protocol urlObj)) then false
      else negb (JS.eqb (hostname urlObj) [])
  end.

Fixpoint startsWithI (s p : jsstring) {struct p} : bool :=
  match p with
  | [] => true
  | x :: p' =>
      match s with
      | [] => false
      | c :: s' => N.eqb (asciiLower c) (asciiLower x) && startsWithI s' p'
      end
  end.

(** [(text.match(new RegExp(keyword, 'gi')) || []).length] for a keyword
    without special characters: the matches found left to right, none
    overlapping another. *)
Fixpoint countFrom (skip : nat) (keyword text : jsstring) : Z :=
  match text with
  | [] => 0%Z
  | _ :: text' =>
      match skip with
      | S k => countFrom k keyword text'
      | O =>
          if startsWithI text keyword
          then (1 + countFrom (length keyword - 1) keyword text')%Z
          else countFrom 0 keyword text'
      end
  end.

Definition countMatches (text keyword : jsstring) : Z := countFrom 0 keyword text.

Definition highPriorityKeywords : list jsstring :=
  [ lit "regalia gold"; lit "credit card"; lit "fees"; lit "charges";
    lit "benefits"; lit "rewards"; lit "cashback"; lit "points";
    lit "eligibility"; lit "terms"; lit "conditions" ].

Definition mediumPriorityKeywords : list jsstring :=
  [ lit "insurance"; lit "coverage"; lit "lounge"; lit "milestone";
    lit "features"; lit "offers"; lit "annual"; lit "joining"; lit "waiver" ].

Definition irrelevantKeywords : list jsstring :=
  [ lit "money transfer"; lit "upi"; lit "donation"; lit "remittance";
    lit "forex"; lit "bill pay"; lit "recharge"; lit "fastag"; lit "demat";
    lit "mutual fund" ].

(** The score before [Math.max(0, score)]. *)
Definition rawRelevance (fullText url : jsstring) : Z :=
  let text := toLowerCase fullText in
  let urlLower := toLowerCase url in
  let score := 0%Z in
  let score := if includes urlLower (lit "credit") && includes urlLower (lit "card")
               then (score + 5)%Z else score in
  let score := if includes urlLower (lit "regalia") then (score + 8)%Z else score in
  let score := if includes urlLower (lit "gold") then (score + 3)%Z else score in
  let score := fold_left (fun sc keyword => (sc + countMatches text keyword * 2)%Z)
                         highPriorityKeywords score in
  let score := fold_left (fun sc keyword => (sc + countMatches text keyword * 1)%Z)
                         mediumPriorityKeywords score in
  let score := fold_left (fun sc keyword =>
                            if includes text keyword then (sc - 3)%Z else sc)
                         irrelevantKeywords score in
  if includes text (lit ".pdf") || includes text (lit "download")
  then (score + 2)%Z else score.

Definition calculateContentRelevance (fullText url : jsstring) : Z :=
  Z.max 0 (rawRelevance fullText url).

Record Page : Type := mkPage {
  p_url : jsstring;
  p_fullText : jsstring;
  p_links : list LinkHandler.RawLink;
  p_relevanceScore : Z
}.

Inductive CrawlOutcome : Type :=
| Crawled (page : Page)
| Rejected                     (* [return null] *)
| Threw.

(** [crawlPage(url)] *)
Definition crawlPage (url : jsstring) : CrawlOutcome :=
  if negb (validateCrawlUrl url) then Threw
  else
    let normalizedUrl :=
      match LinkHandler.normalizeUrl url with
      | Some n => if JS.eqb n [] then url else n
      | None => url
      end in
    match fetchHTML normalizedUrl with
    | None => Threw
    | Some html =>
        if JS.eqb html [] then Threw
        else
          let fullText := extractFullText html in
          let relevanceScore := calculateContentRelevance fullText normalizedUrl in
          if (relevanceScore <? 3)%Z then Rejected
          else Crawled (mkPage normalizedUrl fullText (extractLinks html url)
                               relevanceScore)
    end.

End WithPlatform.

End HtmlCrawler.

(** ** Crawl orchestrator (index.js)

    [extractCardData] up to the point where the aggregated record is handed
    on.  Page and PDF fetching and the field parser are parameters; the run
    answers every URL it asked for, in order, next to the aggregator. *)

Module Orchestrator.

Import LinkHandler Aggregator.

Inductive PdfOutcome : Type :=
| PdfText (text : jsstring)
| PdfSkipped                   (* [parsePDF] answered [null] *)
| PdfThrew.

Section WithPlatform.

Context {P : Url.Platform}.
Variable settings : Settings.t.
Variable crawlPage : jsstring -> HtmlCrawler.CrawlOutcome.
Variable parsePDF : jsstring -> PdfOutcome.
(** [parser.parsePDF(text, url)] of the field parser *)
Variable parseFields : jsstring -> jsstring -> Obj.t.
Variable clock : nat -> jsstring.

(** [arr.slice(0, n)]: a negative [n] counts from the end. *)
Definition slice0 (A : Type) (arr : list A) (n : Z) : list A :=
  if (n <? 0)%Z then firstn (Z.to_nat (Z.of_nat (length arr) + n)) arr
  else firstn (Z.to_nat n) arr.

(** [links.slice(0, Math.min(links.length, limit))] *)
Definition budgeted (links : list ProcessedLink) (limit : Z) : list ProcessedLink :=
  slice0 links (Z.min (Z.of_nat (length links)) limit).

Record Run : Type := mkRun {
  requested : list (SourceType * jsstring);
  aggregator : CardDataAggregator
}.

(** One round of the loop over [pagesToCrawl]. *)
Definition crawlOne (r : Run) (link : ProcessedLink) : Run :=
  let asked := requested r ++ [(html, l_href link)] in
  match crawlPage (l_href link) with
  | HtmlCrawler.Crawled page =>
      let pageCardData := parseFields (HtmlCrawler.p_fullText page) (l_href link) in
      mkRun asked
            (fst (addSourceData (aggregator r)
                                (mkSource pageCardData html (l_href link))))
  | HtmlCrawler.Rejected | HtmlCrawler.Threw => mkRun asked (aggregator r)
  end.

(** One round of the loop over [pdfsToProcess]. *)
Definition parseOne (r : Run) (pdfLink : ProcessedLink) : Run :=
  let asked := requested r ++ [(pdf, l_href pdfLink)] in
  match parsePDF (l_href pdfLink) with
  | PdfText text =>
      let pdfCardData := parseFields text (l_href pdfLink) in
      mkRun asked
            (fst (addSourceData (aggregator r)
                                (mkSource pdfCardData pdf (l_href pdfLink))))
  | PdfSkipped | PdfThrew => mkRun asked (aggregator r)
  end.

(** The two crawling phases on the links that triage answered. *)
Definition crawlPhases (r : Run) (internalLinks pdfLinks : list ProcessedLink) : Run :=
  let pagesToCrawl := budgeted internalLinks (Settings.maxPages settings) in
  let r1 := fold_left crawlOne pagesToCrawl r in
  let pdfsToProcess := budgeted pdfLinks (Settings.maxPDFs settings) in
  fold_left parseOne pdfsToProcess r1.

(** [extractCardData()]; [None] where the run ends in [process.exit(1)]. *)
Definition extractCardData : option Run :=
  match crawlPage (Settings.cardUrl settings) with
  | HtmlCrawler.Crawled mainPageData =>
      let mainPageCardData :=
        parseFields (HtmlCrawler.p_fullText mainPageData) (Settings.cardUrl settings) in
      let (a, ok) := addSourceData newAggregator
                       (mkSource mainPageCardData html (Settings.cardUrl settings)) in
      if ok then
        let linkResults :=
          handleLinks settings clock (HtmlCrawler.p_links mainPageData)
                      (Settings.baseDomain settings) in
        Some (crawlPhases (mkRun [(html, Settings.cardUrl settings)] a)
                          (internalLinks linkResults) (pdfLinks linkResults))
      else None
  | HtmlCrawler.Rejected | HtmlCrawler.Threw => None
  end.

End WithPlatform.

End Orchestrator.

(** ** Limiter configurations used in the properties *)

Module RateLimiterCases.

Import RateLimiter.

(** Rate 2 per second and burst 5, the minimum spacing left at its default
    of 500 ms. *)
Definition rate2burst5 : UserOptions :=
  mkUserOptions (Some 2%Q) (Some 5%Q) None None.


Definition domain : jsstring := lit "www.hdfcbank.com".
Definition t0 : Z := 1700000000000.

End RateLimiterCases.

(** ** What the aggregator properties speak of *)

Module AggregatorSpec.

Import Obj Aggregator.

(** The first non-empty value among those offered, [null] when there is
    none. *)
Definition firstNonEmpty (offered : list Value) : Value :=
  match find truthy offered with
  | Some v => v
  | None => VNull
  end.

(** The values in [l] that were not seen before, in the order in which they
    first appear. *)
Fixpoint firstSeen (seen l : list jsstring) : list jsstring :=
  match l with
  | [] => []
  | x :: l' =>
      if arrayIncludes seen x then firstSeen seen l'
      else x :: firstSeen (x :: seen) l'
  end.

(** The entries a source offers for an array field. *)
Definition entries (field : jsstring) (src : Source) : list jsstring :=
  match get (data src) field with
  | VArr items => items
  | _ => []
  end.

(** The union of the entries in trimmed form, blank entries left out, in
    first-seen order. *)
Definition unionOfEntries (field : jsstring) (srcs : list Source) : list jsstring :=
  firstSeen [] (map trim (filter nonBlank (flat_map (entries field) srcs))).

Definition offered (field : jsstring) (srcs : list Source) : list Value :=
  map (fun src => get (data src) field) srcs.

(** Every array field holds an array. *)
Definition arraysInPlace (fields : list jsstring) (cd : Obj.t) : Prop :=
  forall g, In g fields -> exists acc, get cd g = VArr acc.

Definition mergeObjects (sourceData : Obj.t) (cd : Obj.t) : Obj.t * bool :=
  foldRes (fun c field => mergeObjectField c field (get sourceData field))
          objectFields cd.

(** [₹] followed by an amount. *)
Definition rupees (amount : string) : jsstring := 8377%N :: lit amount.
Arguments rupees amount%_string.

Definition sourceA : Source :=
  mkSource [(lit "annualFee", VStr (rupees "500"))] html (lit "A").
Definition sourceB : Source :=
  mkSource [(lit "annualFee", VStr (rupees "900"))] pdf (lit "B").
Definition goldSource : Source :=
  mkSource [(lit "cardType", VStr (lit "Gold"))] html (lit "A").

Definition loungeSource1 : Source :=
  mkSource [(lit "benefits", VArr [lit "Lounge Access"])] html (lit "A").
Definition loungeSource2 : Source :=
  mkSource [(lit "benefits", VArr [lit "lounge access "])] pdf (lit "B").
Definition loungeSource3 : Source :=
  mkSource [(lit "benefits", VArr [lit "Lounge Access "; lit "   "])] pdf (lit "C").
Definition blankSource : Source :=
  mkSource [(lit "benefits", VArr [lit "   "])] html (lit "D").

Definition statusOf (v : Value) : FieldStatus :=
  if isFilled v then filled else empty.

(** The claim's criterion in the claim's words: a field is non-empty when it
    is an array with an entry, an object with a key, or a scalar that is
    neither [null] nor the empty string. *)
Definition nonEmptyField (v : Value) : bool :=
  match v with
  | VArr [] => false
  | VArr (_ :: _) => true
  | VObj [] => false
  | VObj (_ :: _) => true
  | VStr [] => false
  | VStr (_ :: _) => true
  | VNull => false
  | VUndefined => false
  end.

(** The number of keys whose field is non-empty. *)
Definition nonEmptyCount (cd : Obj.t) (ks : list jsstring) : nat :=
  length (filter (fun k => nonEmptyField (get cd k)) ks).

(** The number of keys whose value counts as filled. *)
Definition filledCount (cd : Obj.t) (ks : list jsstring) : nat :=
  length (filter (fun k => isFilled (get cd k)) ks).

(** A record of 20 fields, 11 of them non-empty. *)
Definition record20 : Obj.t :=
  map (fun i => (lit "field" ++ indexKey i,
                 if (i <? 11)%nat then VStr (lit "x") else VNull))
      (seq 0 20).

Definition aggregator20 : CardDataAggregator := mkAggregator record20 [].

End AggregatorSpec.

(** ** What the triage properties speak of *)

Module LinkHandlerSpec.

Import Url LinkHandler.

Section WithPlatform.

Context {P : Platform}.

(** The canonical URL of a link, as the loop of [processLinks] has it in
    hand when it asks [isIgnored]. *)
Definition canonicalUrl (baseDomain : jsstring) (link : RawLink) : option jsstring :=
  match hrefOf link with
  | None => None
  | Some href =>
      if JS.eqb href [] then None
      else if skipHref href then None
      else match resolveHref (lit "https://" ++ baseDomain) href with
           | None => None
           | Some absoluteUrl => finalUrlOf baseDomain absoluteUrl
           end
  end.

End WithPlatform.

End LinkHandlerSpec.

(** ** Canonical plain URLs and sample inputs *)

Module WhatwgSpec.

Import Whatwg LinkHandler.

Definition notDotSegment (seg : jsstring) : bool :=
  negb (isSingleDot seg || isDoubleDot seg).

(** A code unit that stands for itself in a path. *)
Definition plainPathChar (c : N) : bool :=
  negb (inPathSet c) && negb (c =? 92)%N && negb (unmodelledChar c).

(** A lower-case domain that the host parser answers as it is. *)
Definition canonicalHost (h : jsstring) : bool :=
  negb (JS.eqb h []) && forallb plainHostChar h
  && plainLabels (splitOn (N.eqb 46) h).

(** A code unit that the parser reads as it stands: printable ASCII. *)
Definition niceChar (c : N) : bool := (32 <? c)%N && negb (unmodelledChar c).

(** A canonical URL followed by 2000 spaces. *)
Definition paddedUrl : jsstring :=
  lit "https://www.hdfcbank.com/personal/pay/cards" ++ repeat 32%N 2000.

(** A URL whose path has 2000 characters. *)
Definition longUrl : jsstring :=
  lit "https://www.hdfcbank.com/" ++ repeat 97%N 2000.

Definition shipped : Settings.t := Settings.fromEnv None None None.

Definition loginLink : RawLink :=
  LinkObject (Some (lit "/login/credit-card-benefits")) (Some (lit "Log in")) None.

End WhatwgSpec.

(** ** The end-to-end scenario *)

Module OrchestratorSpec.

Import LinkHandler Aggregator Orchestrator.

Definition asked (kind : SourceType) (links : list ProcessedLink)
  : list (SourceType * jsstring) :=
  map (fun l => (kind, l_href l)) links.

(** Page and PDF budgets of 3 and 1. *)
Definition scenarioSettings : Settings.t := Settings.fromEnv (Some 3%Z) (Some 1%Z) None.

Definition anchor (href : string) : RawLink :=
  LinkObject (Some (lit href)) None None.
Arguments anchor href%_string.

(** The links of the seed page: eight to pages, three of which are
    ignored, and two to PDFs. *)
Definition seedLinks : list RawLink :=
  [ anchor "/personal/pay/cards";
    anchor "/login";
    anchor "/personal/resources/ways-to-bank";
    anchor "/personal/borrow/personal-loan";
    anchor "/personal/pay/cards/credit-cards";
    anchor "/about-us";
    anchor "/personal/pay/cards/credit-cards/regalia-gold-credit-card/fees-and-charges";
    anchor "/personal/pay/cards/credit-cards/regalia-gold-credit-card/eligibility";
    anchor "/content/dam/mitc.pdf";
    anchor "/content/dam/regalia-gold-tnc.pdf" ].

(** Every fetch succeeds. *)
Definition everyPage (url : jsstring) : HtmlCrawler.CrawlOutcome :=
  HtmlCrawler.Crawled (HtmlCrawler.mkPage url (lit "credit card fees") seedLinks 4).
Definition everyPdf (_ : jsstring) : PdfOutcome := PdfText (lit "terms").
Definition noFields (_ _ : jsstring) : Obj.t := [].

Definition scenarioTriage : LinkResults :=
  @handleLinks Whatwg.platform scenarioSettings (fun _ => []) seedLinks
               (Settings.baseDomain scenarioSettings).

Definition site (path : string) : jsstring := lit "https://hdfcbank.com" ++ lit path.
Arguments site path%_string.

End OrchestratorSpec.

(** ** Error tracking (utils/errorHandler.js, the [ErrorHandler] class)

    The state of a handler, the bookkeeping of [trackError], the stop rule,
    the statistics and the retry delay.  What a method writes to the console
    or to disk is answered as a list of effects. *)

Module ErrorTracking.

Import ErrorHandler.

Definition kindName (k : ErrorKind) : jsstring :=
  lit match k with
      | VALIDATION => "VALIDATION" | NETWORK => "NETWORK"
      | RATE_LIMIT => "RATE_LIMIT" | PARSING => "PARSING"
      | DATA_VALIDATION => "DATA_VALIDATION" | NOT_FOUND => "NOT_FOUND"
      | CLIENT_ERROR => "CLIENT_ERROR" | SERVER_ERROR => "SERVER_ERROR"
      | TIMEOUT => "TIMEOUT" | DNS_ERROR => "DNS_ERROR"
      | CONNECTION_REFUSED => "CONNECTION_REFUSED"
      | CONNECTION_RESET => "CONNECTION_RESET"
      | FILE_NOT_FOUND => "FILE_NOT_FOUND"
      | PERMISSION_DENIED => "PERMISSION_DENIED"
      | IS_DIRECTORY => "IS_DIRECTORY" | PDF_ERROR => "PDF_ERROR"
      | HTML_ERROR => "HTML_ERROR" | JSON_ERROR => "JSON_ERROR"
      | URL_ERROR => "URL_ERROR" | UNKNOWN => "UNKNOWN"
      end%string.

(** The options a caller may pass to the constructor; a missing key is
    [None]. *)
Record UserOptions : Type := mkUserOptions {
  u_maxConsecutiveErrors : option Z;
  u_saveErrorLogs : option bool;
  u_exitOnFatalError : option bool
}.

Record Options : Type := mkOptions {
  maxConsecutiveErrors : Z;
  saveErrorLogs : bool;
  exitOnFatalError : bool
}.

(** The spread [...options] at the end of the literal puts every key the
    caller gave back as given. *)
Definition makeOptions (o : UserOptions) : Options :=
  mkOptions (match u_maxConsecutiveErrors o with Some n => n | None => 3%Z end)
            (match u_saveErrorLogs o with Some b => b | None => true end)
            (match u_exitOnFatalError o with Some b => b | None => true end).

(** What [handleError] gathers about an error; [i_url] is [context.url]. *)
Record ErrorInfo : Type := mkInfo {
  i_error : JsError;
  i_url : option jsstring;
  i_type : ErrorKind
}.

Record Handler : Type := mkHandler {
  options : Options;
  errors : list ErrorInfo;
  errorCounts : JsMap.t Z;
  consecutiveErrors : JsMap.t Z;
  lastErrorKey : option jsstring       (* [undefined] and [null] are [None] *)
}.

(** [new ErrorHandler(options)] *)
Definition newErrorHandler (o : UserOptions) : Handler :=
  mkHandler (makeOptions o) [] [] [] None.

(** [map.get(key) || 0] *)
Definition countOf (m : JsMap.t Z) (key : jsstring) : Z :=
  match JsMap.get m key with
  | Some n => n
  | None => 0%Z
  end.

(** [`${type}:${context.url || 'unknown'}`] *)
Definition keyOf (info : ErrorInfo) : jsstring :=
  kindName (i_type info) ++ lit ":"
  ++ match i_url info with
     | Some u => if JS.eqb u [] then lit "unknown" else u
     | None => lit "unknown"
     end.

Definition isLastKey (h : Handler) (key : jsstring) : bool :=
  match lastErrorKey h with
  | Some k => JS.eqb k key
  | None => false
  end.

Inductive Warning : Type :=
| ConsecutiveErrors (key : jsstring) (count : Z)
| HighTotal (key : jsstring) (count : Z)
| ReduceFrequency
| CheckStructure.

Definition when (A : Type) (b : bool) (a : A) : list A := if b then [a] else [].

(** [detectErrorPatterns(key, errorInfo)]: the warnings it logs. *)
Definition detectErrorPatterns (h : Handler) (key : jsstring) (info : ErrorInfo)
  : list Warning :=
  let consecutiveCount := countOf (consecutiveErrors h) key in
  let totalCount := countOf (errorCounts h) key in
  when (consecutiveCount >=? maxConsecutiveErrors (options h))%Z
       (ConsecutiveErrors key consecutiveCount)
  ++ when (totalCount >=? 10)%Z (HighTotal key totalCount)
  ++ when (ErrorKind_eqb (i_type info) RATE_LIMIT && (totalCount >=? 3)%Z)
          ReduceFrequency
  ++ when (ErrorKind_eqb (i_type info) PARSING && (consecutiveCount >=? 2)%Z)
          CheckStructure.

(** [trackError(errorInfo)] *)
Definition trackError (h : Handler) (info : ErrorInfo) : Handler * list Warning :=
  let key := keyOf info in
  let counts := JsMap.set (errorCounts h) key (countOf (errorCounts h) key + 1)%Z in
  let consecutive :=
    if isLastKey h key
    then JsMap.set (consecutiveErrors h) key
                   (countOf (consecutiveErrors h) key + 1)%Z
    else JsMap.set (consecutiveErrors h) key 1%Z in
  let h' := mkHandler (options h) (errors h) counts consecutive (Some key) in
  (h', detectErrorPatterns h' key info).

(** [shouldStopProcessing(errorInfo)].  The second fatal type,
    [DATA_CORRUPTION], is none that [categorizeError] answers. *)
Definition shouldStopProcessing (h : Handler) (info : ErrorInfo) : bool :=
  let consecutiveCount :=
    match lastErrorKey h with
    | Some k => countOf (consecutiveErrors h) k
    | None => 0%Z
    end in
  let totalErrors := Z.of_nat (length (errors h)) in
  if (consecutiveCount >=? maxConsecutiveErrors (options h))%Z then true
  else if (totalErrors >=? 50)%Z then true
  else ErrorKind_eqb (i_type info) PERMISSION_DENIED.

(** The methods of the class; [this.name(...)] on any other name is a call
    of [undefined]. *)
Definition methods : list string :=
  [ "init"; "ensureLogDirectory"; "handleError"; "categorizeError";
    "trackError"; "detectErrorPatterns"; "saveErrorLog"; "shouldRetry";
    "getRetryDelay"; "shouldStopProcessing"; "getErrorStats"; "reset" ]%string.

Definition hasMethod (name : string) : bool :=
  existsb (String.eqb name) methods.

Inductive Effect : Type :=
| Warned (w : Warning)
| Logged (info : ErrorInfo)          (* the console *)
| Saved (info : ErrorInfo).          (* a file under [errorLogPath] *)

Inductive Thrown : Type :=
| Original (e : JsError)
| NotAFunction (name : string).      (* a [TypeError] *)

Inductive Completion (A : Type) : Type :=
| Returned (a : A)
| Threw (t : Thrown)
| Exited (status : Z).               (* [process.exit(status)] *)
Arguments Returned {A} a.
Arguments Threw {A} t.
Arguments Exited {A} status.

(** [handleError(error, context)]: the handler afterwards, what was
    written, and how the call ends. *)
Definition handleError (h : Handler) (error : JsError) (url : option jsstring)
  : Handler * list Effect * Completion ErrorInfo :=
  let errorInfo := mkInfo error url (categorizeError error) in
  let (h1, warnings) := trackError h errorInfo in
  let effects := map Warned warnings in
  if negb (hasMethod "logError")
  then (h1, effects, Threw (NotAFunction "logError"))
  else
    let effects := effects ++ [Logged errorInfo] in
    let effects := if saveErrorLogs (options h1)
                   then effects ++ [Saved errorInfo] else effects in
    if shouldStopProcessing h1 errorInfo && exitOnFatalError (options h1)
    then (h1, effects, Exited 1)
    else (h1, effects, Returned errorInfo).

(** [withErrorHandling(fn, context)] on the global handler, for an [fn] that
    answers [v] or throws [e]. *)
Definition withErrorHandling (A : Type) (h : Handler) (fn : A + JsError)
           (url : option jsstring) : Handler * list Effect * Completion A :=
  match fn with
  | inl v => (h, [], Returned v)
  | inr error =>
      match handleError h error url with
      | (h1, effects, Returned _) => (h1, effects, Threw (Original error))
      | (h1, effects, Threw t) => (h1, effects, Threw t)
      | (h1, effects, Exited status) => (h1, effects, Exited status)
      end
  end.

(** [reset()] *)
Definition reset (h : Handler) : Handler :=
  mkHandler (options h) [] [] [] None.

(** [getRetryDelay(error, attempt)], with [random] the draw of
    [Math.random()]; numbers are exact rationals. *)
Definition getRetryDelay (error : JsError) (attempt : Z) (random : Q) : Q :=
  let baseDelay := 1000%Q in
  let delay := (baseDelay * Qpower 2 (attempt - 1))%Q in
  let delay := (delay + random * 1000)%Q in
  let delay :=
    match categorizeError error with
    | RATE_LIMIT => (delay * 3)%Q
    | SERVER_ERROR => (delay * 2)%Q
    | NETWORK | CONNECTION_RESET => (delay * (3 # 2))%Q
    | _ => delay
    end in
  Qmin delay 60000.

Section WithPlatform.

Context {P : Url.Platform}.

Record Stats : Type := mkStats {
  totalErrors : nat;
  errorsByType : JsMap.t Z;
  errorsByDomain : JsMap.t Z;
  consecutive : JsMap.t Z;
  lastError : option ErrorInfo
}.

(** [key.split(':')] *)
Definition splitKey (key : jsstring) : list jsstring :=
  Whatwg.splitOn (N.eqb 58) key.

(** The body of the loop over [errorCounts.entries()]; [type] and [url] are
    the first two pieces of the key. *)
Definition countEntry (acc : JsMap.t Z * JsMap.t Z) (entry : jsstring * Z)
  : JsMap.t Z * JsMap.t Z :=
  let (byType, byDomain) := acc in
  let (key, count) := entry in
  let pieces := splitKey key in
  let type := nth 0 pieces [] in
  let byType := JsMap.set byType type (countOf byType type + count)%Z in
  match nth_error pieces 1 with
  | Some url =>
      if negb (JS.eqb url []) && negb (JS.eqb url (lit "unknown"))
      then match Url.parse url with
           | Some u =>
               let domain := Url.hostname u in
               (byType, JsMap.set byDomain domain (countOf byDomain domain + count)%Z)
           | None => (byType, byDomain)
           end
      else (byType, byDomain)
  | None => (byType, byDomain)
  end.

(** [getErrorStats()] *)
Definition getErrorStats (h : Handler) : Stats :=
  let (byType, byDomain) := fold_left countEntry (errorCounts h) ([], []) in
  mkStats (length (errors h)) byType byDomain (consecutiveErrors h)
          (last (map Some (errors h)) None).

End WithPlatform.

End ErrorTracking.

(** ** What the error-tracking properties speak of *)

Module ErrorTrackingSpec.

Import ErrorHandler ErrorTracking.

(** The kinds of error for which a retry can be granted. *)
Definition retryable : list ErrorKind := alwaysRetryTypes ++ [RATE_LIMIT].

(** A run of [trackError] calls. *)
Definition trackAll (h : Handler) (infos : list ErrorInfo) : Handler :=
  fold_left (fun h info => fst (trackError h info)) infos h.

(** How many of the errors carry the key. *)
Definition timesSeen (key : jsstring) (infos : list ErrorInfo) : nat :=
  length (filter (fun info => JS.eqb (keyOf info) key) infos).

Fixpoint leadingRun (key : jsstring) (keys : list jsstring) : nat :=
  match keys with
  | k :: keys' => if JS.eqb k key then S (leadingRun key keys') else O
  | [] => O
  end.

(** How many errors at the end of the run carry the key, one after the
    other. *)
Definition trailingRun (key : jsstring) (infos : list ErrorInfo) : nat :=
  leadingRun key (rev (map keyOf infos)).

(** How many of the errors are of the kind. *)
Definition timesOfKind (k : ErrorKind) (infos : list ErrorInfo) : nat :=
  length (filter (fun info => ErrorKind_eqb (i_type info) k) infos).

(** The sum of the counts kept under the keys that satisfy [p]. *)
Definition totalWhere (p : jsstring -> bool) (m : JsMap.t Z) : Z :=
  fold_right (fun entry acc => if p (fst entry) then (snd entry + acc)%Z else acc)
             0%Z m.

(** The first piece of a key, which [getErrorStats] takes for the type. *)
Definition head (key : jsstring) : jsstring := nth 0 (splitKey key) [].

(** Three timeouts on one page, then a page that is not found. *)
Definition sampleErrors : list ErrorInfo :=
  let timeout := mkError OtherError None (Some (lit "ETIMEDOUT")) (lit "timeout") in
  let page := Some (lit "https://www.hdfcbank.com/personal/pay/cards") in
  [ mkInfo timeout page TIMEOUT; mkInfo timeout page TIMEOUT;
    mkInfo timeout page TIMEOUT;
    mkInfo (httpError 404) (Some (lit "https://www.hdfcbank.com/gone")) NOT_FOUND ].

End ErrorTrackingSpec.

(** ** Rate limiter, continued (utils/rateLimiter.js) *)

Module RateLimiterOps.

Import RateLimiter.

(** [clearDomain(domain)] *)
Definition clearDomain (l : DomainRateLimiter) (domain : jsstring) : DomainRateLimiter :=
  mkLimiter (options l) (JsMap.delete (limiters l) domain)
            (JsMap.delete (lastRequestTime l) domain).

(** [withRateLimit(domain, callback)] on the limiter [l]: the callback runs
    once the wait is over, at the time the wait ended. *)
Definition withRateLimit (A : Type) (fuel : nat) (l : DomainRateLimiter)
           (domain : jsstring) (callback : Z -> A) (now : Z)
  : option (DomainRateLimiter * Z * A) :=
  match waitForRateLimit fuel l domain now with
  | Some (l', now') => Some (l', now', callback now')
  | None => None
  end.

End RateLimiterOps.

(** ** What the rate-limiter properties speak of *)

Module RateLimiterSpec.

Import RateLimiter RateLimiterOps.

(** Tokens gained per millisecond. *)
Definition rate (b : TokenBucket) : Q := (tokensPerInterval b / interval b)%Q.

(** The tokens in the bucket once it is refilled at [now]. *)
Definition level (b : TokenBucket) (now : Z) : Q := tokens (fillBucket b now).

Definition sameSettings (b b' : TokenBucket) : Prop :=
  tokensPerInterval b' = tokensPerInterval b /\ interval b' = interval b
  /\ maxBurst b' = maxBurst b.

(** A bucket with a positive rate that holds between no token and a full
    burst. *)
Definition sound (b : TokenBucket) : Prop :=
  (0 < tokensPerInterval b)%Q /\ (0 < interval b)%Q
  /\ (0 <= tokens b)%Q /\ (tokens b <= maxBurst b)%Q.

(** The burst a new bucket starts with: [burstSize || requestsPerSecond]. *)
Definition capacity (o : Options) : Q :=
  if Qzero (burstSize o) then requestsPerSecond o else burstSize o.

(** The bucket a call for [domain] entered at [now] works with. *)
Definition bucketAt (l : DomainRateLimiter) (domain : jsstring) (now : Z) : TokenBucket :=
  fst (getLimiter l domain now).

(** What a caller does with a limiter, one thing after the other: it lets
    [pause] milliseconds pass and waits for its turn on [domain], or it
    clears a domain. *)
Inductive Op : Type :=
| Wait (domain : jsstring) (pause : Z)
| Clear (domain : jsstring).

(** A run of operations begun at [now]: the limiter and the time at its
    end.  A wait that does not complete ends the run. *)
Fixpoint run (fuel : nat) (l : DomainRateLimiter) (now : Z) (ops : list Op)
  : option (DomainRateLimiter * Z) :=
  match ops with
  | [] => Some (l, now)
  | Wait domain pause :: ops' =>
      match waitForRateLimit fuel l domain (now + pause) with
      | Some (l', now') => run fuel l' now' ops'
      | None => None
      end
  | Clear domain :: ops' => run fuel (clearDomain l domain) now ops'
  end.

(** No domain is listed twice. *)
Definition tidy (l : DomainRateLimiter) : Prop :=
  NoDup (map fst (limiters l)) /\ NoDup (map fst (lastRequestTime l)).


(** Rate 2 per second and a burst of half a token. *)
Definition halfBurst : UserOptions :=
  mkUserOptions (Some 2%Q) (Some (1 # 2)%Q) None None.

End RateLimiterSpec.

(** ** Output file name (index.js) *)

Module OutputFile.

Import Url.

Section WithPlatform.

Context {P : Platform}.

Definition isNameChar (c : N) : bool :=
  Whatwg.isAlpha c || Whatwg.isDigit c || (c =? 45)%N.

(** [name.replace(/[^a-zA-Z0-9-]/g, '-')] *)
Definition sanitize (name : jsstring) : jsstring :=
  map (fun c => if isNameChar c then c else 45%N) name.

(** [pathname.split('/').filter(Boolean)] *)
Definition pathParts (pathname : jsstring) : list jsstring :=
  filter (fun part => negb (JS.eqb part [])) (Whatwg.splitOn (N.eqb 47) pathname).

(** A whole number in a template literal. *)
Definition printNumber (n : Z) : jsstring :=
  lit (NilEmpty.string_of_int (Z.to_int n)).

(** [generateOutputFilename(url)]; [isoNow] is what
    [new Date().toISOString()] answers and [dateNow] what [Date.now()]
    does. *)
Definition generateOutputFilename (url isoNow : jsstring) (dateNow : Z) : jsstring :=
  match parse url with
  | Some urlObj =>
      let parts := pathParts (pathname urlObj) in
      let cardName := last parts (lit "credit-card") in
      let sanitizedName := sanitize cardName in
      let timestamp := firstn 10 isoNow in
      sanitizedName ++ lit "-" ++ timestamp ++ lit ".json"
  | None => lit "credit-card-data-" ++ printNumber dateNow ++ lit ".json"
  end.

End WithPlatform.

End OutputFile.

(** ** What the further triage properties speak of *)

Module TriageSpec.

Import LinkHandler Aggregator Orchestrator.

(** The sum of all weights of a table of priority patterns. *)
Definition weightSum (patterns : list (re * Z)) : Z :=
  fold_right (fun pw acc => (snd pw + acc)%Z) 0%Z patterns.

Definition noWhiteSpace (s : jsstring) : bool :=
  forallb (fun c => negb (isWhiteSpace c)) s.

(** Two links to one page with different texts, and a PDF. *)
Definition twiceLinked : list RawLink :=
  [ LinkObject (Some (lit "/personal/pay/cards")) (Some (lit "Cards")) None;
    LinkObject (Some (lit "/content/dam/mitc.pdf")) (Some (lit "MITC")) None;
    LinkObject (Some (lit "/personal/pay/cards/")) (Some (lit "All cards")) None ].

(** Whether the fetch that a request stands for answered a document. *)
Definition succeeded (crawlPage : jsstring -> HtmlCrawler.CrawlOutcome)
           (parsePDF : jsstring -> PdfOutcome)
           (request : SourceType * jsstring) : bool :=
  match fst request with
  | html => match crawlPage (snd request) with
            | HtmlCrawler.Crawled _ => true
            | _ => false
            end
  | pdf => match parsePDF (snd request) with
           | PdfText _ => true
           | _ => false
           end
  end.

Definition origin (src : Source) : SourceType * jsstring := (sourceType src, url src).

End TriageSpec.

(** ** Input validation (utils/validation.js) *)

Module Validation.

Import Url.

(** [[0-9a-f]] under the [i] flag *)
Definition hex : re :=
  alts (map Chr (lit "0123456789") ++ map ChrI (lit "abcdef")).

Definition suspiciousPatterns : list re :=
  [ thenLater (W "{{") (W "}}");                         (* /\{\{.*\}\}/ *)
    thenLater (W "%7B%7B") (W "%7D%7D");                 (* /%7B%7B.*%7D%7D/ *)
    WI "javascript:";                                    (* /javascript:/i *)
    WI "data:";                                          (* /data:/i *)
    Alt (Chr 60) (Chr 62);                               (* /[<>]/ *)
    Seq (Chr 92) (Seq (ChrI 120) (Seq hex hex));         (* /\\x[0-9a-f]{2}/i *)
    Seq (Chr 37) (Seq hex hex);                          (* /%[0-9a-f]{2}/i *)
    Seq (W "&#") (Seq (Alt (ChrI 120) Eps)
                      (Seq hex (Seq (Star hex) (Chr 59)))) (* /&#x?[0-9a-f]+;/i *)
  ].

Inductive UrlError : Type :=
| NotAString          (* 'URL must be a non-empty string' *)
| InvalidProtocol     (* 'Invalid protocol. Only HTTP/HTTPS allowed.' *)
| InvalidHostname     (* 'Invalid hostname' *)
| Suspicious          (* 'URL contains suspicious patterns' *)
| TooLong             (* 'URL exceeds maximum length of 2000 characters' *)
| InvalidFormat.      (* 'Invalid URL format: ...' *)

Inductive UrlValidation : Type :=
| Valid (sanitized : jsstring)
| Invalid (error : UrlError).

Definition isValid (v : UrlValidation) : bool :=
  match v with
  | Valid _ => true
  | Invalid _ => false
  end.

Definition isSlash (c : N) : bool := N.eqb c 47.

Fixpoint dropSlashes (s : jsstring) : jsstring :=
  match s with
  | c :: s' => if isSlash c then dropSlashes s' else s
  | [] => []
  end.

(** [s.replace(/\/+$/, '')]: the whole run of slashes at the end goes. *)
Definition stripTrailingSlashes (s : jsstring) : jsstring :=
  rev (dropSlashes (rev s)).

Section WithPlatform.

Context {P : Platform}.

(** [validateUrl(url)] for a string [url]. *)
Definition validateUrl (url : jsstring) : UrlValidation :=
  if JS.eqb url [] then Invalid NotAString
  else
    match parse url with
    | None => Invalid InvalidFormat
    | Some urlObj =>
        if negb (arrayIncludes [lit "http:"; lit "https:"] (protocol urlObj))
        then Invalid InvalidProtocol
        else if JS.eqb (hostname urlObj) [] then Invalid InvalidHostname
        else if existsb (fun pattern => test pattern url) suspiciousPatterns
        then Invalid Suspicious
        else if (2000 <? length url)%nat then Invalid TooLong
        else Valid (stripTrailingSlashes (href urlObj))
    end.

End WithPlatform.

(** [validateHtmlContent(html)] for a string [html]. *)
Definition validateHtmlContent (html : jsstring) : bool :=
  if JS.eqb html [] then false
  else if (length html <? 50)%nat then false
  else if negb (includes html (lit "<")) || negb (includes html (lit ">")) then false
  else true.

End Validation.

(** ** Fetching a page (crawler/htmlCrawler.js, [fetchHTML])

    The network is a parameter: [reply attempt] is what
    [withRateLimit(domain, () => axios.get(url, ...))] answers in the given
    attempt.  A call answers the requests and sleeps it made, in order, next
    to its result. *)

Module Fetch.

Import Url Validation.

(** The two options that steer [fetchHTML]; [None] for a key that the
    caller's options do not have. *)
Record UserOptions : Type := mkUserOptions {
  u_retryAttempts : option Z;
  u_retryDelay : option Z
}.

Record Options : Type := mkOptions {
  retryAttempts : Z;
  retryDelay : Z
}.

(** [new HTMLCrawler(options)]: [{ retryAttempts: options.retryAttempts || 3,
    retryDelay: options.retryDelay || 2000, ..., ...options }].  The spread at
    the end writes every key that the caller gave over its default, so a 0
    that was given stays. *)
Definition newHTMLCrawler (options : UserOptions) : Options :=
  let defaulted :=
    mkOptions (match u_retryAttempts options with
               | Some v => if (v =? 0)%Z then 3%Z else v
               | None => 3%Z
               end)
              (match u_retryDelay options with
               | Some v => if (v =? 0)%Z then 2000%Z else v
               | None => 2000%Z
               end) in
  mkOptions (match u_retryAttempts options with
             | Some v => v
             | None => retryAttempts defaulted
             end)
            (match u_retryDelay options with
             | Some v => v
             | None => retryDelay defaulted
             end).

(** [response.data]: a string, or some other value, of which the code looks
    at the truthiness alone. *)
Inductive Body : Type :=
| Text (s : jsstring)
| Other (truthy : bool).

Inductive Reply : Type :=
| Response (data : Body)        (* a status that [validateStatus] accepts *)
| HttpError (status : Z)        (* an error with [error.response] *)
| Aborted                       (* [error.code === 'ECONNABORTED'] *)
| Failed.                       (* any other error *)

(** What one attempt can throw inside the [try]. *)
Inductive Failure : Type :=
| EmptyResponse                 (* 'Empty response received' *)
| InvalidHtml                   (* 'Invalid HTML content: ...' *)
| Http (status : Z)
| Timeout
| Network.

Inductive Result : Type :=
| Returned (data : jsstring)
| Threw (lastError : option Failure)     (* [None]: [undefined] is thrown *)
| ThrewInvalidUrl (error : UrlError)
| ThrewTypeError.                        (* [new URL(url)] threw *)

Inductive Event : Type :=
| Requested (domain url : jsstring)
| Slept (ms : Z).

(** The [try] block, from the answer of the request on. *)
Definition attemptOnce (r : Reply) : jsstring + Failure :=
  match r with
  | Response (Text s) =>
      if JS.eqb s [] then inr EmptyResponse
      else if validateHtmlContent s then inl s
      else inr InvalidHtml
  | Response (Other truthy) => if truthy then inr InvalidHtml else inr EmptyResponse
  | HttpError status => inr (Http status)
  | Aborted => inr Timeout
  | Failed => inr Network
  end.

Section WithPlatform.

Context {P : Platform}.
Variable options : Options.
Variable reply : Z -> Reply.

(** [error.response?.status === 429] *)
Definition is429 (error : Failure) : bool :=
  match error with
  | Http status => (status =? 429)%Z
  | _ => false
  end.

(** The end of the [catch] block: the pause before the next attempt. *)
Definition pause (attempt : Z) (error : Failure) : list Event :=
  if (attempt <? retryAttempts options)%Z
  then [Slept (if is429 error then retryDelay options * 2 else retryDelay options)%Z]
  else [].

(** The [catch] block: [None] when it throws the error on, else what it
    sleeps before the loop goes on. *)
Definition onError (attempt : Z) (error : Failure) : option (list Event) :=
  match error with
  | Http status =>
      if (status =? 404)%Z then None
      else if (status =? 429)%Z
      then Some (Slept (retryDelay options * 2) :: pause attempt error)
      else if (400 <=? status)%Z && (status <? 500)%Z then None
      else Some (pause attempt error)
  | _ => Some (pause attempt error)
  end.

(** [for (let attempt = 1; attempt <= retryAttempts; attempt++)], entered
    with [rounds] rounds to go. *)
Fixpoint attempts (domain url : jsstring) (rounds : nat) (attempt : Z)
         (lastError : option Failure) : list Event * Result :=
  match rounds with
  | O => ([], Threw lastError)
  | S rounds' =>
      match attemptOnce (reply attempt) with
      | inl data => ([Requested domain url], Returned data)
      | inr error =>
          match onError attempt error with
          | None => ([Requested domain url], Threw (Some error))
          | Some slept =>
              let (trace, result) :=
                attempts domain url rounds' (attempt + 1) (Some error) in
              (Requested domain url :: slept ++ trace, result)
          end
      end
  end.

(** [fetchHTML(url)] *)
Definition fetchHTML (url : jsstring) : list Event * Result :=
  match validateUrl url with
  | Invalid error => ([], ThrewInvalidUrl error)
  | Valid _ =>
      match parse url with
      | None => ([], ThrewTypeError)
      | Some urlObj =>
          attempts (hostname urlObj) url (Z.to_nat (retryAttempts options)) 1 None
      end
  end.

End WithPlatform.

End Fetch.

(** ** Vocabulary of the fetch properties *)

Module FetchSpec.

Import Fetch.

(** A hexadecimal digit in either case. *)
Definition isHexDigit (c : N) : bool :=
  ((48 <=? c) && (c <=? 57) || (97 <=? c) && (c <=? 102)
   || (65 <=? c) && (c <=? 70))%N.

(** How many requests a trace holds, and how long it slept in all. *)
Definition requests (trace : list Event) : nat :=
  length (filter (fun e => match e with Requested _ _ => true | Slept _ => false end)
                 trace).

Definition slept (trace : list Event) : Z :=
  fold_right (fun e total => match e with Slept ms => ms + total | Requested _ _ => total end)%Z
             0%Z trace.

(** A client error other than 429. *)
Definition clientError (status : Z) : bool :=
  (400 <=? status)%Z && (status <? 500)%Z && negb (status =? 429)%Z.

(** A reply after which the loop goes on if it has a round left: anything
    but a page that passes and a client error. *)
Definition retried (r : Reply) : bool :=
  match attemptOnce r with
  | inl _ => false
  | inr (Http status) => negb (clientError status)
  | inr _ => true
  end.

(** What a call ends with when [r] is the last reply it saw. *)
Definition outcome (r : Reply) : Result :=
  match attemptOnce r with
  | inl data => Returned data
  | inr error => Threw (Some error)
  end.

Definition defaults : Options := newHTMLCrawler (mkUserOptions None None).

End FetchSpec.

(** ** Text cleaning (crawler/pdfParser.js [cleanExtractedText],
       crawler/htmlCrawler.js [cleanText]) *)

Module TextCleaning.











End TextCleaning.

(** ** The aggregator's [cleanData] (aggregator/cardDataAggregator.js) *)

Module AggregatorCleaning.

Import Obj Aggregator.

(** [array.indexOf(item)] counted from [i]; [None] for -1. *)
Fixpoint indexOfFrom (i : nat) (array : list jsstring) (item : jsstring) : option nat :=
  match array with
  | [] => None
  | x :: array' => if JS.eqb x item then Some i else indexOfFrom (S i) array' item
  end.

Definition indexOf (array : list jsstring) (item : jsstring) : option nat :=
  indexOfFrom 0 array item.

(** [array.filter((item, index, array) => array.indexOf(item) === index)] *)
Definition firstOccurrences (array : list jsstring) : list jsstring :=
  map snd
      (filter (fun entry =>
                 match indexOf array (snd entry) with
                 | Some j => Nat.eqb j (fst entry)
                 | None => false
                 end)
              (combine (seq 0 (length array)) array)).

(** [[...new Set(arr)]] *)
Definition setOf (arr : list jsstring) : list jsstring :=
  fold_left (fun seen x => if arrayIncludes seen x then seen else seen ++ [x]) arr [].

(** One round of the first [forEach] of [cleanData]. *)
Definition cleanArray (cd : Obj.t) (field : jsstring) : Obj.t :=
  match get cd field with
  | VArr items =>
      set cd field (VArr (firstOccurrences (map trim (filter nonBlank items))))
  | _ => cd
  end.

(** One round of the second [forEach]. *)
Definition cleanString (cd : Obj.t) (field : jsstring) : Obj.t :=
  match get cd field with
  | VStr s => if JS.eqb s [] then cd else set cd field (VStr (trim s))
  | _ => cd
  end.

(** The last statement: [links.pdfs] is read off an object alone; a string
    and an array have no such property. *)
Definition cleanPdfLinks (cd : Obj.t) : Obj.t :=
  match get cd (lit "links") with
  | VObj links =>
      match get links (lit "pdfs") with
      | VArr pdfs =>
          set cd (lit "links") (VObj (set links (lit "pdfs") (VArr (setOf pdfs))))
      | _ => cd
      end
  | _ => cd
  end.

(** [cleanData()] *)
Definition cleanData (a : CardDataAggregator) : CardDataAggregator :=
  mkAggregator
    (cleanPdfLinks
       (fold_left cleanString stringFields
                  (fold_left cleanArray arrayFields (cardData a))))
    (sources a).

End AggregatorCleaning.

(** ** Vocabulary of the cleaning properties *)

Module CleaningSpec.

Import Obj Aggregator TextCleaning AggregatorCleaning.

(** What [cleanData] makes of the value of an array field. *)
Definition cleanedArray (v : Value) : Value :=
  match v with
  | VArr items => VArr (firstOccurrences (map trim (filter nonBlank items)))
  | _ => v
  end.

(** A scalar in trimmed form. *)
Definition trimmed (v : Value) : Value :=
  match v with
  | VStr s => VStr (trim s)
  | _ => v
  end.

(** An array in this place has no entry twice. *)
Definition pdfsAreDistinct (v : Value) : Prop :=
  forall pdfs, v = VArr pdfs -> NoDup pdfs.

(** [links] is an object whose [pdfs], where it is an array, has no entry
    twice. *)
Definition linksAreClean (cd : Obj.t) : Prop :=
  exists links,
    get cd (lit "links") = VObj links /\ pdfsAreDistinct (get links (lit "pdfs")).


End CleaningSpec.

(** ** URLs that normalization leaves as they are

    The shape of a URL in the form in which [normalizeUrl] answers it,
    described on the string itself, part by part. *)

Module CanonicalForm.

Import Whatwg LinkHandler WhatwgSpec.

(** [s] holds the word [w]. *)
Definition holds (s : jsstring) (w : string) : bool := includes s (lit w).
Arguments holds s w%_string.

(** [s] holds the word [w] in some mix of upper and lower case. *)
Definition holdsAnyCase (s : jsstring) (w : string) : bool :=
  includes (asciiLowerCase s) (asciiLowerCase (lit w)).
Arguments holdsAnyCase s w%_string.

(** The misspellings and doubled escapes that cleaning rewrites, and the
    template markers it refuses. *)
Definition rewrittenWords : list string :=
  [ "CCredit"; "Carrds"; "Creditt"; "CCard"; "Supeer"; "Preemium";
    "immediiate"; "nationnal"; "remitnnow"; "ttime"; "Cardds"; "Creddit";
    "ppay"; "donattions"; "%%20"; "%20%20";
    "{{"; "}}"; "%7B%7B"; "%7D%7D" ]%string.

(** The misspellings that validation refuses, whatever their case. *)
Definition refusedWords : list string :=
  [ "creddit"; "cardds"; "traansfer"; "milllennia"; "commmercial";
    "busiiness"; "ccredit"; "uusers"; "immediiate"; "nationnal";
    "remitnnow"; "ttime"; "ppay"; "donattions" ]%string.

Definition freeOfWords (s : jsstring) : bool :=
  forallb (fun w => negb (holds s w)) rewrittenWords
  && forallb (fun w => negb (holdsAnyCase s w)) refusedWords.

(** No slash stands behind a slash, but for the second of the two that
    follow a colon. *)
Fixpoint noSlashRun (s : jsstring) : bool :=
  match s with
  | [] => true
  | c :: rest =>
      match rest with
      | c1 :: c2 :: _ =>
          negb ((c1 =? 47)%N && (c2 =? 47)%N && negb (c =? 58)%N)
      | _ => true
      end
      && noSlashRun rest
  end.

Definition portPart (port : option jsstring) : jsstring :=
  match port with
  | Some digits => 58%N :: digits
  | None => []
  end.

Definition queryPart (query : option jsstring) : jsstring :=
  match query with
  | Some q => 63%N :: q
  | None => []
  end.

(** scheme [://] host [:port] path [?query] *)
Definition assemble (sch h : jsstring) (port : option jsstring) (p : jsstring)
           (query : option jsstring) : jsstring :=
  sch ++ lit "://" ++ h ++ portPart port ++ p ++ queryPart query.

(** A port written as the decimal numeral of a number up to 65535 that is
    not the scheme's default. *)
Definition canonicalPort (sch : jsstring) (port : option jsstring) : bool :=
  match port with
  | None => true
  | Some digits =>
      negb (JS.eqb digits []) && forallb isDigit digits
      && JS.eqb (printPort (decimal 0 digits)) digits
      && (decimal 0 digits <=? 65535)%N
      && negb (decimal 0 digits =? defaultPort sch)%N
  end.

(** A code unit that stands for itself in a query. *)
Definition plainQueryChar (c : N) : bool :=
  niceChar c && negb (inSpecialQuerySet c).

Definition canonicalQuery (query : option jsstring) : bool :=
  match query with
  | None => true
  | Some q => forallb plainQueryChar q
  end.

(** A path that the path parser answers as it is: empty, or a slash
    followed by segments free of dots-only names and of escapes to add. *)
Definition plainPath (p : jsstring) : bool :=
  match p with
  | [] => true
  | c :: body =>
      (c =? 47)%N && forallb plainPathChar body
      && forallb notDotSegment (splitOn isSlash body)
  end.

(** The parts of a URL in serialized form: [http] or [https] in lower case,
    a lower-case domain, a port other than the default or none, a plain
    path that does not begin with the host's name and is not empty in front
    of a query, and a query of plain code units or none. *)
Definition canonicalParts (sch h : jsstring) (port : option jsstring)
           (p : jsstring) (query : option jsstring) : bool :=
  isHttp sch && canonicalHost h && canonicalPort sch port && plainPath p
  && canonicalQuery query
  && match query with
     | Some _ => negb (JS.eqb p [])
     | None => true
     end
  && negb (startsWith p (lit "/" ++ h ++ lit "/")).

(** A canonical URL that cleaning and validation find nothing in: none of
    the words, no run of slashes, no closing slash, at most 2000 code
    units. *)
Definition canonicalUrl (sch h : jsstring) (port : option jsstring)
           (p : jsstring) (query : option jsstring) : bool :=
  canonicalParts sch h port p query
  && freeOfWords (assemble sch h port p query)
  && noSlashRun (assemble sch h port p query)
  && negb (endsWith (assemble sch h port p query) [47%N])
  && (length (assemble sch h port p query) <=? 2000)%nat.

End CanonicalForm.

(* ===================================================================== *)
(** * Part II: properties                                                  *)
(* ===================================================================== *)

(** ** Strings *)

Module JSFacts.

Lemma eqb_refl (a : jsstring) : JS.eqb a a = true.
Proof.
  induction a as [|x a IH]; simpl; [reflexivity|].
  now rewrite N.eqb_refl, IH.
Qed.

Lemma eqb_eq (a b : jsstring) : JS.eqb a b = true <-> a = b.
Proof.
  split.
  - revert b; induction a as [|x a IH]; intros [|y b]; simpl; try discriminate.
    + reflexivity.
    + intros H. apply andb_true_iff in H as [Hx Hab].
      apply N.eqb_eq in Hx. apply IH in Hab. now subst.
  - intros ->. apply eqb_refl.
Qed.

Lemma eqb_neq (a b : jsstring) : JS.eqb a b = false <-> a <> b.
Proof.
  split.
  - intros H E. apply eqb_eq in E. congruence.
  - intros H. destruct (JS.eqb a b) eqn:E; [|reflexivity].
    apply eqb_eq in E. contradiction.
Qed.

Lemma eqb_sym (a b : jsstring) : JS.eqb a b = JS.eqb b a.
Proof.
  destruct (JS.eqb a b) eqn:E.
  - apply eqb_eq in E. subst. symmetry. apply eqb_refl.
  - symmetry. apply eqb_neq. apply eqb_neq in E. congruence.
Qed.

Lemma arrayIncludes_In (arr : list jsstring) (x : jsstring) :
  arrayIncludes arr x = true <-> In x arr.
Proof.
  unfold arrayIncludes. rewrite existsb_exists. split.
  - intros [y [Hy E]]. apply eqb_eq in E. now subst.
  - intros H. exists x. split; [assumption | apply eqb_refl].
Qed.



End JSFacts.

(** ** Retry policy *)

Module ErrorHandlerFacts.

Import ErrorHandler.

(** Once the attempt count has reached [maxAttempts] nothing is retried,
    whatever the error. *)
Lemma shouldRetry_exhausted (e : JsError) (attempt maxAttempts : Z) :
  (maxAttempts <= attempt)%Z -> shouldRetry e attempt maxAttempts = false.
Proof.
  intros H. unfold shouldRetry.
  destruct (Z.geb_spec attempt maxAttempts); [reflexivity | lia].
Qed.

(** A rate-limited request is retried exactly while [attempt < maxAttempts]:
    the test against [maxAttempts + 2] never decides. *)
Lemma shouldRetry_rate_limit (e : JsError) (attempt maxAttempts : Z) :
  categorizeError e = RATE_LIMIT ->
  shouldRetry e attempt maxAttempts = (attempt <? maxAttempts)%Z.
Proof.
  intros H. unfold shouldRetry. rewrite H. simpl.
  destruct (Z.geb_spec attempt maxAttempts) as [G|G];
    destruct (Z.ltb_spec attempt maxAttempts) as [L|L]; try lia; try reflexivity.
Qed.

Lemma shouldRetry_not_found (e : JsError) (attempt maxAttempts : Z) :
  categorizeError e = NOT_FOUND -> shouldRetry e attempt maxAttempts = false.
Proof.
  intros H. unfold shouldRetry. rewrite H. simpl.
  now destruct (attempt >=? maxAttempts)%Z.
Qed.

Lemma shouldRetry_server_error (e : JsError) (attempt maxAttempts : Z) :
  categorizeError e = SERVER_ERROR ->
  shouldRetry e attempt maxAttempts = (attempt <? maxAttempts)%Z.
Proof.
  intros H. unfold shouldRetry. rewrite H. simpl.
  destruct (Z.geb_spec attempt maxAttempts) as [G|G];
    destruct (Z.ltb_spec attempt maxAttempts) as [L|L]; try lia; reflexivity.
Qed.

(** C1. Of the three cases of the retry policy the first two hold: a 404
    ([NOT_FOUND]) at attempt 1 of 3 is not retried and a 500
    ([SERVER_ERROR]) at attempt 2 of 3 is.  The third does not: a 429 is
    classified [RATE_LIMIT], yet [shouldRetry] at attempt 4 of 3 answers
    [false], because the test [attempt >= maxAttempts] returns before the
    extended budget [attempt < maxAttempts + 2] is looked at. *)
Theorem retry_policy_cases :
  categorizeError (httpError 404) = NOT_FOUND
  /\ shouldRetry (httpError 404) 1 3 = false
  /\ categorizeError (httpError 500) = SERVER_ERROR
  /\ shouldRetry (httpError 500) 2 3 = true
  /\ categorizeError (httpError 429) = RATE_LIMIT
  /\ shouldRetry (httpError 429) 4 3 = false
  /\ shouldRetry (httpError 429) 3 3 = false.
Proof. repeat split; reflexivity. Qed.

End ErrorHandlerFacts.

(** ** Rate limiter *)

Module RateLimiterFacts.

Import RateLimiter RateLimiterCases.

Lemma timerDuration_pos (ms : Q) : (1 <= timerDuration ms)%Z.
Proof.
  unfold timerDuration.
  destruct (Z.ltb_spec (Qnum ms / Z.pos (Qden ms)) 1); simpl; [lia|].
  destruct (Z.ltb_spec 2147483647 (Qnum ms / Z.pos (Qden ms))); lia.
Qed.

(** The token loop never goes back in time. *)
Lemma takeLoop_later (fuel : nat) (o : Options) (b b' : TokenBucket) (now now' : Z) :
  takeLoop fuel o b now = Some (b', now') -> (now <= now')%Z.
Proof.
  revert b now. induction fuel as [|fuel IH]; intros b now; simpl; [discriminate|].
  destruct (tryTake b now) as [taken b1].
  destruct taken.
  - intros H. injection H as _ <-. lia.
  - destruct (getWaitTime b1 now) as [w b2]. intros H. apply IH in H.
    pose proof (timerDuration_pos (Qmin w (maxDelayMs o))). lia.
Qed.

Lemma spacingDelay_nonneg (o : Options) (lastRequest now : Z) :
  (0 <= spacingDelay o lastRequest now)%Z.
Proof.
  unfold spacingDelay. destruct (Qlt_le_dec _ _); [|lia].
  pose proof (timerDuration_pos (minDelayMs o - inject_Z (now - lastRequest))). lia.
Qed.

(** The minimum spacing comes first: a call made less than [minDelayMs]
    after the domain's last request completes no sooner than the spacing
    allows, however many tokens the bucket holds. *)
Lemma spacing_precedes_tokens (fuel : nat) (l l' : DomainRateLimiter)
      (d : jsstring) (lastRequest now now' : Z) :
  JsMap.get (lastRequestTime l) d = Some lastRequest ->
  waitForRateLimit fuel l d now = Some (l', now') ->
  (now + spacingDelay (options l) lastRequest now <= now')%Z.
Proof.
  intros Hlast. unfold waitForRateLimit, getLimiter.
  destruct (JsMap.get (limiters l) d) as [b|]; simpl; rewrite Hlast;
    match goal with
    | |- context [takeLoop ?f ?o ?b ?n] =>
        destruct (takeLoop f o b n) as [[b' n']|] eqn:E; [|discriminate]
    end;
    intros H; injection H as _ <-; now apply takeLoop_later in E.
Qed.

(** A fresh bucket of rate 2 and burst 5 by itself: five takes at one
    instant succeed, the sixth fails and is told to wait 500 ms. *)
Lemma bucket_alone :
  let b0 := newTokenBucket 2 1000 (Some 5%Q) t0 in
  let take b := snd (tryTake b t0) in
  let b5 := take (take (take (take (take b0)))) in
  map (fun b => fst (tryTake b t0))
      [b0; take b0; take (take b0); take (take (take b0));
       take (take (take (take b0))); b5]
  = [true; true; true; true; true; false]
  /\ fst (getWaitTime b5 t0) = 500%Q.
Proof. vm_compute. split; reflexivity. Qed.



End RateLimiterFacts.

(** ** Relevance filter *)

Module HtmlCrawlerFacts.

Import HtmlCrawler.

Section WithPlatform.

Context {P : Url.Platform}.
Variable toLowerCase : jsstring -> jsstring.
Variable fetchHTML : jsstring -> option jsstring.
Variable extractFullText : jsstring -> jsstring.
Variable extractLinks : jsstring -> jsstring -> list LinkHandler.RawLink.

(** C10. Whatever the text, the URL and the platform's [toLowerCase], the
    relevance score is an integer that is never negative: it is the raw sum
    of bonuses and penalties clamped at zero. *)
Theorem relevance_score_nonnegative (fullText url : jsstring) :
  (0 <= calculateContentRelevance toLowerCase fullText url)%Z
  /\ calculateContentRelevance toLowerCase fullText url
     = Z.max 0 (rawRelevance toLowerCase fullText url).
Proof. unfold calculateContentRelevance. split; [lia | reflexivity]. Qed.

(** The gate of [crawlPage] compares that clamped score with 3: a page that
    was fetched is rejected exactly when it scores below. *)
Lemma crawlPage_gate (url html : jsstring) :
  validateCrawlUrl url = true ->
  let normalizedUrl :=
    match LinkHandler.normalizeUrl url with
    | Some n => if JS.eqb n [] then url else n
    | None => url
    end in
  fetchHTML normalizedUrl = Some html ->
  html <> [] ->
  let score := calculateContentRelevance toLowerCase (extractFullText html) normalizedUrl in
  (0 <= score)%Z
  /\ (crawlPage toLowerCase fetchHTML extractFullText extractLinks url = Rejected
      <-> (score < 3)%Z).
Proof.
  intros Hvalid normalizedUrl Hfetch Hhtml score.
  split; [unfold score, calculateContentRelevance; lia|].
  unfold crawlPage. rewrite Hvalid. simpl. fold normalizedUrl. rewrite Hfetch.
  apply JSFacts.eqb_neq in Hhtml. rewrite Hhtml. fold score.
  destruct (Z.ltb_spec score 3); split; intros H'; try reflexivity;
    try discriminate; lia.
Qed.

End WithPlatform.

(** Off-topic penalties can drive the raw sum below zero; the score stays
    at zero. *)
Example penalties_are_clamped :
  rawRelevance asciiLowerCase (lit "UPI and forex") (lit "https://www.hdfcbank.com/x") = (-6)%Z
  /\ calculateContentRelevance asciiLowerCase (lit "UPI and forex")
       (lit "https://www.hdfcbank.com/x") = 0%Z.
Proof. split; reflexivity. Qed.

End HtmlCrawlerFacts.

(** ** Objects and maps *)

Module ObjFacts.

Import Obj.

Lemma get_set_same (o : Obj.t) (k : jsstring) (v : Value) :
  get (set o k v) k = v.
Proof.
  unfold get, set. induction o as [|[k' v'] o IH]; simpl.
  - now rewrite JSFacts.eqb_refl.
  - destruct (JS.eqb k' k) eqn:E; simpl; rewrite E; [reflexivity | exact IH].
Qed.

Lemma get_set_other (o : Obj.t) (k k' : jsstring) (v : Value) :
  k <> k' -> get (set o k v) k' = get o k'.
Proof.
  intros Hne. unfold get, set. induction o as [|[k0 v0] o IH]; simpl.
  - apply JSFacts.eqb_neq in Hne. now rewrite Hne.
  - destruct (JS.eqb k0 k) eqn:E; simpl.
    + apply JSFacts.eqb_eq in E. subst k0.
      apply JSFacts.eqb_neq in Hne. now rewrite Hne.
    + destruct (JS.eqb k0 k'); [reflexivity | exact IH].
Qed.

Lemma get_set (o : Obj.t) (k k' : jsstring) (v : Value) :
  get (set o k v) k' = if JS.eqb k k' then v else get o k'.
Proof.
  destruct (JS.eqb k k') eqn:E.
  - apply JSFacts.eqb_eq in E. subst. apply get_set_same.
  - apply JSFacts.eqb_neq in E. now apply get_set_other.
Qed.

(** Writing a key leaves the list of keys as it is when the key is there,
    and puts it last when it is new. *)
Lemma keys_set (o : Obj.t) (k : jsstring) (v : Value) :
  keys (set o k v) = if arrayIncludes (keys o) k then keys o else keys o ++ [k].
Proof.
  unfold keys, set, arrayIncludes. induction o as [|[k' v'] o IH]; simpl.
  - reflexivity.
  - rewrite (JSFacts.eqb_sym k k').
    destruct (JS.eqb k' k) eqn:E; simpl; [reflexivity|].
    rewrite IH. now destruct (existsb (JS.eqb k) (map fst o)).
Qed.

End ObjFacts.

(** ** Aggregator *)

Module AggregatorFacts.

Import Obj Aggregator AggregatorSpec ObjFacts.

(** *** One field at a time *)

Lemma mergeString_get (src cd : Obj.t) (g f : jsstring) :
  get (mergeString src cd g) f
  = if JS.eqb g f then keepFirst (get cd f) (get src f) else get cd f.
Proof.
  unfold mergeString, keepFirst.
  destruct (JS.eqb g f) eqn:E.
  - apply JSFacts.eqb_eq in E. subst g.
    destruct (truthy (get src f)); simpl; [|reflexivity].
    destruct (truthy (get cd f)); simpl; [reflexivity|].
    apply get_set_same.
  - apply JSFacts.eqb_neq in E.
    destruct (truthy (get src g)); [|reflexivity].
    destruct (truthy (get cd g)); simpl; [reflexivity|].
    now apply get_set_other.
Qed.

Lemma mergeStrings_get (src : Obj.t) (fields : list jsstring) :
  NoDup fields ->
  forall (cd : Obj.t) (f : jsstring),
    get (fold_left (mergeString src) fields cd) f
    = if arrayIncludes fields f then keepFirst (get cd f) (get src f) else get cd f.
Proof.
  induction 1 as [|g fields Hg Hnd IH]; intros cd f; simpl; [reflexivity|].
  rewrite IH, !mergeString_get. unfold arrayIncludes in *. simpl.
  rewrite (JSFacts.eqb_sym f g).
  destruct (JS.eqb g f) eqn:E; simpl; [|reflexivity].
  apply JSFacts.eqb_eq in E. subst g.
  destruct (existsb (JS.eqb f) fields) eqn:Ef; [|reflexivity].
  exfalso. apply Hg. now apply JSFacts.arrayIncludes_In.
Qed.

(** A loop whose rounds write their own field only leaves every other
    field alone, whether or not it runs to its end. *)
Lemma foldRes_other (step : Obj.t -> jsstring -> Obj.t * bool) (f : jsstring) :
  (forall cd g, g <> f -> get (fst (step cd g)) f = get cd f) ->
  forall fields cd, ~ In f fields ->
    get (fst (foldRes step fields cd)) f = get cd f.
Proof.
  intros Hstep. induction fields as [|g fields IH]; intros cd Hf; simpl; [reflexivity|].
  assert (Hg : g <> f) by (intros ->; apply Hf; now left).
  specialize (Hstep cd g Hg).
  destruct (step cd g) as [cd' ok]. simpl in Hstep.
  destruct ok; simpl; [|exact Hstep].
  rewrite IH; [exact Hstep|]. intros Hin. apply Hf. now right.
Qed.

Lemma mergeArray_other (src cd : Obj.t) (g f : jsstring) :
  g <> f -> get (fst (mergeArray src cd g)) f = get cd f.
Proof.
  intros Hne. unfold mergeArray.
  destruct (get src g) as [| |s|[|i items]|o]; try reflexivity.
  destruct (mergeInto (get cd g) (i :: items)) as [v ok]. simpl.
  now apply get_set_other.
Qed.

Lemma mergeObjectField_other (cd : Obj.t) (g f : jsstring) (sv : Value) :
  g <> f -> get (fst (mergeObjectField cd g sv)) f = get cd f.
Proof.
  intros Hne. unfold mergeObjectField.
  destruct sv; try reflexivity;
    destruct (get cd g) as [| |s|items'|target]; try reflexivity;
    try (destruct (JS.eqb s []); [|reflexivity]);
    match goal with
    | |- context [foldRes mergeKey ?e ?t] =>
        destruct (foldRes mergeKey e t) as [target' ok]
    end; simpl; now apply get_set_other.
Qed.

(** On a slot that holds an array the items are pushed and nothing throws. *)
Lemma mergeArray_on_array (src cd : Obj.t) (f : jsstring) (acc : list jsstring) :
  get cd f = VArr acc ->
  snd (mergeArray src cd f) = true
  /\ get (fst (mergeArray src cd f)) f
     = VArr (pushItems acc (match get src f with VArr items => items | _ => [] end)).
Proof.
  intros Hcd. unfold mergeArray.
  destruct (get src f) as [| |s|[|i items]|o]; simpl; try (split; [reflexivity | exact Hcd]).
  rewrite Hcd. simpl. split; [reflexivity | apply get_set_same].
Qed.

Lemma mergeArrays_get (src : Obj.t) (fields : list jsstring) :
  NoDup fields ->
  forall (cd : Obj.t),
    arraysInPlace fields cd ->
    snd (foldRes (mergeArray src) fields cd) = true
    /\ forall f acc, In f fields -> get cd f = VArr acc ->
         get (fst (foldRes (mergeArray src) fields cd)) f
         = VArr (pushItems acc (match get src f with VArr items => items | _ => [] end)).
Proof.
  induction 1 as [|g fields Hg Hnd IH]; intros cd Hinv; simpl.
  - split; [reflexivity | intros f acc []].
  - destruct (Hinv g (or_introl eq_refl)) as [accg Hcdg].
    destruct (mergeArray_on_array src cd g Hcdg) as [Hok Hget].
    destruct (mergeArray src cd g) as [cd' ok] eqn:Estep. simpl in Hok, Hget.
    subst ok.
    assert (Hother : forall f, g <> f -> get cd' f = get cd f).
    { intros f Hne. pose proof (mergeArray_other src cd Hne) as H'.
      now rewrite Estep in H'. }
    assert (Hinv' : arraysInPlace fields cd').
    { intros f Hf. destruct (Hinv f (or_intror Hf)) as [acc Hacc].
      exists acc. rewrite Hother; [exact Hacc|]. intros ->. contradiction. }
    destruct (IH cd' Hinv') as [Hok' Hget'].
    split; [exact Hok'|].
    intros f acc [->|Hf] Hacc.
    + rewrite foldRes_other; [|intros; now apply mergeArray_other|exact Hg].
      rewrite Hget. congruence.
    + assert (Hne : g <> f) by (intros ->; contradiction).
      apply Hget'; [exact Hf|]. now rewrite Hother.
Qed.

(** *** One source *)

Ltac distinct_names :=
  vm_compute; repeat constructor; simpl; intuition discriminate.

Lemma stringFields_NoDup : NoDup stringFields.
Proof. distinct_names. Qed.

Lemma arrayFields_NoDup : NoDup arrayFields.
Proof. distinct_names. Qed.

(** The three groups of fields share no name. *)
Lemma groups_disjoint (f : jsstring) :
  (arrayIncludes stringFields f = true ->
   arrayIncludes arrayFields f = false /\ arrayIncludes objectFields f = false)
  /\ (arrayIncludes arrayFields f = true ->
      arrayIncludes stringFields f = false /\ arrayIncludes objectFields f = false).
Proof.
  split; intros H; apply JSFacts.arrayIncludes_In in H; simpl in H;
    repeat (destruct H as [<-|H]; [split; reflexivity|]); contradiction.
Qed.

Lemma not_included (fields : list jsstring) (f : jsstring) :
  arrayIncludes fields f = false -> ~ In f fields.
Proof.
  intros H Hin. apply JSFacts.arrayIncludes_In in Hin. congruence.
Qed.

Lemma mergeObjects_other (src cd : Obj.t) (f : jsstring) :
  ~ In f objectFields -> get (fst (mergeObjects src cd)) f = get cd f.
Proof.
  intros Hf. unfold mergeObjects.
  apply (foldRes_other (fun c field => mergeObjectField c field (get src field)));
    [|exact Hf].
  intros c g Hne. now apply mergeObjectField_other.
Qed.

(** What [mergeData] leaves in a field that is not an object field, from
    what the two loops in front left there. *)
Lemma mergeData_get (cd src : Obj.t) (f : jsstring) :
  ~ In f objectFields ->
  get (fst (mergeData cd src)) f
  = get (fst (foldRes (mergeArray src) arrayFields
                      (fold_left (mergeString src) stringFields cd))) f.
Proof.
  intros Hf. unfold mergeData.
  destruct (foldRes (mergeArray src) arrayFields _) as [cd2 ok]. simpl.
  destruct ok; [|reflexivity].
  now apply mergeObjects_other.
Qed.

Lemma mergeData_string (cd src : Obj.t) (f : jsstring) :
  In f stringFields ->
  get (fst (mergeData cd src)) f = keepFirst (get cd f) (get src f).
Proof.
  intros Hf. apply JSFacts.arrayIncludes_In in Hf.
  destruct (proj1 (groups_disjoint f) Hf) as [Harr Hobj].
  rewrite mergeData_get by now apply not_included.
  rewrite foldRes_other;
    [|intros; now apply mergeArray_other|now apply not_included].
  rewrite (mergeStrings_get src stringFields_NoDup). now rewrite Hf.
Qed.

(** A field outside the three groups is never written. *)
Lemma mergeData_untouched (cd src : Obj.t) (f : jsstring) :
  arrayIncludes (stringFields ++ arrayFields ++ objectFields) f = false ->
  get (fst (mergeData cd src)) f = get cd f.
Proof.
  unfold arrayIncludes. rewrite !existsb_app. intros H.
  apply orb_false_iff in H as [Hs H]. apply orb_false_iff in H as [Ha Ho].
  rewrite mergeData_get by now apply not_included.
  rewrite foldRes_other;
    [|intros; now apply mergeArray_other|now apply not_included].
  rewrite (mergeStrings_get src stringFields_NoDup).
  unfold arrayIncludes. now rewrite Hs.
Qed.

Lemma mergeStrings_keep_arrays (src cd : Obj.t) :
  arraysInPlace arrayFields cd ->
  arraysInPlace arrayFields (fold_left (mergeString src) stringFields cd)
  /\ forall f, In f arrayFields ->
       get (fold_left (mergeString src) stringFields cd) f = get cd f.
Proof.
  intros Hinv.
  assert (Hsame : forall f, In f arrayFields ->
            get (fold_left (mergeString src) stringFields cd) f = get cd f).
  { intros f Hf. apply JSFacts.arrayIncludes_In in Hf.
    destruct (proj2 (groups_disjoint f) Hf) as [Hs _].
    rewrite (mergeStrings_get src stringFields_NoDup). now rewrite Hs. }
  split; [|exact Hsame].
  intros f Hf. destruct (Hinv f Hf) as [acc Hacc]. exists acc.
  now rewrite Hsame.
Qed.

Lemma mergeData_array (cd src : Obj.t) (f : jsstring) (acc : list jsstring) :
  arraysInPlace arrayFields cd ->
  In f arrayFields ->
  get cd f = VArr acc ->
  get (fst (mergeData cd src)) f
  = VArr (pushItems acc (match get src f with VArr items => items | _ => [] end)).
Proof.
  intros Hinv Hf Hacc.
  pose proof Hf as Hf'. apply JSFacts.arrayIncludes_In in Hf'.
  destruct (proj2 (groups_disjoint f) Hf') as [_ Hobj].
  rewrite mergeData_get by now apply not_included.
  destruct (mergeStrings_keep_arrays src Hinv) as [Hinv1 Hsame].
  destruct (mergeArrays_get src arrayFields_NoDup Hinv1) as [_ Hget].
  apply Hget; [exact Hf|]. now rewrite Hsame.
Qed.

Lemma mergeData_keeps_arrays (cd src : Obj.t) :
  arraysInPlace arrayFields cd ->
  arraysInPlace arrayFields (fst (mergeData cd src)).
Proof.
  intros Hinv f Hf. destruct (Hinv f Hf) as [acc Hacc].
  eexists. apply mergeData_array; eassumption.
Qed.

(** *** A run of sources *)

Lemma cardData_addSourceData (a : CardDataAggregator) (src : Source) :
  cardData (fst (addSourceData a src)) = fst (mergeData (cardData a) (data src)).
Proof.
  unfold addSourceData. now destruct (mergeData (cardData a) (data src)).
Qed.

Lemma keepFirst_run (vs : list Value) (current : Value) :
  fold_left keepFirst vs current
  = if truthy current then current
    else match find truthy vs with
         | Some v => v
         | None => current
         end.
Proof.
  revert current. induction vs as [|v vs IH]; intros current; simpl.
  - now destruct (truthy current).
  - rewrite IH. unfold keepFirst.
    destruct (truthy current) eqn:Ec; destruct (truthy v) eqn:Ev; simpl;
      rewrite ?Ec, ?Ev; reflexivity.
Qed.

Lemma addSources_string (srcs : list Source) (a : CardDataAggregator) (f : jsstring) :
  In f stringFields ->
  get (cardData (addSources a srcs)) f
  = fold_left keepFirst (offered f srcs) (get (cardData a) f).
Proof.
  intros Hf. revert a. unfold addSources.
  induction srcs as [|src srcs IH]; intros a; simpl; [reflexivity|].
  rewrite IH, cardData_addSourceData. now rewrite mergeData_string.
Qed.

Lemma addSources_untouched (srcs : list Source) (a : CardDataAggregator) (f : jsstring) :
  arrayIncludes (stringFields ++ arrayFields ++ objectFields) f = false ->
  get (cardData (addSources a srcs)) f = get (cardData a) f.
Proof.
  intros Hf. revert a. unfold addSources.
  induction srcs as [|src srcs IH]; intros a; simpl; [reflexivity|].
  rewrite IH, cardData_addSourceData. now apply mergeData_untouched.
Qed.

Lemma addSources_array (srcs : list Source) (a : CardDataAggregator)
      (f : jsstring) (acc : list jsstring) :
  arraysInPlace arrayFields (cardData a) ->
  In f arrayFields ->
  get (cardData a) f = VArr acc ->
  get (cardData (addSources a srcs)) f
  = VArr (pushItems acc (flat_map (entries f) srcs)).
Proof.
  intros Hinv Hf. revert a acc Hinv. unfold addSources.
  induction srcs as [|src srcs IH]; intros a acc Hinv Hacc; simpl; [exact Hacc|].
  unfold pushItems. rewrite fold_left_app. fold (pushItems acc (entries f src)).
  apply IH.
  - rewrite cardData_addSourceData. now apply mergeData_keeps_arrays.
  - rewrite cardData_addSourceData. now apply mergeData_array.
Qed.

(** *** Pushing items and first-seen order *)

Lemma firstSeen_ext (l : list jsstring) :
  forall seen seen',
    (forall x, arrayIncludes seen x = arrayIncludes seen' x) ->
    firstSeen seen l = firstSeen seen' l.
Proof.
  induction l as [|x l IH]; intros seen seen' Hext; simpl; [reflexivity|].
  rewrite <- Hext. destruct (arrayIncludes seen x); [now apply IH|].
  f_equal. apply IH. intros y. unfold arrayIncludes in *. simpl.
  now rewrite Hext.
Qed.

Lemma pushItems_firstSeen (items acc : list jsstring) :
  pushItems acc items = acc ++ firstSeen acc (map trim (filter nonBlank items)).
Proof.
  revert acc. unfold pushItems.
  induction items as [|item items IH]; intros acc; simpl; [now rewrite app_nil_r|].
  rewrite IH. unfold pushItem.
  destruct (nonBlank item); simpl; [|reflexivity].
  destruct (arrayIncludes acc (trim item)) eqn:E; simpl; [reflexivity|].
  rewrite <- app_assoc. simpl. do 2 f_equal.
  apply firstSeen_ext. intros y. unfold arrayIncludes.
  rewrite existsb_app. simpl. rewrite orb_false_r. apply orb_comm.
Qed.

(** [firstSeen] does what its name says: nothing twice, nothing lost,
    nothing invented. *)
Lemma firstSeen_In (l seen : list jsstring) (x : jsstring) :
  In x (firstSeen seen l) <-> In x l /\ ~ In x seen.
Proof.
  revert seen. induction l as [|y l IH]; intros seen; simpl; [tauto|].
  destruct (arrayIncludes seen y) eqn:E.
  - apply JSFacts.arrayIncludes_In in E. rewrite IH.
    split; [tauto|]. intros [[->|H] Hn]; tauto.
  - apply not_included in E. simpl. rewrite IH. simpl.
    split.
    + intros [->|[H Hn]]; [tauto|]. split; [tauto|]. intros Hs. apply Hn. now right.
    + intros [[->|H] Hn]; [now left|].
      destruct (JS.eqb y x) eqn:Eyx.
      * apply JSFacts.eqb_eq in Eyx. now left.
      * apply JSFacts.eqb_neq in Eyx. right. split; [exact H|].
        intros [Hs|Hs]; tauto.
Qed.

Lemma firstSeen_NoDup (l seen : list jsstring) : NoDup (firstSeen seen l).
Proof.
  revert seen. induction l as [|y l IH]; intros seen; simpl; [constructor|].
  destruct (arrayIncludes seen y); [apply IH|].
  constructor; [|apply IH].
  rewrite firstSeen_In. intros [_ Hn]. apply Hn. now left.
Qed.

(** *** The fresh aggregator *)

Lemma fresh_strings_null (f : jsstring) :
  In f stringFields -> get (cardData newAggregator) f = VNull.
Proof.
  simpl. intros H.
  repeat (destruct H as [<-|H]; [reflexivity|]). contradiction.
Qed.

Lemma fresh_arrays_empty (f : jsstring) :
  In f arrayFields -> get (cardData newAggregator) f = VArr [].
Proof.
  simpl. intros H.
  repeat (destruct H as [<-|H]; [reflexivity|]). contradiction.
Qed.

Lemma fresh_arrays_in_place : arraysInPlace arrayFields (cardData newAggregator).
Proof. intros f Hf. exists []. now apply fresh_arrays_empty. Qed.

(** *** Scalar fields *)

(** C6, as stated, fails: [cardType] is a scalar field of the schema, a
    source supplies the non-empty value "Gold" for it, and the merged record
    still holds [null] there. *)
Lemma card_type_is_not_merged :
  firstNonEmpty (offered (lit "cardType") [goldSource]) = VStr (lit "Gold")
  /\ get (cardData (addSources newAggregator [goldSource])) (lit "cardType") = VNull
  /\ get (cardData (addSources newAggregator [goldSource])) (lit "cardType")
     <> firstNonEmpty (offered (lit "cardType") [goldSource]).
Proof. repeat split; try reflexivity. vm_compute. discriminate. Qed.

Lemma find_over_app (A : Type) (p : A -> bool) (l l' : list A) :
  find p (l ++ l') = match find p l with
                     | Some x => Some x
                     | None => find p l'
                     end.
Proof.
  induction l as [|x l IH]; simpl; [reflexivity|].
  now destruct (p x).
Qed.

(** Once a scalar is set no later source changes it. *)
Lemma scalar_never_overwritten (srcs more : list Source) (f : jsstring) :
  In f stringFields ->
  truthy (get (cardData (addSources newAggregator srcs)) f) = true ->
  get (cardData (addSources newAggregator (srcs ++ more))) f
  = get (cardData (addSources newAggregator srcs)) f.
Proof.
  intros Hf Hset. unfold addSources at 1. rewrite fold_left_app.
  fold (addSources newAggregator srcs).
  fold (addSources (addSources newAggregator srcs) more).
  rewrite addSources_string by exact Hf.
  rewrite keepFirst_run. now rewrite Hset.
Qed.

(** C6, amended. For every run of [addSourceData] calls and each of the
    five scalar fields that [mergeData] merges ([cardName], [annualFee],
    [joiningFee], [interestRate], [foreignCurrencyMarkup]), the merged
    record holds the first non-empty value supplied in arrival order, and
    sources added afterwards change nothing once a value is there.  The
    scalar fields [cardType] and [creditLimit] are never merged and stay
    [null].  Adding an annual fee of ₹500 and then one of ₹900 leaves
    ₹500. *)
Theorem scalar_first_non_empty_wins (srcs more : list Source) :
  Forall (fun f =>
            get (cardData (addSources newAggregator srcs)) f
            = firstNonEmpty (offered f srcs)
            /\ get (cardData (addSources newAggregator (srcs ++ more))) f
               = if truthy (get (cardData (addSources newAggregator srcs)) f)
                 then get (cardData (addSources newAggregator srcs)) f
                 else firstNonEmpty (offered f more))
         stringFields
  /\ get (cardData (addSources newAggregator srcs)) (lit "cardType") = VNull
  /\ get (cardData (addSources newAggregator srcs)) (lit "creditLimit") = VNull
  /\ get (cardData (addSources newAggregator [sourceA; sourceB])) (lit "annualFee")
     = VStr (rupees "500").
Proof.
  split; [|repeat split].
  - apply Forall_forall. intros f Hf.
    assert (Hfirst : forall l, get (cardData (addSources newAggregator l)) f
                               = firstNonEmpty (offered f l)).
    { intros l. rewrite addSources_string by exact Hf.
      rewrite keepFirst_run, (fresh_strings_null Hf). reflexivity. }
    split; [apply Hfirst|].
    destruct (truthy (get (cardData (addSources newAggregator srcs)) f)) eqn:E.
    + now apply scalar_never_overwritten.
    + rewrite Hfirst. rewrite Hfirst in E.
      unfold firstNonEmpty, offered in *. rewrite map_app, find_over_app.
      destruct (find truthy (map (fun src => get (data src) f) srcs)) as [v|] eqn:Ev;
        [|reflexivity].
      apply find_some in Ev. destruct Ev as [_ Ev]. congruence.
  - now rewrite addSources_untouched.
  - now rewrite addSources_untouched.
Qed.

(** *** Collection fields *)

(** C7, as stated, fails on its example: "lounge access " is not taken for
    a duplicate of "Lounge Access", since the comparison is case-sensitive;
    the merged array keeps both and has two entries.  Nor is every entry of
    a source in the union: a blank entry is dropped, its trimmed form [""]
    does not appear. *)
Lemma lounge_access_is_kept_twice :
  get (cardData (addSources newAggregator [loungeSource1; loungeSource2])) (lit "benefits")
  = VArr [lit "Lounge Access"; lit "lounge access"]
  /\ get (cardData (addSources newAggregator [loungeSource1; loungeSource2])) (lit "benefits")
     <> VArr [lit "Lounge Access"]
  /\ get (cardData (addSources newAggregator [blankSource])) (lit "benefits") = VArr []
  /\ get (cardData (addSources newAggregator [blankSource])) (lit "benefits")
     <> VArr [trim (lit "   ")].
Proof.
  split; [reflexivity|]. split; [vm_compute; discriminate|].
  split; [reflexivity | vm_compute; discriminate].
Qed.

(** C7, amended. For every run of [addSourceData] calls and every
    collection field, the merged array is the union of the sources'
    non-blank entries in trimmed form, compared as exact (case-sensitive)
    strings, each kept once in first-seen order.  "Lounge Access" followed
    by "lounge access " gives the two entries "Lounge Access" and
    "lounge access"; followed by "Lounge Access " and a blank entry it gives
    the single entry "Lounge Access". *)
Theorem collections_union_first_seen (srcs : list Source) :
  Forall (fun f =>
            get (cardData (addSources newAggregator srcs)) f
            = VArr (unionOfEntries f srcs))
         arrayFields
  /\ get (cardData (addSources newAggregator [loungeSource1; loungeSource2]))
         (lit "benefits")
     = VArr [lit "Lounge Access"; lit "lounge access"]
  /\ get (cardData (addSources newAggregator [loungeSource1; loungeSource3]))
         (lit "benefits")
     = VArr [lit "Lounge Access"].
Proof.
  split; [|split; reflexivity].
  apply Forall_forall. intros f Hf.
  rewrite (@addSources_array srcs newAggregator f [] fresh_arrays_in_place Hf (fresh_arrays_empty Hf)).
  now rewrite pushItems_firstSeen.
Qed.

(** The union has no entry twice, and holds exactly the trimmed forms of
    the non-blank entries. *)
Lemma unionOfEntries_spec (f : jsstring) (srcs : list Source) :
  NoDup (unionOfEntries f srcs)
  /\ forall x, In x (unionOfEntries f srcs)
               <-> exists src item, In src srcs /\ In item (entries f src)
                                    /\ nonBlank item = true /\ trim item = x.
Proof.
  split; [apply firstSeen_NoDup|].
  intros x. unfold unionOfEntries. rewrite firstSeen_In, in_map_iff.
  split.
  - intros [[item [Ht Hi]] _]. apply filter_In in Hi as [Hi Hb].
    apply in_flat_map in Hi as [src [Hs Hi]]. now exists src, item.
  - intros [src [item [Hs [Hi [Hb Ht]]]]]. split; [|intros []].
    exists item. split; [exact Ht|]. apply filter_In. split; [|exact Hb].
    apply in_flat_map. now exists src.
Qed.

End AggregatorFacts.

(** ** Completeness report *)

Module CompletenessFacts.

Import Obj Aggregator AggregatorSpec.

Section MapFacts.
Variable V : Type.

Lemma map_get_set (m : JsMap.t V) (k k' : jsstring) (v : V) :
  JsMap.get (JsMap.set m k v) k' = if JS.eqb k k' then Some v else JsMap.get m k'.
Proof.
  induction m as [|[k0 v0] m IH]; simpl.
  - reflexivity.
  - destruct (JS.eqb k0 k) eqn:E; simpl.
    + apply JSFacts.eqb_eq in E. subst k0. now destruct (JS.eqb k k').
    + destruct (JS.eqb k0 k') eqn:E'; [|exact IH].
      destruct (JS.eqb k k') eqn:E''; [|reflexivity].
      apply JSFacts.eqb_eq in E', E''. subst.
      rewrite JSFacts.eqb_refl in E. discriminate.
Qed.

End MapFacts.

Lemma tally_fields (cd : Obj.t) (r : Report) (k : jsstring) :
  totalFields (tally cd r k) = (totalFields r + 1)%Z
  /\ filledFields (tally cd r k)
     = (filledFields r + if isFilled (get cd k) then 1 else 0)%Z
  /\ emptyFields (tally cd r k)
     = (emptyFields r + if isFilled (get cd k) then 0 else 1)%Z
  /\ fieldDetails (tally cd r k)
     = JsMap.set (fieldDetails r) k (statusOf (get cd k)).
Proof.
  unfold tally, statusOf. destruct (isFilled (get cd k)); simpl;
    repeat split; lia.
Qed.

Lemma tally_run (cd : Obj.t) (ks : list jsstring) :
  forall r,
    let r' := fold_left (tally cd) ks r in
    totalFields r' = (totalFields r + Z.of_nat (length ks))%Z
    /\ filledFields r' = (filledFields r + Z.of_nat (filledCount cd ks))%Z
    /\ emptyFields r'
       = (emptyFields r + Z.of_nat (length ks) - Z.of_nat (filledCount cd ks))%Z
    /\ forall k, JsMap.get (fieldDetails r') k
                 = if arrayIncludes ks k then Some (statusOf (get cd k))
                   else JsMap.get (fieldDetails r) k.
Proof.
  unfold filledCount.
  induction ks as [|k0 ks IH]; intros r; cbn [fold_left].
  - simpl. repeat split; lia.
  - destruct (IH (tally cd r k0)) as [Ht [Hf [He Hd]]].
    destruct (tally_fields cd r k0) as [Ht0 [Hf0 [He0 Hd0]]].
    cbv zeta in *. rewrite Ht, Hf, He, Ht0, Hf0, He0.
    cbn [filter length].
    repeat split.
    + lia.
    + destruct (isFilled (get cd k0)); cbn [length]; lia.
    + destruct (isFilled (get cd k0)); cbn [length]; lia.
    + intros k. rewrite Hd, Hd0, map_get_set. unfold arrayIncludes. simpl.
      rewrite (JSFacts.eqb_sym k k0).
      destruct (existsb (JS.eqb k) ks); [now rewrite orb_true_r|].
      rewrite orb_false_r.
      destruct (JS.eqb k0 k) eqn:E; [|reflexivity].
      apply JSFacts.eqb_eq in E. now subst k0.
Qed.

(** A value counts as filled exactly when it is a non-empty array, an
    object with a key, or a non-empty string. *)
Lemma isFilled_spec (v : Value) :
  isFilled v = true
  <-> (exists items, v = VArr items /\ items <> [])
      \/ (exists fields, v = VObj fields /\ fields <> [])
      \/ (exists s, v = VStr s /\ s <> []).
Proof.
  split.
  - destruct v as [| |s|items|fields]; simpl; try discriminate.
    + intros H. right. right. exists s. split; [reflexivity|].
      intros ->. discriminate.
    + intros H. left. exists items. split; [reflexivity|].
      intros ->. discriminate.
    + intros H. right. left. exists fields. split; [reflexivity|].
      intros ->. discriminate.
  - intros [[items [-> H]]|[[fields [-> H]]|[s [-> H]]]].
    + now destruct items.
    + now destruct fields.
    + now destruct s.
Qed.

(** C9, as stated, fails on its example: for 20 fields of which 11 are
    filled the percentage is not 55.0.  [11 / 20] is not a binary fraction,
    and the product of its double with 100 rounds to the double just above
    55. *)
Lemma percentage_11_of_20_is_not_55 :
  totalFields (fst (getCompletenessReport aggregator20)) = 20%Z
  /\ filledFields (fst (getCompletenessReport aggregator20)) = 11%Z
  /\ completenessPercentage (fst (getCompletenessReport aggregator20))
     = PrimFloat.next_up 55%float
  /\ completenessPercentage (fst (getCompletenessReport aggregator20)) <> 55%float.
Proof.
  repeat split; try (vm_compute; reflexivity).
  intros H.
  assert (E : PrimFloat.eqb
                (completenessPercentage (fst (getCompletenessReport aggregator20)))
                55%float = true) by (rewrite H; reflexivity).
  vm_compute in E. discriminate.
Qed.

(** The code's test for a filled field agrees with the criterion. *)
Lemma isFilled_nonEmptyField (v : Value) : isFilled v = nonEmptyField v.
Proof. destruct v as [| |[|c s]|[|i items]|[|f fields]]; reflexivity. Qed.

Lemma filledCount_nonEmptyCount (cd : Obj.t) (ks : list jsstring) :
  filledCount cd ks = nonEmptyCount cd ks.
Proof.
  unfold filledCount, nonEmptyCount. f_equal. apply filter_ext.
  intros k. apply isFilled_nonEmptyField.
Qed.

(** C9, amended. [getCompletenessReport] leaves the aggregator as it found
    it and answers the same report when called again.  The report counts
    every top-level key, counts a key as filled exactly when its value is a
    non-empty array, an object with a key or a non-empty string, records
    that status per key, and gives the percentage as the double-precision
    value of [(filledFields / totalFields) * 100].  For 11 filled fields out
    of 20 that value is 55.00000000000001, the double next above 55 (shown
    as "55.0" at one decimal), not 55.0 itself. *)
Theorem completeness_report (a : CardDataAggregator) :
  let r := fst (getCompletenessReport a) in
  snd (getCompletenessReport a) = a
  /\ fst (getCompletenessReport (snd (getCompletenessReport a))) = r
  /\ totalFields r = Z.of_nat (length (keys (cardData a)))
  /\ filledFields r = Z.of_nat (nonEmptyCount (cardData a) (keys (cardData a)))
  /\ emptyFields r = (totalFields r - filledFields r)%Z
  /\ Forall (fun k => JsMap.get (fieldDetails r) k
                      = Some (if nonEmptyField (get (cardData a) k)
                              then filled else empty))
            (keys (cardData a))
  /\ (forall v, isFilled v = true
                <-> (exists items, v = VArr items /\ items <> [])
                    \/ (exists fields, v = VObj fields /\ keys fields <> [])
                    \/ (exists s, v = VStr s /\ s <> []))
  /\ completenessPercentage r = percentage (filledFields r) (totalFields r)
  /\ percentage 11 20 = 0x1.b800000000001p+5%float
  /\ percentage 11 20 = PrimFloat.next_up 55%float.
Proof.
  destruct (tally_run (cardData a) (keys (cardData a)) (mkReport 0 0 0 [] 0%float))
    as [Ht [Hf [He Hd]]].
  simpl in Ht, Hf, He, Hd. simpl.
  repeat match goal with |- _ /\ _ => split end;
    try assumption; try reflexivity.
  - rewrite <- filledCount_nonEmptyCount. exact Hf.
  - rewrite He, Ht, Hf. lia.
  - apply Forall_forall. intros k Hk. rewrite Hd.
    apply JSFacts.arrayIncludes_In in Hk. rewrite Hk. unfold statusOf.
    now rewrite isFilled_nonEmptyField.
  - intros v. rewrite isFilled_spec. split.
    + intros [[items [-> H]]|[[fields [-> H]]|[s0 [-> H]]]].
      * left. now exists items.
      * right. left. exists fields. split; [reflexivity|].
        destruct fields; [contradiction|discriminate].
      * right. right. now exists s0.
    + intros [[items [-> H]]|[[fields [-> H]]|[s0 [-> H]]]].
      * left. now exists items.
      * right. left. exists fields. split; [reflexivity|].
        destruct fields; [contradiction|discriminate].
      * right. right. now exists s0.
Qed.

End CompletenessFacts.

(** ** Link handler, on any platform *)

Module LinkHandlerFacts.

Import Url LinkHandler LinkHandlerSpec.

Section WithPlatform.

Context {P : Platform}.
Variable settings : Settings.t.

(** *** Rejection by [normalizeUrl] *)

Lemma cleanUrl_marker (url : jsstring) :
  hasTemplateMarker url = true -> cleanUrl url = None.
Proof.
  intros H. unfold cleanUrl. rewrite H. now destruct (JS.eqb url []).
Qed.

Ltac split_checks :=
  repeat match goal with
         | |- context [if ?b then _ else _] => destruct b
         end.

Lemma isValidUrl_too_long (url : jsstring) :
  (2000 < length url)%nat -> isValidUrl url = false.
Proof.
  intros H. unfold isValidUrl. destruct (parse url); [|reflexivity].
  apply Nat.ltb_lt in H. rewrite H. split_checks; reflexivity.
Qed.

Lemma isValidUrl_other_scheme (url : jsstring) :
  (forall u, parse url = Some u ->
             protocol u <> lit "http:" /\ protocol u <> lit "https:") ->
  isValidUrl url = false.
Proof.
  intros H. unfold isValidUrl. destruct (parse url) as [u|]; [|reflexivity].
  destruct (H u eq_refl) as [H1 H2].
  replace (arrayIncludes [lit "http:"; lit "https:"] (protocol u)) with false;
    [reflexivity|].
  symmetry. unfold arrayIncludes. simpl.
  apply JSFacts.eqb_neq in H1. apply JSFacts.eqb_neq in H2.
  now rewrite H1, H2.
Qed.

Lemma normalizeUrl_invalid (url cleaned : jsstring) :
  cleanUrl url = Some cleaned -> isValidUrl cleaned = false ->
  normalizeUrl url = None.
Proof.
  intros Hc Hv. unfold normalizeUrl. rewrite Hc, Hv. simpl.
  now destruct (JS.eqb cleaned []).
Qed.

(** C5, amended. [normalizeUrl] answers [null], and does not throw, for
    every input that contains one of the literal markers [{{], [}}],
    [%7B%7B] or [%7D%7D], and for every input whose cleaned form (trimmed
    and repaired by [cleanUrl]) is longer than 2000 code units or is given
    a protocol other than [http:] and [https:] by the URL parser.  The
    length and the scheme are those of the cleaned form, not of the raw
    input, and the percent-encoded markers are matched in upper-case hex
    only. *)
Theorem normalizeUrl_rejects (url : jsstring) :
  hasTemplateMarker url = true
  \/ (exists cleaned,
         cleanUrl url = Some cleaned
         /\ ((2000 < length cleaned)%nat
             \/ forall u, parse cleaned = Some u ->
                          protocol u <> lit "http:" /\ protocol u <> lit "https:")) ->
  normalizeUrl url = None.
Proof.
  intros [Hm|[cleaned [Hc [Hlen|Hscheme]]]].
  - unfold normalizeUrl. now rewrite cleanUrl_marker.
  - apply normalizeUrl_invalid with cleaned; [exact Hc|].
    now apply isValidUrl_too_long.
  - apply normalizeUrl_invalid with cleaned; [exact Hc|].
    now apply isValidUrl_other_scheme.
Qed.

(** *** Triage *)

Lemma isIgnored_pattern (url : jsstring) (pattern : re) :
  In pattern (Settings.ignorePatterns settings) ->
  test pattern url = true ->
  isIgnored settings url = true.
Proof.
  intros Hin Ht. unfold isIgnored. destruct (JS.eqb url []); [reflexivity|].
  apply existsb_exists. now exists pattern.
Qed.

(** A link is pushed only with its canonical URL as [href], only when that
    URL is not ignored, and then with the score of that URL. *)
Lemma processLink_pushed (baseDomain now : jsstring) (link : RawLink) (l : ProcessedLink) :
  processLink settings baseDomain now link = Pushed l ->
  canonicalUrl baseDomain link = Some (l_href l)
  /\ isIgnored settings (l_href l) = false
  /\ l_priority l = getPriorityScore settings (l_href l).
Proof.
  unfold processLink, canonicalUrl.
  destruct link as [h|[h|] t ti|]; simpl; try discriminate;
    (destruct (JS.eqb h []); [discriminate|]);
    (destruct (skipHref h); [discriminate|]);
    (destruct (resolveHref _ h) as [a|]; [|discriminate]);
    (destruct (finalUrlOf baseDomain a) as [f|]; [|discriminate]);
    (destruct (isIgnored settings f) eqn:E; [discriminate|]);
    intros H; injection H as <-; simpl; auto.
Qed.

(** Conversely a link whose canonical URL is not ignored is pushed. *)
Lemma processLink_kept (baseDomain now : jsstring) (link : RawLink) (f : jsstring) :
  canonicalUrl baseDomain link = Some f ->
  isIgnored settings f = false ->
  exists l, processLink settings baseDomain now link = Pushed l /\ l_href l = f.
Proof.
  unfold processLink, canonicalUrl.
  destruct link as [h|[h|] t ti|]; simpl; try discriminate;
    (destruct (JS.eqb h []); [discriminate|]);
    (destruct (skipHref h); [discriminate|]);
    (destruct (resolveHref _ h) as [a|]; [|discriminate]);
    intros -> ->; eexists; split; reflexivity.
Qed.

Lemma processLoop_In (baseDomain : jsstring) (clock : nat -> jsstring)
      (links : list RawLink) (l : ProcessedLink) :
  forall i,
    In l (fst (processLoop settings baseDomain clock i links)) <->
    exists j link, nth_error links j = Some link
                   /\ processLink settings baseDomain (clock (i + j)%nat) link = Pushed l.
Proof.
  induction links as [|link links IH]; intros i; simpl.
  - split; [intros [] | intros [[|j] [link [H _]]]; discriminate].
  - specialize (IH (S i)).
    destruct (processLoop settings baseDomain clock (S i) links) as [processed errs].
    simpl in IH.
    assert (Hrest : In l processed <->
              exists j link0, nth_error (link :: links) (S j) = Some link0
                /\ processLink settings baseDomain (clock (i + S j)%nat) link0 = Pushed l).
    { rewrite IH. split; intros [j [link0 [Hn Hp]]]; exists j, link0;
        (split; [exact Hn|]); now rewrite Nat.add_succ_r in *. }
    destruct (processLink settings baseDomain (clock i) link) as [l0| |] eqn:E; simpl.
    + split.
      * intros [->|H].
        -- exists 0, link. now rewrite Nat.add_0_r.
        -- apply Hrest in H. destruct H as [j [link0 H]]. now exists (S j), link0.
      * intros [[|j] [link0 [Hn Hp]]].
        -- simpl in Hn. injection Hn as <-. rewrite Nat.add_0_r in Hp. left. congruence.
        -- right. apply Hrest. now exists j, link0.
    + rewrite Hrest. split.
      * intros [j [link0 H]]. now exists (S j), link0.
      * intros [[|j] [link0 [Hn Hp]]]; [|now exists j, link0].
        simpl in Hn. injection Hn as <-. rewrite Nat.add_0_r in Hp. congruence.
    + rewrite Hrest. split.
      * intros [j [link0 H]]. now exists (S j), link0.
      * intros [[|j] [link0 [Hn Hp]]]; [|now exists j, link0].
        simpl in Hn. injection Hn as <-. rewrite Nat.add_0_r in Hp. congruence.
Qed.

(** *** Deduplication by [href] *)

Section MapOfLinks.
Variable V : Type.

Lemma set_values_In (m : JsMap.t V) (k : jsstring) (v v' : V) :
  In v (JsMap.values (JsMap.set m k v')) -> v = v' \/ In v (JsMap.values m).
Proof.
  unfold JsMap.values. induction m as [|[k0 v0] m IH]; simpl.
  - intros [<-|[]]. now left.
  - destruct (JS.eqb k0 k); simpl.
    + intros [<-|H]; [now left | right; now right].
    + intros [<-|H]; [right; now left|].
      destruct (IH H) as [->|H']; [now left | right; now right].
Qed.

Lemma set_keys_In (m : JsMap.t V) (k k' : jsstring) (v : V) :
  In k' (map fst (JsMap.set m k v)) <-> k' = k \/ In k' (map fst m).
Proof.
  induction m as [|[k0 v0] m IH]; simpl.
  - split; [intros [<-|[]]; now left | intros [->|[]]; now left].
  - destruct (JS.eqb k0 k) eqn:E; simpl.
    + apply JSFacts.eqb_eq in E. subst k0.
      split; [intros [<-|H]; auto | intros [->|[<-|H]]; auto].
    + rewrite IH. tauto.
Qed.

Lemma set_entries_In (m : JsMap.t V) (k : jsstring) (v : V) (kv : jsstring * V) :
  In kv (JsMap.set m k v) -> kv = (k, v) \/ In kv m.
Proof.
  induction m as [|[k0 v0] m IH]; simpl.
  - intros [<-|[]]. now left.
  - destruct (JS.eqb k0 k) eqn:E; simpl.
    + apply JSFacts.eqb_eq in E. subst k0.
      intros [<-|H]; [now left | right; now right].
    + intros [<-|H]; [right; now left|].
      destruct (IH H) as [->|H']; [now left | right; now right].
Qed.

Lemma ofEntries_from (entries : list (jsstring * V)) :
  forall m kv,
    In kv (fold_left (fun m kv => JsMap.set m (fst kv) (snd kv)) entries m) ->
    In kv m \/ In kv entries.
Proof.
  induction entries as [|[k v] entries IH]; intros m kv; simpl; [now left|].
  intros H. apply IH in H as [H|H]; [|right; now right].
  apply set_entries_In in H as [->|H]; [right; now left | now left].
Qed.

Lemma ofEntries_keys (entries : list (jsstring * V)) :
  forall m k,
    In k (map fst m) \/ In k (map fst entries) ->
    In k (map fst (fold_left (fun m kv => JsMap.set m (fst kv) (snd kv)) entries m)).
Proof.
  induction entries as [|[k0 v0] entries IH]; intros m k; simpl; [tauto|].
  intros H. apply IH. rewrite set_keys_In.
  destruct H as [H|[<-|H]]; auto.
Qed.

End MapOfLinks.

Lemma uniqueByHref_In (ls : list ProcessedLink) (l : ProcessedLink) :
  In l (uniqueByHref ls) -> In l ls.
Proof.
  unfold uniqueByHref, JsMap.values, JsMap.ofEntries. intros H.
  apply in_map_iff in H as [[k v] [<- H]].
  apply ofEntries_from in H as [[]|H].
  apply in_map_iff in H as [l' [E H]]. now injection E as _ <-.
Qed.

Lemma uniqueByHref_keeps_href (ls : list ProcessedLink) (f : jsstring) :
  In f (map l_href ls) -> In f (map l_href (uniqueByHref ls)).
Proof.
  intros H. unfold uniqueByHref, JsMap.values, JsMap.ofEntries.
  assert (Hk : In f (map fst (fold_left
                 (fun m kv => JsMap.set m (fst kv) (snd kv))
                 (map (fun l => (l_href l, l)) ls) []))).
  { apply ofEntries_keys. right. now rewrite map_map. }
  apply in_map_iff in Hk as [[k v] [Ek Hk]]. simpl in Ek. subst k.
  apply in_map_iff. exists v. split; [|apply in_map_iff; now exists (f, v)].
  apply ofEntries_from in Hk as [[]|Hk].
  apply in_map_iff in Hk as [l' [E _]]. now injection E as <- <-.
Qed.

(** *** Ignored links *)

Lemma processLinks_unfold (clock : nat -> jsstring) (links : list RawLink)
      (baseDomain : jsstring) :
  let unique := uniqueByHref (fst (processLoop settings baseDomain clock 0 links)) in
  let r := processLinks settings clock links baseDomain in
  allLinks r = unique
  /\ internalLinks r = filter (fun l => negb (l_isPDF l)) unique
  /\ pdfLinks r = filter l_isPDF unique.
Proof.
  unfold processLinks.
  destruct (processLoop settings baseDomain clock 0 links) as [processed errs].
  simpl. auto.
Qed.

(** Whatever [processLinks] answers was pushed by some round of its loop,
    under a URL that is not ignored. *)
Lemma processLinks_sound (clock : nat -> jsstring) (links : list RawLink)
      (baseDomain : jsstring) (l : ProcessedLink) :
  In l (allLinks (processLinks settings clock links baseDomain)) ->
  isIgnored settings (l_href l) = false
  /\ l_priority l = getPriorityScore settings (l_href l)
  /\ exists link, In link links /\ canonicalUrl baseDomain link = Some (l_href l).
Proof.
  destruct (processLinks_unfold clock links baseDomain) as [-> _].
  intros H. apply uniqueByHref_In in H.
  apply processLoop_In in H as [j [link [Hn Hp]]].
  apply processLink_pushed in Hp as [Hc [Hi Hs]].
  repeat split; try assumption.
  exists link. split; [now apply nth_error_In with j | exact Hc].
Qed.

Lemma outputs_within_all (clock : nat -> jsstring) (links : list RawLink)
      (baseDomain : jsstring) (l : ProcessedLink) :
  let r := processLinks settings clock links baseDomain in
  In l (internalLinks r) \/ In l (pdfLinks r) -> In l (allLinks r).
Proof.
  cbv zeta.
  destruct (processLinks_unfold clock links baseDomain) as [-> [-> ->]].
  intros [H|H]; now apply filter_In in H.
Qed.

(** C8. A URL that matches one of the configured ignore patterns is the
    [href] of no link in the internal set and of none in the PDF set, of
    [processLinks] as of [handleLinks], for every list of raw links: so a
    link whose canonical URL is ignored is excluded from both.  This holds
    for every table of priority patterns, hence whatever score the URL
    would have been given. *)
Theorem ignored_links_are_excluded (clock : nat -> jsstring) (links : list RawLink)
        (baseDomain url : jsstring) (pattern : re) :
  In pattern (Settings.ignorePatterns settings) ->
  test pattern url = true ->
  ~ In url (map l_href (internalLinks (processLinks settings clock links baseDomain)))
  /\ ~ In url (map l_href (pdfLinks (processLinks settings clock links baseDomain)))
  /\ ~ In url (map l_href (internalLinks (handleLinks settings clock links baseDomain)))
  /\ ~ In url (map l_href (pdfLinks (handleLinks settings clock links baseDomain))).
Proof.
  intros Hin Ht. pose proof (isIgnored_pattern url pattern Hin Ht) as Hign.
  assert (Hp : forall l,
             In l (internalLinks (processLinks settings clock links baseDomain))
             \/ In l (pdfLinks (processLinks settings clock links baseDomain)) ->
             l_href l <> url).
  { intros l H E. apply outputs_within_all in H.
    apply processLinks_sound in H as [H _]. congruence. }
  assert (Hi : ~ In url (map l_href
                 (internalLinks (processLinks settings clock links baseDomain)))).
  { intros H. apply in_map_iff in H as [l [E H]]. apply (Hp l); auto. }
  assert (Hd : ~ In url (map l_href
                 (pdfLinks (processLinks settings clock links baseDomain)))).
  { intros H. apply in_map_iff in H as [l [E H]]. apply (Hp l); auto. }
  unfold handleLinks. destruct (JS.eqb baseDomain []); simpl; tauto.
Qed.

(** The exclusion is the work of the ignore patterns alone: a link whose
    canonical URL is not ignored does come out, among the pages or among
    the PDFs, however low its score. *)
Lemma kept_links_come_out (clock : nat -> jsstring) (links : list RawLink)
      (baseDomain url : jsstring) (link : RawLink) :
  In link links ->
  canonicalUrl baseDomain link = Some url ->
  isIgnored settings url = false ->
  let r := processLinks settings clock links baseDomain in
  In url (map l_href (internalLinks r)) \/ In url (map l_href (pdfLinks r)).
Proof.
  intros Hin Hc Hk. cbv zeta.
  destruct (processLinks_unfold clock links baseDomain) as [_ [-> ->]].
  apply In_nth_error in Hin as [j Hj].
  destruct (processLink_kept baseDomain (clock (0 + j)%nat) link Hc Hk) as [l [Hp Hl]].
  assert (Hl' : In l (fst (processLoop settings baseDomain clock 0 links))).
  { apply processLoop_In. now exists j, link. }
  assert (Hu : In url (map l_href
                 (uniqueByHref (fst (processLoop settings baseDomain clock 0 links))))).
  { apply uniqueByHref_keeps_href. apply in_map_iff. now exists l. }
  apply in_map_iff in Hu as [l' [E Hu]].
  destruct (l_isPDF l') eqn:Epdf.
  - right. apply in_map_iff. exists l'. split; [exact E|].
    apply filter_In. now split.
  - left. apply in_map_iff. exists l'. split; [exact E|].
    apply filter_In. split; [exact Hu | now rewrite Epdf].
Qed.

End WithPlatform.

End LinkHandlerFacts.

(** ** The parser model on canonical URLs *)

Module WhatwgFacts.

Import Whatwg LinkHandler LinkHandlerSpec WhatwgSpec.














(** *** Plain hosts and characters *)







(** *** Idempotence of [normalizeUrl] *)

Import LinkHandler.



(** *** What [normalizeUrl] rejects and what it lets through *)

(** C5, as stated, fails: the bound of 2000 is checked on the cleaned URL,
    so an input of 2043 code units that owes its length to surrounding
    white space is normalized, not refused.  The percent-encoded markers
    are looked for in upper-case hex only, so [%7b%7b] passes as well. *)
Lemma long_input_is_normalized :
  (2000 <? length paddedUrl)%nat = true
  /\ @normalizeUrl platform paddedUrl
     = Some (lit "https://www.hdfcbank.com/personal/pay/cards")
  /\ @normalizeUrl platform paddedUrl <> None
  /\ @normalizeUrl platform (lit "https://www.hdfcbank.com/%7b%7bcard%7d%7d")
     = Some (lit "https://www.hdfcbank.com/%7b%7bcard%7d%7d").
Proof.
  assert (H : @normalizeUrl platform paddedUrl
              = Some (lit "https://www.hdfcbank.com/personal/pay/cards"))
    by (vm_compute; reflexivity).
  split; [vm_compute; reflexivity|].
  split; [exact H|].
  split; [rewrite H; discriminate|].
  vm_compute. reflexivity.
Qed.

(** The three ways of being refused, one input each: a template marker, a
    cleaned URL of more than 2000 code units, and a scheme that is neither
    [http] nor [https]. *)
Lemma normalizeUrl_rejects_witness :
  @normalizeUrl platform (lit "https://www.hdfcbank.com/{{cardName}}") = None
  /\ @normalizeUrl platform longUrl = None
  /\ @normalizeUrl platform (lit "mailto:support@hdfcbank.com") = None.
Proof.
  split; [|split].
  - apply LinkHandlerFacts.normalizeUrl_rejects. left. vm_compute. reflexivity.
  - apply LinkHandlerFacts.normalizeUrl_rejects. right. exists longUrl.
    split; [vm_compute; reflexivity|]. left.
    apply Nat.ltb_lt. vm_compute. reflexivity.
  - apply LinkHandlerFacts.normalizeUrl_rejects. right.
    exists (lit "mailto:support@hdfcbank.com").
    split; [vm_compute; reflexivity|]. right.
    intros u Hu. vm_compute in Hu. injection Hu as <-.
    split; vm_compute; discriminate.
Defined.

(** *** Triage with the shipped tables *)

(** The theorem at work on the shipped tables: a link to
    [/login/credit-card-benefits] matches the ignore pattern [/\/login/] and
    two priority patterns (score 32), and comes out in neither set. *)
Lemma ignored_links_are_excluded_witness :
  let url := lit "https://hdfcbank.com/login/credit-card-benefits" in
  let r := @processLinks platform shipped (fun _ => []) [loginLink] (lit "hdfcbank.com") in
  let r' := @handleLinks platform shipped (fun _ => []) [loginLink] (lit "hdfcbank.com") in
  @canonicalUrl platform (lit "hdfcbank.com") loginLink = Some url
  /\ getPriorityScore shipped url = 32%Z
  /\ (~ In url (map l_href (internalLinks r)) /\ ~ In url (map l_href (pdfLinks r))
      /\ ~ In url (map l_href (internalLinks r'))
      /\ ~ In url (map l_href (pdfLinks r'))).
Proof.
  split; [vm_compute; reflexivity|].
  split; [vm_compute; reflexivity|].
  apply (@LinkHandlerFacts.ignored_links_are_excluded platform shipped
           (fun _ => []) [loginLink] (lit "hdfcbank.com")
           (lit "https://hdfcbank.com/login/credit-card-benefits") (W "/login")).
  - left. reflexivity.
  - vm_compute. reflexivity.
Defined.

End WhatwgFacts.

(** ** Crawl orchestrator *)

Module OrchestratorFacts.

Import LinkHandler Aggregator Orchestrator OrchestratorSpec.

Section WithPlatform.

Context {P : Url.Platform}.
Variable settings : Settings.t.
Variable crawlPage : jsstring -> HtmlCrawler.CrawlOutcome.
Variable parsePDF : jsstring -> PdfOutcome.
Variable parseFields : jsstring -> jsstring -> Obj.t.

Lemma crawl_requests (pages : list ProcessedLink) :
  forall r,
    requested (fold_left (crawlOne crawlPage parseFields) pages r)
    = requested r ++ asked html pages.
Proof.
  induction pages as [|l pages IH]; intros r; simpl; [now rewrite app_nil_r|].
  rewrite IH. unfold crawlOne.
  destruct (crawlPage (l_href l)); simpl; now rewrite <- app_assoc.
Qed.

Lemma parse_requests (pdfs : list ProcessedLink) :
  forall r,
    requested (fold_left (parseOne parsePDF parseFields) pdfs r)
    = requested r ++ asked pdf pdfs.
Proof.
  induction pdfs as [|l pdfs IH]; intros r; simpl; [now rewrite app_nil_r|].
  rewrite IH. unfold parseOne.
  destruct (parsePDF (l_href l)); simpl; now rewrite <- app_assoc.
Qed.

(** Within a non-negative budget the links taken are the first ones, in
    the order in which triage answered them. *)
Lemma budgeted_prefix (links : list ProcessedLink) (limit : Z) :
  (0 <= limit)%Z -> budgeted links limit = firstn (Z.to_nat limit) links.
Proof.
  intros H. unfold budgeted, slice0.
  destruct (Z.ltb_spec (Z.min (Z.of_nat (length links)) limit) 0); [lia|].
  destruct (Z.le_ge_cases (Z.of_nat (length links)) limit) as [Hle|Hge].
  - rewrite Z.min_l by exact Hle. rewrite Nat2Z.id.
    rewrite firstn_all. symmetry. apply firstn_all2. lia.
  - now rewrite Z.min_r by lia.
Qed.

(** The two phases ask for the first [maxPages] internal links and then
    the first [maxPDFs] PDF links, in triage order.  No [priority] is read:
    the statement holds for every link list, however scored. *)
Lemma phases_follow_triage_order (r : Run) (internal pdfs : list ProcessedLink) :
  (0 <= Settings.maxPages settings)%Z ->
  (0 <= Settings.maxPDFs settings)%Z ->
  requested (crawlPhases settings crawlPage parsePDF parseFields r internal pdfs)
  = requested r
    ++ asked html (firstn (Z.to_nat (Settings.maxPages settings)) internal)
    ++ asked pdf (firstn (Z.to_nat (Settings.maxPDFs settings)) pdfs).
Proof.
  intros Hp Hd. unfold crawlPhases.
  rewrite parse_requests, crawl_requests, !budgeted_prefix by assumption.
  now rewrite <- app_assoc.
Qed.

(** With budgets of 3 and 1, five internal links and two PDF links make
    four requests after the seed, whichever links they are. *)
Lemma scenario_counts (r : Run) (internal pdfs : list ProcessedLink) :
  Settings.maxPages settings = 3%Z ->
  Settings.maxPDFs settings = 1%Z ->
  length internal = 5 ->
  length pdfs = 2 ->
  length (requested (crawlPhases settings crawlPage parsePDF parseFields r internal pdfs))
  = length (requested r) + 4.
Proof.
  intros Hp Hd Hi Hf.
  rewrite phases_follow_triage_order by lia.
  unfold asked. rewrite !length_app, !length_map, !length_firstn, Hp, Hd, Hi, Hf.
  reflexivity.
Qed.

End WithPlatform.

(** *** The end-to-end scenario *)

(** C3. In the end-to-end scenario triage keeps five internal links, with
    scores 0, 0, 20, 63 and 53 in discovery order, and two PDF links, with
    scores 12 and 52.  With [maxPages = 3] and [maxPDFs = 1] the run asks
    for the seed, three pages and one PDF and records five sources; but
    the pages are the first three in discovery order (scores 0, 0, 20), not
    the three of highest score (63, 53, 20), and the PDF is the first found
    (score 12), not the best (52): the lists are cut, never sorted. *)
Theorem scenario_fetches_in_discovery_order :
  map l_priority (internalLinks scenarioTriage) = [0; 0; 20; 63; 53]%Z
  /\ map l_priority (pdfLinks scenarioTriage) = [12; 52]%Z
  /\ exists run,
       @extractCardData Whatwg.platform scenarioSettings everyPage everyPdf
                        noFields (fun _ => []) = Some run
       /\ requested run
          = [ (html, Settings.cardUrl scenarioSettings);
              (html, site "/personal/pay/cards");
              (html, site "/personal/resources/ways-to-bank");
              (html, site "/personal/pay/cards/credit-cards");
              (pdf, site "/content/dam/mitc.pdf") ]
       /\ length (sources (aggregator run)) = 5.
Proof.
  split; [vm_compute; reflexivity|].
  split; [vm_compute; reflexivity|].
  eexists. split; [vm_compute; reflexivity|].
  split; vm_compute; reflexivity.
Qed.

End OrchestratorFacts.

(** ** Error tracking *)

Module ErrorTrackingFacts.

Import ErrorHandler ErrorTracking ErrorTrackingSpec.

(** A retry is granted exactly when attempts are left and the error is of
    one of seven kinds: network, timeout, connection reset or refused, DNS,
    server error, rate limit.  Every other kind (parsing, PDF, HTML, JSON,
    URL, unknown and the no-retry kinds) is given up at once. *)
Theorem shouldRetry_iff (e : JsError) (attempt maxAttempts : Z) :
  shouldRetry e attempt maxAttempts = true
  <-> (attempt < maxAttempts)%Z /\ In (categorizeError e) retryable.
Proof.
  unfold shouldRetry, retryable.
  destruct (Z.geb_spec attempt maxAttempts) as [G|G].
  - split; [discriminate | lia].
  - destruct (categorizeError e); simpl;
      (split; [intros H; split; [exact G|]; try discriminate; tauto
              | intros [_ H]; try reflexivity;
                try (destruct (Z.ltb_spec attempt (maxAttempts + 2)); [reflexivity|lia]);
                repeat (destruct H as [H|H]; [discriminate H|]); destruct H]).
Qed.

(** For a failure that carries an HTTP status of 400 or more (and is not one
    of the crawler's own error classes) the status alone decides: a retry is
    granted while attempts are left and the status is 429 or at least 500,
    whatever the error's code and message say. *)
Theorem shouldRetry_by_status (e : JsError) (status attempt maxAttempts : Z) :
  cls e = OtherError \/ cls e = CrawlerError ->
  response e = Some status ->
  (400 <= status)%Z ->
  shouldRetry e attempt maxAttempts
  = (attempt <? maxAttempts)%Z && ((status =? 429)%Z || (500 <=? status)%Z).
Proof.
  intros Hc Hr Hs.
  assert (K : categorizeError e
              = if (status =? 429)%Z then RATE_LIMIT
                else if (status =? 404)%Z then NOT_FOUND
                else if (status <? 500)%Z then CLIENT_ERROR else SERVER_ERROR).
  { unfold categorizeError. rewrite Hr. unfold byStatus.
    destruct Hc as [-> | ->];
      destruct (Z.eqb_spec status 429); try reflexivity;
      destruct (Z.eqb_spec status 404); try reflexivity;
      destruct (Z.leb_spec 400 status); try lia;
      destruct (Z.ltb_spec status 500); simpl; try reflexivity;
      destruct (Z.leb_spec 500 status); try lia; reflexivity. }
  unfold shouldRetry. rewrite K.
  destruct (Z.geb_spec attempt maxAttempts) as [G|G];
    destruct (Z.ltb_spec attempt maxAttempts) as [L|L]; try lia; simpl.
  destruct (Z.eqb_spec status 429) as [E|E]; simpl.
  - destruct (Z.ltb_spec attempt (maxAttempts + 2)); [reflexivity | lia].
  - destruct (Z.eqb_spec status 404) as [E'|E']; simpl.
    + destruct (Z.leb_spec 500 status); [lia | reflexivity].
    + destruct (Z.ltb_spec status 500); destruct (Z.leb_spec 500 status);
        try lia; reflexivity.
Qed.

Lemma shouldRetry_by_status_witness :
  shouldRetry (mkError OtherError (Some 503%Z) (Some (lit "ECONNRESET")) (lit "PDF"))
              1 3
  = (1 <? 3)%Z && ((503 =? 429)%Z || (500 <=? 503)%Z).
Proof.
  apply shouldRetry_by_status; [left; reflexivity | reflexivity | lia].
Defined.

Lemma power_of_two (n : Z) : (0 <= n)%Z -> (1 <= Qpower 2 n)%Q.
Proof. intros H. apply Qpower_1_le; [lra | exact H]. Qed.

Lemma power_of_two_from_6 (n : Z) : (6 <= n)%Z -> (64 <= Qpower 2 n)%Q.
Proof.
  intros H.
  assert (L : (Qpower 2 6 <= Qpower 2 n)%Q) by (apply Qpower_le_compat_l; [exact H | lra]).
  assert (E : (Qpower 2 6 == 64)%Q) by reflexivity.
  rewrite E in L. exact L.
Qed.

(** The retry delay from the first attempt on lies between one second and
    one minute, whatever the error and the random draw, and from the seventh
    attempt on it is one minute exactly. *)
Theorem getRetryDelay_bounds (e : JsError) (attempt : Z) (random : Q) :
  (0 <= random)%Q -> (random < 1)%Q -> (1 <= attempt)%Z ->
  (1000 <= getRetryDelay e attempt random)%Q
  /\ (getRetryDelay e attempt random <= 60000)%Q
  /\ ((7 <= attempt)%Z -> (getRetryDelay e attempt random == 60000)%Q).
Proof.
  intros R0 R1 A. unfold getRetryDelay.
  assert (P1 : (1 <= Qpower 2 (attempt - 1))%Q) by (apply power_of_two; lia).
  set (p := Qpower 2 (attempt - 1)) in *.
  split; [|split].
  - apply Q.min_glb; [|lra]. destruct (categorizeError e); lra.
  - apply Q.le_min_r.
  - intros A7.
    assert (P6 : (64 <= p)%Q) by (apply power_of_two_from_6; lia).
    apply Q.min_r. destruct (categorizeError e); lra.
Qed.

Lemma getRetryDelay_bounds_witness :
  (1000 <= getRetryDelay (httpError 429) 8 (1 # 2))%Q
  /\ (getRetryDelay (httpError 429) 8 (1 # 2) <= 60000)%Q
  /\ ((7 <= 8)%Z -> (getRetryDelay (httpError 429) 8 (1 # 2) == 60000)%Q).
Proof.
  apply getRetryDelay_bounds; [lra | lra | lia].
Defined.

(** [handleError] never returns: once the error is counted it calls
    [this.logError], which the class does not define.  So the error is
    neither logged nor saved, the stop rule is not consulted, the process is
    not exited, and [withErrorHandling] passes on a [TypeError] in place of
    the error that [fn] threw. *)
Theorem handleError_never_returns (A : Type) (h : Handler) (e : JsError)
        (url : option jsstring) :
  let info := mkInfo e url (categorizeError e) in
  let h' := fst (trackError h info) in
  let warnings := map Warned (snd (trackError h info)) in
  handleError h e url = (h', warnings, Threw (NotAFunction "logError"))
  /\ @withErrorHandling A h (inr e) url = (h', warnings, Threw (NotAFunction "logError"))
  /\ (forall v : A, withErrorHandling h (inl v) url = (h, [], Returned v)).
Proof.
  unfold withErrorHandling, handleError.
  destruct (trackError h (mkInfo e url (categorizeError e))) as [h1 ws].
  repeat split.
Qed.

(** *** The counters *)

Lemma countOf_set (m : JsMap.t Z) (k k' : jsstring) (v : Z) :
  countOf (JsMap.set m k v) k' = if JS.eqb k k' then v else countOf m k'.
Proof.
  unfold countOf. rewrite CompletenessFacts.map_get_set.
  now destruct (JS.eqb k k').
Qed.

Lemma trackAll_snoc (h : Handler) (infos : list ErrorInfo) (info : ErrorInfo) :
  trackAll h (infos ++ [info]) = fst (trackError (trackAll h infos) info).
Proof. unfold trackAll. now rewrite fold_left_app. Qed.

Lemma trackAll_keeps (h : Handler) (infos : list ErrorInfo) :
  errors (trackAll h infos) = errors h /\ options (trackAll h infos) = options h.
Proof.
  revert h. induction infos as [|i infos IH]; intros h; [now split|].
  change (trackAll h (i :: infos)) with (trackAll (fst (trackError h i)) infos).
  destruct (IH (fst (trackError h i))) as [-> ->]. now split.
Qed.

Lemma trackAll_counts (infos : list ErrorInfo) (h : Handler) (key : jsstring) :
  countOf (errorCounts (trackAll h infos)) key
  = (countOf (errorCounts h) key + Z.of_nat (timesSeen key infos))%Z.
Proof.
  revert h. induction infos as [|i infos IH]; intros h.
  - unfold timesSeen. simpl. lia.
  - change (trackAll h (i :: infos)) with (trackAll (fst (trackError h i)) infos).
    rewrite IH. simpl. rewrite countOf_set. unfold timesSeen. simpl.
    destruct (JS.eqb (keyOf i) key) eqn:E; simpl.
    + apply JSFacts.eqb_eq in E. subst key. lia.
    + lia.
Qed.

Lemma trailingRun_snoc (key : jsstring) (infos : list ErrorInfo) (info : ErrorInfo) :
  trailingRun key (infos ++ [info])
  = if JS.eqb (keyOf info) key then S (trailingRun key infos) else O.
Proof.
  unfold trailingRun. rewrite map_app, rev_app_distr. reflexivity.
Qed.

Lemma consecutive_run (o : UserOptions) (infos : list ErrorInfo) :
  forall info,
    let h := trackAll (newErrorHandler o) (infos ++ [info]) in
    lastErrorKey h = Some (keyOf info)
    /\ countOf (consecutiveErrors h) (keyOf info)
       = Z.of_nat (trailingRun (keyOf info) (infos ++ [info])).
Proof.
  induction infos as [|j infos IH] using rev_ind; intros info h.
  - split; [reflexivity|]. subst h.
    rewrite (trailingRun_snoc (keyOf info) [] info), JSFacts.eqb_refl.
    change (trackAll (newErrorHandler o) ([] ++ [info]))
      with (fst (trackError (newErrorHandler o) info)).
    simpl. unfold countOf. simpl. rewrite JSFacts.eqb_refl. reflexivity.
  - destruct (IH j) as [Hl Hc]. subst h.
    rewrite trackAll_snoc. set (h' := trackAll (newErrorHandler o) (infos ++ [j])) in *.
    split; [reflexivity|].
    rewrite trailingRun_snoc, JSFacts.eqb_refl.
    simpl. unfold isLastKey. rewrite Hl.
    rewrite (trailingRun_snoc (keyOf info) infos j).
    destruct (JS.eqb (keyOf j) (keyOf info)) eqn:E.
    + apply JSFacts.eqb_eq in E. rewrite countOf_set, JSFacts.eqb_refl.
      rewrite <- E, Hc, trailingRun_snoc, JSFacts.eqb_refl. lia.
    + rewrite countOf_set, JSFacts.eqb_refl. reflexivity.
Qed.

(** After any run of errors tracked by a new handler, the count kept for a
    key is the number of errors that carried it, and the consecutive count
    kept for the key of the last error is the number of errors at the end
    of the run that carried that key one after the other. *)
Theorem trackError_counts (o : UserOptions) (infos : list ErrorInfo)
        (info : ErrorInfo) (key : jsstring) :
  let h := trackAll (newErrorHandler o) (infos ++ [info]) in
  countOf (errorCounts h) key = Z.of_nat (timesSeen key (infos ++ [info]))
  /\ countOf (consecutiveErrors h) (keyOf info)
     = Z.of_nat (trailingRun (keyOf info) (infos ++ [info])).
Proof.
  intros h. split.
  - subst h. rewrite trackAll_counts. reflexivity.
  - apply consecutive_run.
Qed.

(** The stop rule after any run of tracked errors: it fires exactly when
    the last [maxConsecutiveErrors] errors or more carried the same key, or
    the last error is a denied permission.  The list [errors] is never
    added to, so the rule on 50 errors in total never fires. *)
Theorem shouldStopProcessing_rule (o : UserOptions) (infos : list ErrorInfo)
        (info : ErrorInfo) :
  let h := trackAll (newErrorHandler o) (infos ++ [info]) in
  errors h = []
  /\ shouldStopProcessing h info
     = (Z.of_nat (trailingRun (keyOf info) (infos ++ [info]))
        >=? maxConsecutiveErrors (makeOptions o))%Z
       || ErrorKind_eqb (i_type info) PERMISSION_DENIED.
Proof.
  intros h.
  destruct (trackAll_keeps (newErrorHandler o) (infos ++ [info])) as [He Ho].
  destruct (consecutive_run o infos info) as [Hl Hc].
  fold h in He, Ho, Hl, Hc. split; [exact He|].
  unfold shouldStopProcessing. rewrite Hl, Hc, He, Ho. simpl.
  now destruct (_ >=? _)%Z.
Qed.

(** *** The statistics *)

Lemma splitOn_free (sep : N -> bool) (s seg : jsstring) (c : N) :
  In seg (Whatwg.splitOn sep s) -> In c seg -> sep c = false.
Proof.
  revert seg. induction s as [|x s IH]; simpl; intros seg Hseg Hc.
  - destruct Hseg as [<-|[]]. destruct Hc.
  - destruct (sep x) eqn:E.
    + destruct Hseg as [<-|Hseg]; [destruct Hc | now apply (IH seg)].
    + destruct (Whatwg.splitOn sep s) as [|seg0 segs].
      * destruct Hseg as [<-|[]]. destruct Hc as [<-|[]]. exact E.
      * destruct Hseg as [<-|Hseg].
        -- destruct Hc as [<-|Hc]; [exact E|]. apply (IH seg0); [now left | exact Hc].
        -- apply (IH seg); [now right | exact Hc].
Qed.

Lemma splitOn_head (sep : N -> bool) (a b : jsstring) (x : N) :
  forallb (fun c => negb (sep c)) a = true -> sep x = true ->
  Whatwg.splitOn sep (a ++ x :: b) = a :: Whatwg.splitOn sep b.
Proof.
  intros Ha Hx. induction a as [|c a IH]; simpl.
  - now rewrite Hx.
  - simpl in Ha. apply andb_true_iff in Ha as [Hc Ha].
    apply negb_true_iff in Hc. rewrite Hc, (IH Ha). reflexivity.
Qed.

Lemma kindName_plain (k : ErrorKind) :
  forallb (fun c => negb (N.eqb 58 c)) (kindName k) = true.
Proof. destruct k; reflexivity. Qed.

Lemma kindName_eqb (k k' : ErrorKind) :
  JS.eqb (kindName k) (kindName k') = ErrorKind_eqb k k'.
Proof. destruct k, k'; reflexivity. Qed.

(** The first piece of a key is the name of the kind. *)
Lemma splitKey_head (info : ErrorInfo) :
  nth 0 (splitKey (keyOf info)) [] = kindName (i_type info).
Proof.
  unfold splitKey, keyOf. simpl.
  rewrite (@splitOn_head (N.eqb 58) (kindName (i_type info)) _ 58%N);
    [reflexivity | apply kindName_plain | reflexivity].
Qed.

Section WithPlatform.

Context {P : Url.Platform}.

(** An absolute URL needs a scheme, and a scheme ends in a colon. *)
Hypothesis scheme_needed : forall s : jsstring, ~ In 58%N s -> Url.parse s = None.

Lemma countEntry_domains (byType byDomain : JsMap.t Z) (entry : jsstring * Z) :
  snd (countEntry (byType, byDomain) entry) = byDomain.
Proof.
  destruct entry as [key count]. unfold countEntry.
  destruct (nth_error (splitKey key) 1) as [url|] eqn:E; [|reflexivity].
  destruct (negb (JS.eqb url []) && negb (JS.eqb url (lit "unknown"))); [|reflexivity].
  rewrite scheme_needed; [reflexivity|].
  intros Hc. apply nth_error_In in E.
  pose proof (@splitOn_free _ _ _ _ E Hc) as F. discriminate F.
Qed.

Lemma countEntries_domains (entries : list (jsstring * Z)) :
  forall byType byDomain,
    snd (fold_left countEntry entries (byType, byDomain)) = byDomain.
Proof.
  induction entries as [|entry entries IH]; intros byType byDomain; [reflexivity|].
  cbn [fold_left]. pose proof (countEntry_domains byType byDomain entry) as H.
  destruct (countEntry (byType, byDomain) entry) as [bt bd]. simpl in H. subst bd.
  apply IH.
Qed.

Lemma getErrorStats_fields (h : Handler) :
  errorsByType (getErrorStats h) = fst (fold_left countEntry (errorCounts h) ([], []))
  /\ errorsByDomain (getErrorStats h)
     = snd (fold_left countEntry (errorCounts h) ([], []))
  /\ totalErrors (getErrorStats h) = length (errors h)
  /\ lastError (getErrorStats h) = last (map Some (errors h)) None.
Proof.
  unfold getErrorStats.
  destruct (fold_left countEntry (errorCounts h) ([], [])) as [bt bd].
  repeat split.
Qed.

(** [getErrorStats] attributes no error to a domain, whatever the handler
    has counted: the key is split at every colon, so what is taken for the
    URL is no more than the scheme of an absolute URL, and never parses.
    After any run of tracked errors it also reports a total of 0 and no
    last error, since the list [errors] is never added to. *)
Theorem getErrorStats_attributes_no_domain (o : UserOptions) (infos : list ErrorInfo)
        (h : Handler) :
  errorsByDomain (getErrorStats h) = []
  /\ totalErrors (getErrorStats (trackAll (newErrorHandler o) infos)) = O
  /\ lastError (getErrorStats (trackAll (newErrorHandler o) infos)) = None.
Proof.
  split; [|split].
  - destruct (getErrorStats_fields h) as (_ & -> & _).
    apply countEntries_domains.
  - destruct (getErrorStats_fields (trackAll (newErrorHandler o) infos))
      as (_ & _ & -> & _).
    now rewrite (proj1 (trackAll_keeps (newErrorHandler o) infos)).
  - destruct (getErrorStats_fields (trackAll (newErrorHandler o) infos))
      as (_ & _ & _ & ->).
    now rewrite (proj1 (trackAll_keeps (newErrorHandler o) infos)).
Qed.

End WithPlatform.

Section ByType.

Context {P : Url.Platform}.

Lemma countEntry_types (byType byDomain : JsMap.t Z) (entry : jsstring * Z) :
  fst (countEntry (byType, byDomain) entry)
  = JsMap.set byType (head (fst entry))
              (countOf byType (head (fst entry)) + snd entry)%Z.
Proof.
  destruct entry as [key count]. unfold countEntry, head. cbn [fst snd].
  destruct (nth_error (splitKey key) 1) as [url|]; [|reflexivity].
  destruct (negb (JS.eqb url []) && negb (JS.eqb url (lit "unknown"))); [|reflexivity].
  now destruct (Url.parse url).
Qed.

Lemma countEntries_types (entries : list (jsstring * Z)) (type : jsstring) :
  forall byType byDomain,
    countOf (fst (fold_left countEntry entries (byType, byDomain))) type
    = (countOf byType type
       + totalWhere (fun key => JS.eqb (head key) type) entries)%Z.
Proof.
  induction entries as [|entry entries IH]; intros byType byDomain;
    [simpl; lia|].
  unfold totalWhere in *. cbn [fold_left fold_right].
  pose proof (countEntry_types byType byDomain entry) as H. revert H.
  destruct (countEntry (byType, byDomain) entry) as [bt bd]. simpl. intros ->.
  rewrite IH, countOf_set.
  destruct (JS.eqb (head (fst entry)) type) eqn:E; [|lia].
  apply JSFacts.eqb_eq in E. subst type. lia.
Qed.

Lemma totalWhere_set (p : jsstring -> bool) (m : JsMap.t Z) (key : jsstring) :
  totalWhere p (JsMap.set m key (countOf m key + 1)%Z)
  = (totalWhere p m + if p key then 1 else 0)%Z.
Proof.
  induction m as [|[k v] m IH]; simpl.
  - unfold countOf. simpl. destruct (p key); lia.
  - unfold countOf in *. simpl. destruct (JS.eqb k key) eqn:E; simpl.
    + apply JSFacts.eqb_eq in E. subst k. destruct (p key); lia.
    + rewrite IH. destruct (p k); lia.
Qed.

Lemma trackAll_totals (k : ErrorKind) (infos : list ErrorInfo) :
  forall h,
    totalWhere (fun key => JS.eqb (head key) (kindName k))
               (errorCounts (trackAll h infos))
    = (totalWhere (fun key => JS.eqb (head key) (kindName k)) (errorCounts h)
       + Z.of_nat (timesOfKind k infos))%Z.
Proof.
  induction infos as [|i infos IH]; intros h.
  - unfold timesOfKind. simpl. lia.
  - change (trackAll h (i :: infos)) with (trackAll (fst (trackError h i)) infos).
    rewrite IH. simpl. rewrite totalWhere_set.
    change (head (keyOf i)) with (nth 0 (splitKey (keyOf i)) []).
    rewrite splitKey_head, kindName_eqb.
    unfold timesOfKind. simpl. destruct (ErrorKind_eqb (i_type i) k); simpl; lia.
Qed.

(** After any run of errors tracked by a new handler, [getErrorStats]
    reports under each kind of error the number of tracked errors of that
    kind, whatever their URLs. *)
Theorem getErrorStats_counts_by_type (o : UserOptions) (infos : list ErrorInfo)
        (k : ErrorKind) :
  countOf (errorsByType (getErrorStats (trackAll (newErrorHandler o) infos)))
          (kindName k)
  = Z.of_nat (timesOfKind k infos).
Proof.
  destruct (getErrorStats_fields (trackAll (newErrorHandler o) infos)) as (-> & _).
  rewrite countEntries_types, trackAll_totals. reflexivity.
Qed.

End ByType.

(** The parser of the URL Standard asks for a colon. *)
Lemma dropWhile_In (p : N -> bool) (s : jsstring) (c : N) :
  In c (Whatwg.dropWhile p s) -> In c s.
Proof.
  induction s as [|x s IH]; simpl; [tauto|].
  destruct (p x); [intros H; right; now apply IH | tauto].
Qed.

Lemma preprocess_In (s : jsstring) (c : N) : In c (Whatwg.preprocess s) -> In c s.
Proof.
  unfold Whatwg.preprocess. intros H.
  apply filter_In in H as [H _]. apply in_rev in H.
  apply dropWhile_In in H. apply in_rev in H. now apply dropWhile_In in H.
Qed.

Lemma schemeSpan_colon (s : jsstring) :
  forall a r, Whatwg.schemeSpan s = Some (a, r) -> In 58%N s.
Proof.
  induction s as [|c s IH]; simpl; intros a r H; [discriminate|].
  destruct (N.eqb_spec c 58) as [->|_]; [now left|].
  destruct (Whatwg.isSchemeChar c); [|discriminate].
  destruct (Whatwg.schemeSpan s) as [[a' r']|]; [|discriminate].
  right. now apply (IH a' r').
Qed.

Lemma whatwg_scheme_needed (s : jsstring) :
  ~ In 58%N s -> @Url.parse Whatwg.platform s = None.
Proof.
  intros H. simpl. unfold Whatwg.basicParse.
  destruct (existsb Whatwg.unmodelledChar (Whatwg.preprocess s)); [reflexivity|].
  destruct (Whatwg.splitScheme (Whatwg.preprocess s)) as [[sch rest]|] eqn:E;
    [|reflexivity].
  exfalso. apply H, preprocess_In. unfold Whatwg.splitScheme in E.
  destruct (Whatwg.preprocess s) as [|c p]; [discriminate|].
  destruct (Whatwg.isAlpha c); [|discriminate].
  now apply (schemeSpan_colon _ E).
Qed.

(** The theorem at work: three timeouts on one page and a page not found
    are counted under two keys, and under no domain. *)
Lemma getErrorStats_attributes_no_domain_witness :
  let h := trackAll (newErrorHandler (mkUserOptions None None None)) sampleErrors in
  map snd (errorCounts h) = [3%Z; 1%Z]
  /\ (errorsByDomain (@getErrorStats Whatwg.platform h) = []
      /\ totalErrors (@getErrorStats Whatwg.platform h) = O
      /\ lastError (@getErrorStats Whatwg.platform h) = None).
Proof.
  split; [vm_compute; reflexivity|].
  apply (@getErrorStats_attributes_no_domain Whatwg.platform whatwg_scheme_needed).
Defined.

End ErrorTrackingFacts.

(** ** Maps in insertion order *)

Module JsMapFacts.

Section WithValue.

Variable V : Type.

Implicit Types (m : JsMap.t V) (k : jsstring) (v : V).

Lemma map_get_In m k v : JsMap.get m k = Some v -> In (k, v) m.
Proof.
  induction m as [|[k0 v0] m IH]; simpl; [discriminate|].
  destruct (JS.eqb k0 k) eqn:E.
  - apply JSFacts.eqb_eq in E. subst k0. intros H. injection H as <-. now left.
  - intros H. right. now apply IH.
Qed.

Lemma map_get_None m k : JsMap.get m k = None <-> ~ In k (map fst m).
Proof.
  induction m as [|[k0 v0] m IH]; simpl; [tauto|].
  destruct (JS.eqb k0 k) eqn:E.
  - apply JSFacts.eqb_eq in E. subst k0. split; [discriminate | tauto].
  - apply JSFacts.eqb_neq in E. rewrite IH. tauto.
Qed.

(** Writing a key leaves the keys as they are when the key is there, and
    puts it last when it is new. *)
Lemma map_keys_set m k v :
  map fst (JsMap.set m k v)
  = if arrayIncludes (map fst m) k then map fst m else map fst m ++ [k].
Proof.
  unfold arrayIncludes. induction m as [|[k0 v0] m IH]; simpl; [reflexivity|].
  rewrite (JSFacts.eqb_sym k k0).
  destruct (JS.eqb k0 k) eqn:E; simpl; [reflexivity|].
  rewrite IH. now destruct (existsb (JS.eqb k) (map fst m)).
Qed.

Lemma map_set_NoDup m k v : NoDup (map fst m) -> NoDup (map fst (JsMap.set m k v)).
Proof.
  intros H. rewrite map_keys_set.
  destruct (arrayIncludes (map fst m) k) eqn:E; [exact H|].
  apply NoDup_app; [exact H | repeat constructor; intros [] |].
  intros x Hx [<-|[]].
  apply JSFacts.arrayIncludes_In in Hx. congruence.
Qed.

Lemma map_delete_keys m k x : In x (map fst (JsMap.delete m k)) -> In x (map fst m).
Proof.
  induction m as [|[k0 v0] m IH]; simpl; [tauto|].
  destruct (JS.eqb k0 k); simpl; [tauto|]. intros [H|H]; [now left | right; auto].
Qed.

Lemma map_delete_NoDup m k : NoDup (map fst m) -> NoDup (map fst (JsMap.delete m k)).
Proof.
  induction m as [|[k0 v0] m IH]; simpl; [constructor|].
  intros H. inversion H as [|? ? Hn Hm]; subst.
  destruct (JS.eqb k0 k); simpl; [exact Hm|].
  constructor; [|now apply IH]. intros Hx. apply Hn. now apply (map_delete_keys m k).
Qed.

(** A deleted key is gone. *)
Lemma map_get_delete m k : NoDup (map fst m) -> JsMap.get (JsMap.delete m k) k = None.
Proof.
  induction m as [|[k0 v0] m IH]; simpl; [reflexivity|].
  intros H. inversion H as [|? ? Hn Hm]; subst.
  destruct (JS.eqb k0 k) eqn:E; simpl.
  - apply JSFacts.eqb_eq in E. subst k0. now apply map_get_None.
  - rewrite E. now apply IH.
Qed.

Lemma map_get_delete_other m k k' :
  k <> k' -> JsMap.get (JsMap.delete m k) k' = JsMap.get m k'.
Proof.
  intros H. induction m as [|[k0 v0] m IH]; simpl; [reflexivity|].
  destruct (JS.eqb k0 k) eqn:E; simpl.
  - apply JSFacts.eqb_eq in E. subst k0.
    destruct (JS.eqb k k') eqn:E'; [|reflexivity].
    apply JSFacts.eqb_eq in E'. contradiction.
  - now rewrite IH.
Qed.

Lemma map_get_set_other m k k' v :
  k <> k' -> JsMap.get (JsMap.set m k v) k' = JsMap.get m k'.
Proof.
  intros H. rewrite CompletenessFacts.map_get_set.
  destruct (JS.eqb k k') eqn:E; [|reflexivity].
  apply JSFacts.eqb_eq in E. contradiction.
Qed.

Lemma map_get_set_same m k v : JsMap.get (JsMap.set m k v) k = Some v.
Proof. now rewrite CompletenessFacts.map_get_set, JSFacts.eqb_refl. Qed.

Lemma ofEntries_NoDup (entries : list (jsstring * V)) :
  NoDup (map fst (JsMap.ofEntries entries)).
Proof.
  unfold JsMap.ofEntries.
  assert (G : forall m, NoDup (map fst m) ->
                        NoDup (map fst (fold_left (fun m kv => JsMap.set m (fst kv) (snd kv))
                                                  entries m))).
  { induction entries as [|[k v] entries IH]; intros m Hm; [exact Hm|].
    simpl. apply IH. now apply map_set_NoDup. }
  apply G. constructor.
Qed.

Variable good : V -> Prop.

Lemma map_get_good m k v :
  Forall (fun entry => good (snd entry)) m -> JsMap.get m k = Some v -> good v.
Proof.
  intros H G. apply map_get_In in G. rewrite Forall_forall in H. exact (H _ G).
Qed.

Lemma map_set_good m k v :
  Forall (fun entry => good (snd entry)) m -> good v ->
  Forall (fun entry => good (snd entry)) (JsMap.set m k v).
Proof.
  intros H Hv. induction m as [|[k0 v0] m IH]; simpl.
  - constructor; [exact Hv | constructor].
  - inversion H as [|? ? H0 Hm]; subst.
    destruct (JS.eqb k0 k); constructor; auto.
Qed.

Lemma map_delete_good m k :
  Forall (fun entry => good (snd entry)) m ->
  Forall (fun entry => good (snd entry)) (JsMap.delete m k).
Proof.
  intros H. induction m as [|[k0 v0] m IH]; simpl; [constructor|].
  inversion H as [|? ? H0 Hm]; subst.
  destruct (JS.eqb k0 k); [exact Hm | constructor; auto].
Qed.

End WithValue.

End JsMapFacts.

(** ** Rate limiter: soundness, progress and bounds *)

Module RateLimiterBounds.

Import RateLimiter RateLimiterOps RateLimiterSpec RateLimiterCases.

Local Open Scope Q_scope.

Lemma level_spec (b : TokenBucket) (now : Z) :
  0 < interval b ->
  level b now == Qmin (maxBurst b) (tokens b + inject_Z (now - lastFill b) * rate b).
Proof.
  intros Hi. unfold level, fillBucket, rate. simpl. rewrite Qred_correct.
  apply Q.min_compat; [reflexivity|]. field. lra.
Qed.

Lemma rate_pos (b : TokenBucket) :
  0 < tokensPerInterval b -> 0 < interval b -> 0 < rate b.
Proof.
  intros Ht Hi. unfold rate. apply Qlt_shift_div_l; [exact Hi | lra].
Qed.

Lemma fill_sound (b : TokenBucket) (now : Z) :
  sound b -> (lastFill b <= now)%Z -> sound (fillBucket b now).
Proof.
  intros (Ht & Hi & H0 & Hm) Hn.
  pose proof (level_spec b now Hi) as L. unfold level in L.
  pose proof (rate_pos b Ht Hi) as R.
  assert (D : 0 <= inject_Z (now - lastFill b)).
  { rewrite <- (Zle_Qle 0). lia. }
  repeat split; try assumption.
  - rewrite L. apply Q.min_glb; [lra | nra].
  - rewrite L. apply Q.le_min_l.
Qed.

Lemma tryTake_cases (b : TokenBucket) (now : Z) :
  (1 <= level b now
   /\ fst (tryTake b now) = true
   /\ tokens (snd (tryTake b now)) == level b now - 1
   /\ sameSettings b (snd (tryTake b now))
   /\ lastFill (snd (tryTake b now)) = now)
  \/ (level b now < 1 /\ tryTake b now = (false, fillBucket b now)).
Proof.
  unfold tryTake, level.
  destruct (Qle_bool 1 (tokens (fillBucket b now))) eqn:E.
  - left. apply Qle_bool_iff in E. cbn [fst snd tokens].
    split; [exact E|]. split; [reflexivity|]. split; [apply Qred_correct|].
    repeat split.
  - right. split; [|reflexivity].
    apply Qnot_le_lt. intros H. apply Qle_bool_iff in H. congruence.
Qed.

Lemma getWaitTime_cases (b : TokenBucket) (now : Z) :
  snd (getWaitTime b now) = fillBucket b now
  /\ ((1 <= level b now /\ fst (getWaitTime b now) = 0)
      \/ (level b now < 1
          /\ fst (getWaitTime b now)
             == (1 - level b now) * interval b / tokensPerInterval b)).
Proof.
  unfold getWaitTime, level.
  destruct (Qle_bool 1 (tokens (fillBucket b now))) eqn:E; cbn [fst snd].
  - split; [reflexivity|]. left. apply Qle_bool_iff in E. now split.
  - split; [reflexivity|]. right. split.
    + apply Qnot_le_lt. intros H. apply Qle_bool_iff in H. congruence.
    + apply Qred_correct.
Qed.

(** A sound bucket stays sound: whenever the clock has not gone back,
    filling, taking and asking for the wait leave between no token and a
    full burst in it, and the wait answered is never negative. *)
Theorem bucket_stays_sound (b : TokenBucket) (now : Z) :
  sound b -> (lastFill b <= now)%Z ->
  sound (fillBucket b now)
  /\ sound (snd (tryTake b now))
  /\ sound (snd (getWaitTime b now))
  /\ 0 <= fst (getWaitTime b now).
Proof.
  intros Hs Hn. pose proof (fill_sound Hs Hn) as F.
  split; [exact F|]. split; [|split].
  - destruct (tryTake_cases b now) as [(H1 & _ & Ht & (S1 & S2 & S3) & _) | (_ & ->)];
      [|exact F].
    destruct F as (Ft & Fi & F0 & Fm). unfold level in *.
    unfold sound. rewrite S1, S2, S3, Ht.
    destruct Hs as (Ht' & Hi' & _).
    change (maxBurst (fillBucket b now)) with (maxBurst b) in Fm.
    repeat split; try assumption; lra.
  - now rewrite (proj1 (getWaitTime_cases b now)).
  - destruct (getWaitTime_cases b now) as [_ [[_ ->] | [Hl ->]]]; [lra|].
    destruct Hs as (Ht & Hi & _).
    apply Qle_shift_div_l; [exact Ht|]. nra.
Qed.

Lemma bucket_stays_sound_witness :
  let b := newTokenBucket 2 1000 (Some 5) t0 in
  sound (fillBucket b (t0 + 250))
  /\ sound (snd (tryTake b (t0 + 250)))
  /\ sound (snd (getWaitTime b (t0 + 250)))
  /\ 0 <= fst (getWaitTime b (t0 + 250)).
Proof.
  apply bucket_stays_sound.
  - unfold sound. simpl. repeat split; lra.
  - unfold t0. simpl. lia.
Defined.

(** *** One pass through the token loop *)

Lemma takeLoop_step (fuel : nat) (o : Options) (b : TokenBucket) (now : Z) :
  0 < interval b -> level b now < 1 ->
  exists d : Z,
    (1 <= d)%Z
    /\ takeLoop (S fuel) o b now
       = takeLoop fuel o (fillBucket (fillBucket b now) now) (now + d)%Z.
Proof.
  intros Hi Hl. cbn [takeLoop].
  destruct (tryTake_cases b now) as [(H1 & _) | (_ & ->)]; [lra|].
  destruct (getWaitTime (fillBucket b now) now) as [w b2] eqn:E.
  pose proof (proj1 (getWaitTime_cases (fillBucket b now) now)) as E2.
  rewrite E in E2. simpl in E2. subst b2.
  exists (timerDuration (Qmin w (maxDelayMs o))).
  split; [apply RateLimiterFacts.timerDuration_pos | reflexivity].
Qed.

(** *** A burst of less than one token *)

Lemma takeLoop_never (fuel : nat) (o : Options) :
  forall (b : TokenBucket) (now : Z),
    0 < interval b -> maxBurst b < 1 -> takeLoop fuel o b now = None.
Proof.
  induction fuel as [|fuel IH]; intros b now Hi Hm; [reflexivity|].
  assert (L : level b now < 1).
  { rewrite level_spec by exact Hi.
    pose proof (Q.le_min_l (maxBurst b)
                           (tokens b + inject_Z (now - lastFill b) * rate b)).
    lra. }
  destruct (takeLoop_step fuel o b now Hi L) as (d & _ & ->).
  apply IH; assumption.
Qed.

(** A limiter whose burst is less than one token never lets a call through:
    the bucket is capped below the one token a call needs, so
    [waitForRateLimit] loops for ever, whatever the rate and the domain. *)
Theorem starved_limiter_never_completes (o : UserOptions) (fuel : nat)
        (d : jsstring) (now : Z) :
  0 < requestsPerSecond (makeOptions o) -> capacity (makeOptions o) < 1 ->
  waitForRateLimit fuel (newDomainRateLimiter o) d now = None.
Proof.
  intros Hr Hc. unfold waitForRateLimit, getLimiter. simpl.
  rewrite takeLoop_never; [reflexivity | simpl; lra | exact Hc].
Qed.

Lemma starved_limiter_never_completes_witness :
  waitForRateLimit 1000 (newDomainRateLimiter halfBurst) domain t0 = None.
Proof.
  apply starved_limiter_never_completes; vm_compute; reflexivity.
Defined.

(** *** The minimum spacing is kept *)

Lemma timerDuration_whole (z : Z) :
  (1 <= z <= 2147483647)%Z -> timerDuration (inject_Z z) = z.
Proof.
  intros H. unfold timerDuration. simpl. rewrite Z.div_1_r.
  destruct (Z.ltb_spec z 1); [lia|].
  destruct (Z.ltb_spec 2147483647 z); [lia | reflexivity].
Qed.

Lemma spacingDelay_whole (o : Options) (m lastRequest now : Z) :
  minDelayMs o = inject_Z m -> (0 <= m <= 2147483647)%Z -> (lastRequest <= now)%Z ->
  (lastRequest + m <= now + spacingDelay o lastRequest now)%Z.
Proof.
  intros Hm Hr Hl. unfold spacingDelay. rewrite Hm.
  destruct (Qlt_le_dec (inject_Z (now - lastRequest)) (inject_Z m)) as [L|L].
  - rewrite <- Zlt_Qlt in L.
    assert (E : inject_Z m - inject_Z (now - lastRequest)
                == inject_Z (m - (now - lastRequest))).
    { unfold Z.sub at 2. rewrite inject_Z_plus, inject_Z_opp. reflexivity. }
    assert (T : timerDuration (inject_Z m - inject_Z (now - lastRequest))
                = timerDuration (inject_Z (m - (now - lastRequest)))).
    { unfold timerDuration.
      change (Qnum ?q / Z.pos (Qden ?q))%Z with (Qfloor q).
      now rewrite (Qfloor_comp _ _ E). }
    rewrite T, timerDuration_whole; lia.
  - rewrite <- Zle_Qle in L. lia.
Qed.

(** Between calls made one after the other the minimum spacing is kept: a
    call entered after the domain's last request was recorded completes at
    least [minDelayMs] after it, and becomes the domain's last request.
    (The spacing is a whole number of milliseconds within the range of a
    timer, as the default of 500 is.)  Calls that are in flight together
    are not covered: they all read the same last request. *)
Theorem spacing_is_kept (fuel : nat) (l l' : DomainRateLimiter) (d : jsstring)
        (m lastRequest now now' : Z) :
  minDelayMs (options l) = inject_Z m -> (0 <= m <= 2147483647)%Z ->
  JsMap.get (lastRequestTime l) d = Some lastRequest -> (lastRequest <= now)%Z ->
  waitForRateLimit fuel l d now = Some (l', now') ->
  (lastRequest + m <= now')%Z /\ JsMap.get (lastRequestTime l') d = Some now'.
Proof.
  intros Hm Hr Hg Hl H. split.
  - pose proof (@RateLimiterFacts.spacing_precedes_tokens fuel l l' d lastRequest now now' Hg H) as P.
    pose proof (@spacingDelay_whole (options l) m lastRequest now Hm Hr Hl). lia.
  - revert H. unfold waitForRateLimit.
    destruct (getLimiter l d now) as [b l1].
    destruct (takeLoop _ _ _ _) as [[b1 t1]|]; [|discriminate].
    intros H. injection H as <- <-. simpl.
    now rewrite CompletenessFacts.map_get_set, JSFacts.eqb_refl.
Qed.

Lemma spacing_is_kept_witness :
  let l := mkLimiter (makeOptions rate2burst5) [] [(domain, t0)] in
  exists l',
    waitForRateLimit 8 l domain (t0 + 120) = Some (l', (t0 + 500)%Z)
    /\ ((t0 + 500 <= t0 + 500)%Z
        /\ JsMap.get (lastRequestTime l') domain = Some (t0 + 500)%Z).
Proof.
  intros l. eexists. split; [vm_compute; reflexivity|].
  apply (@spacing_is_kept 8 l _ domain 500 t0 (t0 + 120) (t0 + 500)).
  - reflexivity.
  - lia.
  - reflexivity.
  - lia.
  - vm_compute. reflexivity.
Defined.

(** *** One domain at a time *)

(** A call for one domain, and the clearing of one domain, leave every
    other domain's bucket and last request time as they were. *)
Theorem domains_are_separate (fuel : nat) (l l' : DomainRateLimiter)
        (d other : jsstring) (now now' : Z) :
  d <> other ->
  waitForRateLimit fuel l d now = Some (l', now') ->
  (JsMap.get (limiters l') other = JsMap.get (limiters l) other
   /\ JsMap.get (lastRequestTime l') other = JsMap.get (lastRequestTime l) other)
  /\ (JsMap.get (limiters (clearDomain l d)) other = JsMap.get (limiters l) other
      /\ JsMap.get (lastRequestTime (clearDomain l d)) other
         = JsMap.get (lastRequestTime l) other).
Proof.
  intros Hd H. split.
  - revert H. unfold waitForRateLimit, getLimiter.
    destruct (JsMap.get (limiters l) d) as [b|]; simpl;
      destruct (takeLoop _ _ _ _) as [[b1 t1]|]; try discriminate;
      intros H; injection H as <- <-; simpl;
      rewrite ?JsMapFacts.map_get_set_other by exact Hd; split; reflexivity.
  - split; simpl; now apply JsMapFacts.map_get_delete_other.
Qed.

Lemma domains_are_separate_witness :
  let l := mkLimiter (makeOptions rate2burst5) [] [(lit "www.hdfc.com", t0)] in
  exists l',
    waitForRateLimit 8 l domain t0 = Some (l', t0)
    /\ ((JsMap.get (limiters l') (lit "www.hdfc.com")
         = JsMap.get (limiters l) (lit "www.hdfc.com")
         /\ JsMap.get (lastRequestTime l') (lit "www.hdfc.com")
            = JsMap.get (lastRequestTime l) (lit "www.hdfc.com"))
        /\ (JsMap.get (limiters (clearDomain l domain)) (lit "www.hdfc.com")
            = JsMap.get (limiters l) (lit "www.hdfc.com")
            /\ JsMap.get (lastRequestTime (clearDomain l domain)) (lit "www.hdfc.com")
               = JsMap.get (lastRequestTime l) (lit "www.hdfc.com"))).
Proof.
  intros l. eexists. split; [vm_compute; reflexivity|].
  apply (@domains_are_separate 8 l _ domain (lit "www.hdfc.com") t0 t0).
  - intros E. apply JSFacts.eqb_eq in E. vm_compute in E. discriminate E.
  - vm_compute. reflexivity.
Defined.

(** *** Clearing a domain *)

Lemma wait_tidy (fuel : nat) (l l' : DomainRateLimiter) (d : jsstring) (now now' : Z) :
  tidy l -> waitForRateLimit fuel l d now = Some (l', now') -> tidy l'.
Proof.
  intros [Hl Ht]. unfold waitForRateLimit, getLimiter.
  destruct (JsMap.get (limiters l) d) as [b|]; simpl;
    destruct (takeLoop _ _ _ _) as [[b1 t1]|]; try discriminate;
    intros H; injection H as <- <-; split; simpl;
    repeat apply JsMapFacts.map_set_NoDup; assumption.
Qed.

Lemma run_tidy (fuel : nat) (ops : list Op) :
  forall (l l' : DomainRateLimiter) (now now' : Z),
    tidy l -> run fuel l now ops = Some (l', now') -> tidy l'.
Proof.
  induction ops as [|[d pause|d] ops IH]; intros l l' now now' Hl; cbn [run].
  - intros H. now injection H as <- <-.
  - destruct (waitForRateLimit fuel l d (now + pause)) as [[l1 t1]|] eqn:E;
      [|discriminate].
    intros H. apply (IH l1 l' t1 now'); [eapply wait_tidy; eassumption | exact H].
  - intros H. apply (IH (clearDomain l d) l' now now'); [|exact H].
    destruct Hl as [H1 H2].
    split; simpl; now apply JsMapFacts.map_delete_NoDup.
Qed.

(** Clearing a domain makes the limiter forget it: whatever calls and
    clearings a new limiter has been through, after [clearDomain] the next
    call for the domain works with a fresh, full bucket and finds no last
    request to keep its distance from. *)
Theorem clearDomain_starts_anew (o : UserOptions) (fuel : nat) (ops : list Op)
        (start finish : Z) (l : DomainRateLimiter) (d : jsstring) (now : Z) :
  run fuel (newDomainRateLimiter o) start ops = Some (l, finish) ->
  bucketAt (clearDomain l d) d now
  = newTokenBucket (requestsPerSecond (options l)) 1000
                   (Some (burstSize (options l))) now
  /\ JsMap.get (lastRequestTime (clearDomain l d)) d = None.
Proof.
  intros H.
  assert (T : tidy l).
  { eapply run_tidy; [|exact H]. split; constructor. }
  destruct T as [T1 T2]. split.
  - unfold bucketAt, getLimiter. simpl.
    now rewrite (@JsMapFacts.map_get_delete _ (limiters l) d T1).
  - simpl. now apply JsMapFacts.map_get_delete.
Qed.

Lemma clearDomain_starts_anew_witness :
  exists l,
    run 8 (newDomainRateLimiter rate2burst5) t0 [Wait domain 0; Wait domain 0]
    = Some (l, (t0 + 500)%Z)
    /\ tokens (bucketAt l domain (t0 + 500)) = 4
    /\ (bucketAt (clearDomain l domain) domain (t0 + 500)
        = newTokenBucket (requestsPerSecond (options l)) 1000
                         (Some (burstSize (options l))) (t0 + 500)
        /\ JsMap.get (lastRequestTime (clearDomain l domain)) domain = None).
Proof.
  eexists. split; [vm_compute; reflexivity|]. split; [vm_compute; reflexivity|].
  eapply (@clearDomain_starts_anew rate2burst5 8 [Wait domain 0; Wait domain 0] t0).
  vm_compute. reflexivity.
Defined.

End RateLimiterBounds.

(** ** Link triage: duplicates, counts, scores *)

Module TriageFacts.

Import Url LinkHandler LinkHandlerSpec AggregatorSpec TriageSpec.

Lemma In_get (V : Type) (m : JsMap.t V) (k : jsstring) (v : V) :
  NoDup (map fst m) -> In (k, v) m -> JsMap.get m k = Some v.
Proof.
  induction m as [|[k0 v0] m IH]; simpl; [tauto|].
  intros H. inversion H as [|? ? Hn Hm]; subst.
  intros [E|Hin].
  - injection E as -> ->. now rewrite JSFacts.eqb_refl.
  - destruct (JS.eqb k0 k) eqn:E; [|now apply IH].
    apply JSFacts.eqb_eq in E. subst k0. exfalso. apply Hn.
    apply in_map_iff. now exists (k, v).
Qed.

Lemma find_split (A : Type) (p : A -> bool) (l : list A) (x : A) :
  find p l = Some x -> exists a b, l = a ++ x :: b /\ find p a = None.
Proof.
  induction l as [|y l IH]; simpl; [discriminate|].
  destruct (p y) eqn:E.
  - intros H. injection H as ->. now exists [], l.
  - intros H. destruct (IH H) as (a & b & -> & Ha).
    exists (y :: a), b. split; [reflexivity|]. simpl. now rewrite E.
Qed.

Lemma find_nowhere (A : Type) (p : A -> bool) (l : list A) :
  (forall x, In x l -> p x = false) -> find p l = None.
Proof.
  induction l as [|y l IH]; simpl; [reflexivity|].
  intros H. rewrite (H y) by now left. apply IH. intros x Hx. apply H. now right.
Qed.

(** The map that [uniqueByHref] builds, link by link. *)
Lemma uniqueByHref_fold (ls : list ProcessedLink) :
  uniqueByHref ls
  = map snd (fold_left (fun m l => JsMap.set m (l_href l) l) ls []).
Proof.
  unfold uniqueByHref, JsMap.values, JsMap.ofEntries. f_equal.
  generalize (@nil (jsstring * ProcessedLink)).
  induction ls as [|l ls IH]; intros m; simpl; [reflexivity | apply IH].
Qed.

Lemma byHref_get (ls : list ProcessedLink) :
  forall m k,
    JsMap.get (fold_left (fun m l => JsMap.set m (l_href l) l) ls m) k
    = match find (fun l => JS.eqb (l_href l) k) (rev ls) with
      | Some l => Some l
      | None => JsMap.get m k
      end.
Proof.
  induction ls as [|l ls IH]; intros m k; simpl; [reflexivity|].
  rewrite IH, AggregatorFacts.find_over_app.
  destruct (find _ (rev ls)); [reflexivity|]. simpl.
  rewrite CompletenessFacts.map_get_set. now destruct (JS.eqb (l_href l) k).
Qed.

Lemma byHref_keys (ls : list ProcessedLink) :
  forall m,
    map fst (fold_left (fun m l => JsMap.set m (l_href l) l) ls m)
    = map fst m ++ firstSeen (map fst m) (map l_href ls).
Proof.
  induction ls as [|l ls IH]; intros m; simpl; [now rewrite app_nil_r|].
  rewrite IH, JsMapFacts.map_keys_set.
  destruct (arrayIncludes (map fst m) (l_href l)); [reflexivity|].
  rewrite <- app_assoc. simpl. do 2 f_equal.
  apply AggregatorFacts.firstSeen_ext. intros y. unfold arrayIncludes.
  rewrite existsb_app. simpl. rewrite orb_false_r. apply orb_comm.
Qed.

Lemma byHref_entries (ls : list ProcessedLink) :
  forall m,
    (forall kv, In kv m -> fst kv = l_href (snd kv)) ->
    forall kv, In kv (fold_left (fun m l => JsMap.set m (l_href l) l) ls m) ->
               fst kv = l_href (snd kv).
Proof.
  induction ls as [|l ls IH]; intros m Hm kv; simpl; [apply Hm|].
  apply IH. intros kv' H.
  apply LinkHandlerFacts.set_entries_In in H as [->|H]; [reflexivity | now apply Hm].
Qed.

Lemma byHref_NoDup (ls : list ProcessedLink) :
  forall m, NoDup (map fst m) ->
            NoDup (map fst (fold_left (fun m l => JsMap.set m (l_href l) l) ls m)).
Proof.
  induction ls as [|l ls IH]; intros m Hm; simpl; [exact Hm|].
  apply IH. now apply JsMapFacts.map_set_NoDup.
Qed.

Lemma uniqueByHref_hrefs (ls : list ProcessedLink) :
  map l_href (uniqueByHref ls) = firstSeen [] (map l_href ls).
Proof.
  rewrite uniqueByHref_fold, map_map.
  transitivity (map fst (fold_left (fun m l => JsMap.set m (l_href l) l) ls [])).
  - apply map_ext_in. intros kv H. symmetry.
    now apply (byHref_entries ls [] (fun kv' (F : In kv' []) => match F with end)).
  - now rewrite byHref_keys.
Qed.

(** Of the links that share an [href], [uniqueByHref] keeps the last one,
    with its text and title, at the place where the [href] was first seen:
    a link comes out exactly when no later link has its [href], and the
    [href]s come out in the order of first appearance. *)
Theorem uniqueByHref_keeps_last (ls : list ProcessedLink) (l : ProcessedLink) :
  (In l (uniqueByHref ls)
   <-> exists before after,
         ls = before ++ l :: after /\ ~ In (l_href l) (map l_href after))
  /\ map l_href (uniqueByHref ls) = firstSeen [] (map l_href ls).
Proof.
  split; [|apply uniqueByHref_hrefs].
  rewrite uniqueByHref_fold.
  set (m := fold_left (fun m l => JsMap.set m (l_href l) l) ls []).
  assert (Hn : NoDup (map fst m)) by (apply byHref_NoDup; constructor).
  assert (Hg : forall k, JsMap.get m k
                         = find (fun l => JS.eqb (l_href l) k) (rev ls)).
  { intros k. unfold m. rewrite byHref_get. now destruct (find _ _). }
  split.
  - intros H. apply in_map_iff in H as [[k v] [E H]]. simpl in E. subst v.
    assert (Ek : k = l_href l).
    { apply (byHref_entries ls [] (fun kv' (F : In kv' []) => match F with end) (k, l) H). }
    subst k. apply In_get in H; [|exact Hn]. rewrite Hg in H.
    apply find_split in H as (a & b & Hr & Ha).
    exists (rev b), (rev a). split.
    + rewrite <- (rev_involutive ls), Hr, rev_app_distr. simpl.
      now rewrite <- app_assoc.
    + intros Hin. apply in_map_iff in Hin as [x [Ex Hx]].
      apply in_rev in Hx.
      pose proof (find_none _ _ Ha x Hx) as F. simpl in F.
      rewrite Ex, JSFacts.eqb_refl in F. discriminate.
  - intros (before & after & -> & Hafter).
    apply in_map_iff. exists (l_href l, l). split; [reflexivity|].
    apply JsMapFacts.map_get_In. rewrite Hg, rev_app_distr. simpl.
    rewrite <- app_assoc, AggregatorFacts.find_over_app.
    rewrite find_nowhere.
    + simpl. now rewrite JSFacts.eqb_refl.
    + intros x Hx. apply in_rev in Hx.
      destruct (JS.eqb (l_href x) (l_href l)) eqn:E; [|reflexivity].
      apply JSFacts.eqb_eq in E. exfalso. apply Hafter.
      apply in_map_iff. now exists x.
Qed.

Section WithPlatform.

Context {P : Platform}.
Variable settings : Settings.t.

Lemma processLoop_lengths (baseDomain : jsstring) (clock : nat -> jsstring)
      (links : list RawLink) :
  forall i,
    length (fst (processLoop settings baseDomain clock i links))
    + length (snd (processLoop settings baseDomain clock i links))
    <= length links.
Proof.
  induction links as [|link links IH]; intros i; simpl; [lia|].
  specialize (IH (S i)).
  destruct (processLoop settings baseDomain clock (S i) links) as [processed errs].
  simpl in IH. destruct (processLink settings baseDomain (clock i) link); simpl; lia.
Qed.

Lemma uniqueByHref_shorter (ls : list ProcessedLink) :
  length (uniqueByHref ls) <= length ls.
Proof.
  rewrite <- (length_map l_href (uniqueByHref ls)), <- (length_map l_href ls).
  apply NoDup_incl_length.
  - rewrite uniqueByHref_hrefs. apply AggregatorFacts.firstSeen_NoDup.
  - intros x Hx. apply in_map_iff in Hx as [l [<- Hl]].
    apply in_map. now apply LinkHandlerFacts.uniqueByHref_In.
Qed.

(** What [processLinks] answers hangs together: no [href] comes out twice;
    every link that comes out is either a page or a PDF, never both; and
    the statistics agree with the lists, the valid links being the pages
    and the PDFs together and, with the links that threw, no more than the
    links given. *)
Theorem processLinks_is_consistent (clock : nat -> jsstring) (links : list RawLink)
        (baseDomain : jsstring) :
  let r := processLinks settings clock links baseDomain in
  NoDup (map l_href (allLinks r))
  /\ (forall l, In l (allLinks r) <-> In l (internalLinks r) \/ In l (pdfLinks r))
  /\ (forall l, In l (internalLinks r) -> ~ In l (pdfLinks r))
  /\ validLinks (stats r) = internalPages (stats r) + pdfFiles (stats r)
  /\ validLinks (stats r) + errorCount (stats r) <= totalProcessed (stats r)
  /\ (validLinks (stats r) = length (allLinks r)
      /\ internalPages (stats r) = length (internalLinks r)
      /\ pdfFiles (stats r) = length (pdfLinks r)
      /\ errorCount (stats r) = length (errors r)
      /\ totalProcessed (stats r) = length links).
Proof.
  unfold processLinks.
  pose proof (processLoop_lengths baseDomain clock links 0) as L.
  destruct (processLoop settings baseDomain clock 0 links) as [processed errs].
  simpl in L. simpl.
  pose proof (uniqueByHref_shorter processed) as U.
  set (unique := uniqueByHref processed) in *.
  split; [|split; [|split; [|split; [|split]]]].
  - unfold unique. rewrite uniqueByHref_hrefs. apply AggregatorFacts.firstSeen_NoDup.
  - intros l. rewrite !filter_In. destruct (l_isPDF l); simpl; intuition congruence.
  - intros l H1 H2. apply filter_In in H1 as [_ H1]. apply filter_In in H2 as [_ H2].
    rewrite H2 in H1. discriminate.
  - pose proof (filter_length l_isPDF unique). lia.
  - lia.
  - repeat split.
Qed.

(** *** Scores *)

Lemma score_from (patterns : list (re * Z)) (url : jsstring) :
  Forall (fun pw => (0 <= snd pw)%Z) patterns ->
  forall score,
    (score
     <= fold_left (fun score pw => if test (fst pw) url then (score + snd pw)%Z else score)
                  patterns score
     <= score + weightSum patterns)%Z.
Proof.
  induction 1 as [|pw patterns Hw _ IH]; intros score; simpl; [lia|].
  destruct (test (fst pw) url).
  - specialize (IH (score + snd pw)%Z). lia.
  - specialize (IH score). lia.
Qed.

(** With weights that are not negative, the priority score of a URL lies
    between 0 and the sum of all weights. *)
Theorem getPriorityScore_bounds (url : jsstring) :
  Forall (fun pw => (0 <= snd pw)%Z) (Settings.priorityPatterns settings) ->
  (0 <= getPriorityScore settings url
   <= weightSum (Settings.priorityPatterns settings))%Z.
Proof.
  intros H. unfold getPriorityScore.
  pose proof (score_from url H 0%Z). lia.
Qed.

End WithPlatform.

(** With the shipped table the score lies between 0 and 216. *)
Lemma getPriorityScore_bounds_witness :
  weightSum (Settings.priorityPatterns WhatwgSpec.shipped) = 216%Z
  /\ (0 <= getPriorityScore WhatwgSpec.shipped
             (lit "https://hdfcbank.com/regalia-gold-credit-card/fees-and-charges.pdf")
      <= weightSum (Settings.priorityPatterns WhatwgSpec.shipped))%Z.
Proof.
  split; [reflexivity|].
  apply getPriorityScore_bounds.
  repeat constructor; simpl; lia.
Defined.

(** The shipped tables at work: a page linked twice comes out once, with the
    text of the second link, and the theorem on links that are not ignored
    applies to it. *)
Lemma kept_links_come_out_witness :
  let r := @processLinks Whatwg.platform WhatwgSpec.shipped (fun _ => [])
                         twiceLinked (lit "hdfcbank.com") in
  map l_text (internalLinks r) = [lit "All cards"]
  /\ (In (lit "https://hdfcbank.com/personal/pay/cards") (map l_href (internalLinks r))
      \/ In (lit "https://hdfcbank.com/personal/pay/cards") (map l_href (pdfLinks r))).
Proof.
  split; [vm_compute; reflexivity|].
  apply (@LinkHandlerFacts.kept_links_come_out Whatwg.platform WhatwgSpec.shipped
           (fun _ => []) twiceLinked (lit "hdfcbank.com")
           (lit "https://hdfcbank.com/personal/pay/cards")
           (LinkObject (Some (lit "/personal/pay/cards")) (Some (lit "Cards")) None)).
  - left. reflexivity.
  - vm_compute. reflexivity.
  - vm_compute. reflexivity.
Defined.

(** *** Cleaned URLs *)

Lemma dropSlashes_step (c : N) (s : jsstring) :
  dropSlashes (c :: s) = if (c =? 47)%N then dropSlashes s else c :: s.
Proof.
  destruct c as [|p]; [reflexivity|].
  destruct (N.eqb_spec (N.pos p) 47) as [E|E]; [now injection E as ->|].
  do 6 (destruct p as [p|p|]; try reflexivity). congruence.
Qed.

Lemma collapse_pair (fuel : nat) (c c1 : N) :
  collapseSlashes (S fuel) [c; c1] = c :: collapseSlashes fuel [c1].
Proof.
  destruct c1 as [|p]; [reflexivity|].
  do 6 (destruct p as [p|p|]; try reflexivity).
Qed.

Lemma collapse_step (fuel : nat) (c c1 c2 : N) (rest : jsstring) :
  collapseSlashes (S fuel) (c :: c1 :: c2 :: rest)
  = if ((c1 =? 47) && (c2 =? 47))%N
    then if negb (c =? 58)%N
         then c :: 47%N :: collapseSlashes fuel (dropSlashes rest)
         else c :: collapseSlashes fuel (47%N :: 47%N :: rest)
    else c :: collapseSlashes fuel (c1 :: c2 :: rest).
Proof.
  destruct c1 as [|p1]; [reflexivity|].
  destruct (N.eqb_spec (N.pos p1) 47) as [E1|E1].
  - injection E1 as ->. destruct c2 as [|p2]; [reflexivity|].
    destruct (N.eqb_spec (N.pos p2) 47) as [E2|E2]; [now injection E2 as ->|].
    do 6 (destruct p2 as [p2|p2|]; try reflexivity). congruence.
  - do 6 (destruct p1 as [p1|p1|]; try reflexivity). congruence.
Qed.

Lemma dropSlashes_In (s : jsstring) (x : N) : In x (dropSlashes s) -> In x s.
Proof.
  induction s as [|c s IH]; [tauto|]. rewrite dropSlashes_step.
  destruct (c =? 47)%N; [intros H; right; now apply IH | tauto].
Qed.

Lemma skipn_In (A : Type) (n : nat) (l : list A) (x : A) : In x (skipn n l) -> In x l.
Proof.
  revert l. induction n as [|n IH]; intros [|y l]; simpl; try tauto.
  intros H. right. now apply IH.
Qed.

Lemma squeezeAfter_In (fuel : nat) (full : jsstring) (x : N) :
  forall s, In x (squeezeAfter fuel full s) -> In x s \/ In x full.
Proof.
  induction fuel as [|fuel IH]; intros s; simpl; [tauto|].
  destruct s as [|c s]; [tauto|].
  destruct (startsWith (c :: s) full).
  - intros H. apply in_app_or in H as [H|H]; [now right|].
    apply IH in H as [H|H]; [|now right].
    left. apply dropSlashes_In in H. now apply skipn_In in H.
  - intros [H|H]; [left; now left|].
    apply IH in H as [H|H]; [left; now right | now right].
Qed.

Lemma collapseSlashes_In (fuel : nat) (x : N) :
  forall s, In x (collapseSlashes fuel s) -> In x s.
Proof.
  induction fuel as [|fuel IH]; intros s; [simpl; tauto|].
  destruct s as [|c [|c1 [|c2 rest]]].
  - simpl. tauto.
  - simpl. intros [H|H]; [now left|]. apply IH in H. destruct H.
  - rewrite collapse_pair. intros [H|H]; [now left|]. right. now apply IH.
  - rewrite collapse_step.
    destruct (N.eqb_spec c1 47) as [->|_]; simpl andb.
    + destruct (N.eqb_spec c2 47) as [->|_].
      * destruct (negb (c =? 58)%N).
        -- intros [H|[H|H]]; [now left | right; now left |].
           apply IH, dropSlashes_In in H. now do 3 right.
        -- intros [H|H]; [now left|]. right. now apply IH.
      * intros [H|H]; [now left|]. right. now apply IH.
    + intros [H|H]; [now left|]. right. now apply IH.
Qed.

Lemma stripTrailingSlash_In (s : jsstring) (x : N) :
  In x (stripTrailingSlash s) -> In x s.
Proof.
  unfold stripTrailingSlash. destruct (rev s) as [|c r] eqn:E; [tauto|].
  assert (R : In x (rev r) -> In x s).
  { intros H. apply in_rev. rewrite E. right. now apply in_rev. }
  destruct c as [|p]; [tauto|].
  do 6 (destruct p as [p|p|]; try tauto).
Qed.

Lemma encodeSpaces_clean (s : jsstring) (x : N) :
  forall inRun, In x (encodeSpaces inRun s) -> isWhiteSpace x = false.
Proof.
  induction s as [|c s IH]; intros inRun; simpl; [tauto|].
  destruct (isWhiteSpace c) eqn:E.
  - destruct inRun; [apply IH|].
    intros [<-|[<-|[<-|H]]]; try reflexivity. now apply IH in H.
  - intros [<-|H]; [exact E | now apply IH in H].
Qed.

(** A cleaned URL holds no white space: what is inside the URL has become
    [%20], and the steps that follow add none. *)
Theorem cleanUrl_has_no_white_space (url cleaned : jsstring) :
  cleanUrl url = Some cleaned -> noWhiteSpace cleaned = true.
Proof.
  unfold cleanUrl. destruct (JS.eqb url []); [discriminate|].
  destruct (hasTemplateMarker url); [discriminate|].
  cbv zeta.
  set (encoded := encodeSpaces false (applyRepairs (trim url))).
  set (squeezed := squeezeAfter (length encoded) (lit "https://") encoded).
  set (squeezed' := squeezeAfter (length squeezed) (lit "http://") squeezed).
  set (collapsed := collapseSlashes (length squeezed') squeezed').
  intros H. assert (E : cleaned = stripTrailingSlash collapsed) by congruence.
  subst cleaned. clear H.
  apply forallb_forall. intros x Hx.
  apply stripTrailingSlash_In in Hx. unfold collapsed in Hx.
  apply collapseSlashes_In in Hx. unfold squeezed' in Hx.
  apply negb_true_iff.
  apply squeezeAfter_In in Hx as [Hx|Hx].
  - unfold squeezed in Hx. apply squeezeAfter_In in Hx as [Hx|Hx].
    + unfold encoded in Hx. now apply encodeSpaces_clean in Hx.
    + simpl in Hx. repeat (destruct Hx as [<-|Hx]; [reflexivity|]). destruct Hx.
  - simpl in Hx. repeat (destruct Hx as [<-|Hx]; [reflexivity|]). destruct Hx.
Qed.

Lemma cleanUrl_has_no_white_space_witness :
  cleanUrl (lit "  https://www.hdfcbank.com//personal/regalia gold  card/ ")
  = Some (lit "https://www.hdfcbank.com/personal/regalia%20gold%20card")
  /\ noWhiteSpace (lit "https://www.hdfcbank.com/personal/regalia%20gold%20card") = true.
Proof.
  split; [vm_compute; reflexivity|].
  apply (@cleanUrl_has_no_white_space
           (lit "  https://www.hdfcbank.com//personal/regalia gold  card/ ")).
  vm_compute. reflexivity.
Defined.

End TriageFacts.

(** ** The run: output file, budgets, sources *)

Module RunFacts.

Import LinkHandler Aggregator Orchestrator OrchestratorSpec OutputFile TriageSpec.

Section WithPlatform.

Context {P : Url.Platform}.

Lemma sanitize_safe (name : jsstring) : forallb isNameChar (sanitize name) = true.
Proof.
  induction name as [|c name IH]; simpl; [reflexivity|].
  rewrite IH, andb_true_r. now destruct (isNameChar c) eqn:E.
Qed.

Lemma last_part (parts : list jsstring) (dflt : jsstring) :
  dflt <> [] -> Forall (fun part => part <> []) parts -> last parts dflt <> [].
Proof.
  intros Hd H. induction H as [|part parts Hp _ IH]; [exact Hd|].
  destruct parts as [|q parts]; [exact Hp | exact IH].
Qed.

(** The name of the output file is safe to write under the output
    directory: for a URL that parses it is a non-empty run of letters,
    digits and hyphens, followed by a hyphen, the first ten characters of
    the time stamp and [.json]; nothing of the URL's path gets into it but
    letters, digits and hyphens. *)
Theorem generateOutputFilename_is_safe (url isoNow : jsstring) (dateNow : Z)
        (u : Url.URL) :
  Url.parse url = Some u ->
  exists name,
    generateOutputFilename url isoNow dateNow
    = name ++ lit "-" ++ firstn 10 isoNow ++ lit ".json"
    /\ name <> []
    /\ forallb isNameChar name = true.
Proof.
  intros H. unfold generateOutputFilename. rewrite H.
  exists (sanitize (last (pathParts (Url.pathname u)) (lit "credit-card"))).
  split; [reflexivity|]. split; [|apply sanitize_safe].
  assert (L : last (pathParts (Url.pathname u)) (lit "credit-card") <> []).
  { apply last_part; [discriminate|]. apply Forall_forall. intros part Hp.
    apply filter_In in Hp as [_ Hp]. apply negb_true_iff in Hp.
    now apply JSFacts.eqb_neq. }
  destruct (last _ _); [congruence | discriminate].
Qed.

Variable settings : Settings.t.
Variable crawlPage : jsstring -> HtmlCrawler.CrawlOutcome.
Variable parsePDF : jsstring -> PdfOutcome.
Variable parseFields : jsstring -> jsstring -> Obj.t.
Variable clock : nat -> jsstring.

(** *** Budgets *)

(** A budget that is not negative cuts the list of links to its first
    entries, as many as the budget says.  A negative budget, which
    [MAX_PAGES] or [MAX_PDFS] in the environment can set, is not refused:
    it cuts that many links off the end of the list and lets all the
    others through. *)
Theorem budgeted_length (links : list ProcessedLink) (limit : Z) :
  ((0 <= limit)%Z ->
   budgeted links limit = firstn (Z.to_nat limit) links
   /\ length (budgeted links limit) = Nat.min (Z.to_nat limit) (length links))
  /\ ((limit < 0)%Z ->
      budgeted links limit = firstn (length links - Z.to_nat (- limit)) links
      /\ length (budgeted links limit) = length links - Z.to_nat (- limit)
      /\ Settings.maxPages (Settings.fromEnv (Some limit) None None) = limit
      /\ Settings.maxPDFs (Settings.fromEnv None (Some limit) None) = limit).
Proof.
  split; intros H.
  - rewrite OrchestratorFacts.budgeted_prefix by exact H.
    split; [reflexivity | apply length_firstn].
  - unfold budgeted, slice0.
    rewrite Z.min_r by lia.
    destruct (Z.ltb_spec limit 0); [|lia].
    replace (Z.to_nat (Z.of_nat (length links) + limit))
      with (length links - Z.to_nat (- limit)) by lia.
    split; [reflexivity|]. split; [rewrite length_firstn; lia|].
    unfold Settings.fromEnv, Settings.envOr. simpl.
    destruct (Z.eqb_spec limit 0); [lia|]. split; reflexivity.
Qed.

(** *** Sources *)

Lemma sources_addSourceData (a : CardDataAggregator) (src : Source) :
  sources (fst (addSourceData a src)) = sources a ++ [src].
Proof. unfold addSourceData. now destruct (mergeData (cardData a) (data src)). Qed.

Lemma crawl_sources (pages : list ProcessedLink) :
  forall r,
    map origin (sources (aggregator r))
    = filter (succeeded crawlPage parsePDF) (requested r) ->
    map origin (sources (aggregator (fold_left (crawlOne crawlPage parseFields) pages r)))
    = filter (succeeded crawlPage parsePDF)
             (requested (fold_left (crawlOne crawlPage parseFields) pages r)).
Proof.
  induction pages as [|l pages IH]; intros r Hr; simpl; [exact Hr|].
  apply IH. unfold crawlOne.
  destruct (crawlPage (l_href l)) eqn:E; simpl;
    rewrite filter_app; simpl; unfold succeeded at 2; simpl; rewrite E;
    rewrite ?sources_addSourceData, ?map_app, ?app_nil_r, Hr; reflexivity.
Qed.

Lemma parse_sources (pdfs : list ProcessedLink) :
  forall r,
    map origin (sources (aggregator r))
    = filter (succeeded crawlPage parsePDF) (requested r) ->
    map origin (sources (aggregator (fold_left (parseOne parsePDF parseFields) pdfs r)))
    = filter (succeeded crawlPage parsePDF)
             (requested (fold_left (parseOne parsePDF parseFields) pdfs r)).
Proof.
  induction pdfs as [|l pdfs IH]; intros r Hr; simpl; [exact Hr|].
  apply IH. unfold parseOne.
  destruct (parsePDF (l_href l)) eqn:E; simpl;
    rewrite filter_app; simpl; unfold succeeded at 2; simpl; rewrite E;
    rewrite ?sources_addSourceData, ?map_app, ?app_nil_r, Hr; reflexivity.
Qed.

(** The sources that a run records are the requests that were answered, in
    the order in which they were made: a page that is rejected or fails, and
    a PDF that is skipped or fails, leaves no source and does not stop the
    run, and a source is recorded even when merging it throws. *)
Theorem sources_are_the_answered_requests (run : Run) :
  extractCardData settings crawlPage parsePDF parseFields clock = Some run ->
  map origin (sources (aggregator run))
  = filter (succeeded crawlPage parsePDF) (requested run).
Proof.
  unfold extractCardData.
  destruct (crawlPage (Settings.cardUrl settings)) as [mainPageData| |] eqn:E;
    try discriminate.
  destruct (addSourceData newAggregator _) as [a ok] eqn:A.
  destruct ok; [|discriminate].
  intros H. injection H as <-. unfold crawlPhases.
  apply parse_sources, crawl_sources. simpl.
  unfold succeeded. simpl. rewrite E.
  pose proof (sources_addSourceData newAggregator
                (mkSource (parseFields (HtmlCrawler.p_fullText mainPageData)
                                       (Settings.cardUrl settings))
                          html (Settings.cardUrl settings))) as S.
  rewrite A in S. simpl in S. rewrite S. reflexivity.
Qed.

End WithPlatform.

Lemma generateOutputFilename_is_safe_witness :
  @generateOutputFilename Whatwg.platform
    (lit "https://www.hdfcbank.com/cards/regalia gold_card.html")
    (lit "2024-05-17T09:30:00.000Z") 0
  = lit "regalia-20gold-card-html-2024-05-17.json"
  /\ exists name,
       @generateOutputFilename Whatwg.platform
         (lit "https://www.hdfcbank.com/cards/regalia gold_card.html")
         (lit "2024-05-17T09:30:00.000Z") 0
       = name ++ lit "-" ++ firstn 10 (lit "2024-05-17T09:30:00.000Z") ++ lit ".json"
       /\ name <> []
       /\ forallb isNameChar name = true.
Proof.
  split; [vm_compute; reflexivity|].
  eapply (@generateOutputFilename_is_safe Whatwg.platform).
  vm_compute. reflexivity.
Defined.

Lemma budgeted_length_witness :
  length (budgeted (internalLinks scenarioTriage) (-2)) = 3
  /\ ((0 <= 3)%Z ->
      budgeted (internalLinks scenarioTriage) 3
      = firstn (Z.to_nat 3) (internalLinks scenarioTriage)
      /\ length (budgeted (internalLinks scenarioTriage) 3)
         = Nat.min (Z.to_nat 3) (length (internalLinks scenarioTriage))).
Proof.
  split; [vm_compute; reflexivity|].
  apply (budgeted_length (internalLinks scenarioTriage) 3).
Defined.

Lemma sources_are_the_answered_requests_witness :
  exists run,
    @extractCardData Whatwg.platform scenarioSettings everyPage everyPdf
                     noFields (fun _ => []) = Some run
    /\ map origin (sources (aggregator run))
       = filter (succeeded everyPage everyPdf) (requested run).
Proof.
  eexists. split; [vm_compute; reflexivity|].
  apply (@sources_are_the_answered_requests Whatwg.platform scenarioSettings
           everyPage everyPdf noFields (fun _ => [])).
  vm_compute. reflexivity.
Defined.

End RunFacts.

(** ** Fetching a page *)

Module FetchFacts.

Import Url Validation Fetch FetchSpec.

Lemma hex_matches (c : N) (s : jsstring) (k : jsstring -> bool) :
  isHexDigit c = true -> matchK hex (c :: s) k = k s.
Proof.
  unfold isHexDigit. intros H.
  apply orb_true_iff in H. destruct H as [H|H];
    [apply orb_true_iff in H; destruct H as [H|H]|].
  - apply andb_true_iff in H. destruct H as [A B]. apply N.leb_le in A, B.
    assert (D : (c = 48 \/ c = 49 \/ c = 50 \/ c = 51 \/ c = 52 \/ c = 53
                 \/ c = 54 \/ c = 55 \/ c = 56 \/ c = 57)%N) by lia.
    clear A B.
    repeat (destruct D as [-> | D]; [cbn; destruct (k s); reflexivity|]).
    subst c. cbn. destruct (k s); reflexivity.
  - apply andb_true_iff in H. destruct H as [A B]. apply N.leb_le in A, B.
    assert (D : (c = 97 \/ c = 98 \/ c = 99 \/ c = 100 \/ c = 101 \/ c = 102)%N)
      by lia.
    clear A B.
    repeat (destruct D as [-> | D]; [cbn; destruct (k s); reflexivity|]).
    subst c. cbn. destruct (k s); reflexivity.
  - apply andb_true_iff in H. destruct H as [A B]. apply N.leb_le in A, B.
    assert (D : (c = 65 \/ c = 66 \/ c = 67 \/ c = 68 \/ c = 69 \/ c = 70)%N)
      by lia.
    clear A B.
    repeat (destruct D as [-> | D]; [cbn; destruct (k s); reflexivity|]).
    subst c. cbn. destruct (k s); reflexivity.
Qed.

Lemma test_inside (r : re) (pre s : jsstring) :
  testAtStart r s = true -> test r (pre ++ s) = true.
Proof.
  intros H. induction pre as [|c pre IH].
  - destruct s; simpl; rewrite H; reflexivity.
  - simpl. rewrite IH. apply orb_true_r.
Qed.

Lemma percent_escape_found (pre post : jsstring) (h1 h2 : N) :
  isHexDigit h1 = true -> isHexDigit h2 = true ->
  existsb (fun pattern => test pattern (pre ++ 37%N :: h1 :: h2 :: post))
          suspiciousPatterns = true.
Proof.
  intros H1 H2. apply existsb_exists.
  exists (Seq (Chr 37) (Seq hex hex)). split.
  - unfold suspiciousPatterns. simpl. tauto.
  - apply test_inside. unfold testAtStart.
    change (matchK (Seq (Chr 37) (Seq hex hex)) (37%N :: h1 :: h2 :: post)
                   (fun _ => true))
      with (matchK hex (h1 :: h2 :: post)
                   (fun s' => matchK hex s' (fun _ => true))).
    rewrite hex_matches by exact H1. apply hex_matches. exact H2.
Qed.

Lemma requests_app (t t' : list Event) :
  requests (t ++ t') = (requests t + requests t')%nat.
Proof. unfold requests. rewrite filter_app, length_app. reflexivity. Qed.

Lemma requests_cons (domain url : jsstring) (t : list Event) :
  requests (Requested domain url :: t) = S (requests t).
Proof. reflexivity. Qed.

Lemma requests_sleep (ms : Z) (t : list Event) :
  requests (Slept ms :: t) = requests t.
Proof. reflexivity. Qed.

Lemma slept_request (domain url : jsstring) (t : list Event) :
  slept (Requested domain url :: t) = slept t.
Proof. reflexivity. Qed.

Lemma slept_sleep (ms : Z) (t : list Event) :
  slept (Slept ms :: t) = (ms + slept t)%Z.
Proof. reflexivity. Qed.

Lemma slept_app (t t' : list Event) :
  slept (t ++ t') = (slept t + slept t')%Z.
Proof.
  induction t as [|e t IH]; [reflexivity|].
  simpl. destruct e; simpl; fold (slept (t ++ t')); fold (slept t); lia.
Qed.

Lemma attemptOnce_passes (r : Reply) (data : jsstring) :
  attemptOnce r = inl data -> validateHtmlContent data = true.
Proof.
  destruct r as [[s|[|]]|status| |]; simpl; try discriminate.
  destruct (JS.eqb s []); [discriminate|].
  destruct (validateHtmlContent s) eqn:E; [|discriminate].
  intros H. injection H as <-. exact E.
Qed.

Section WithPlatform.

Context {P : Platform}.
Variable options : Options.
Variable reply : Z -> Reply.

Lemma pause_requests (attempt : Z) (error : Failure) :
  requests (pause options attempt error) = 0%nat.
Proof. unfold pause. destruct (attempt <? retryAttempts options)%Z; reflexivity. Qed.

Lemma onError_requests (attempt : Z) (error : Failure) (pauses : list Event) :
  onError options attempt error = Some pauses -> requests pauses = 0%nat.
Proof.
  unfold onError. destruct error as [| |status| |];
    try (intros H; injection H as <-; apply pause_requests).
  destruct (status =? 404)%Z; [discriminate|].
  destruct (status =? 429)%Z.
  - intros H. injection H as <-.
    change (requests (pause options attempt (Http status)) = 0%nat).
    apply pause_requests.
  - destruct ((400 <=? status)%Z && (status <? 500)%Z); [discriminate|].
    intros H. injection H as <-. apply pause_requests.
Qed.

Lemma attempts_requests (domain url : jsstring) (rounds : nat) :
  forall attempt lastError,
    (requests (fst (attempts options reply domain url rounds attempt lastError))
     <= rounds)%nat.
Proof.
  induction rounds as [|rounds IH]; intros attempt lastError; [unfold requests; simpl; lia|].
  simpl. destruct (attemptOnce (reply attempt)) as [data|error]; [unfold requests; simpl; lia|].
  destruct (onError options attempt error) as [pauses|] eqn:E; [|unfold requests; simpl; lia].
  specialize (IH (attempt + 1)%Z (Some error)).
  destruct (attempts options reply domain url rounds (attempt + 1) (Some error))
    as [trace result].
  simpl in IH |- *.
  rewrite requests_cons, requests_app, (onError_requests _ _ E). simpl. lia.
Qed.

Lemma attempts_returned (domain url : jsstring) (rounds : nat) :
  forall attempt lastError data,
    snd (attempts options reply domain url rounds attempt lastError) = Returned data ->
    validateHtmlContent data = true /\
    (1 <= requests (fst (attempts options reply domain url rounds attempt lastError)))%nat.
Proof.
  induction rounds as [|rounds IH]; intros attempt lastError data; [discriminate|].
  simpl. destruct (attemptOnce (reply attempt)) as [data'|error] eqn:A.
  - simpl. intros H. injection H as <-. split; [|unfold requests; simpl; lia].
    exact (attemptOnce_passes _ A).
  - destruct (onError options attempt error) as [pauses|]; [|discriminate].
    specialize (IH (attempt + 1)%Z (Some error) data).
    destruct (attempts options reply domain url rounds (attempt + 1) (Some error))
      as [trace result].
    simpl in IH |- *. intros H. destruct (IH H) as [V _]. split; [exact V|].
    rewrite requests_cons. lia.
Qed.

Lemma validateUrl_parses (url sanitized : jsstring) :
  validateUrl url = Valid sanitized -> exists urlObj, parse url = Some urlObj.
Proof.
  unfold validateUrl. destruct (JS.eqb url []); [discriminate|].
  destruct (parse url) as [urlObj|]; [|discriminate].
  intros _. exists urlObj. reflexivity.
Qed.

Lemma retried_goes_on (attempt : Z) (r : Reply) :
  retried r = true ->
  exists error pauses,
    attemptOnce r = inr error /\ onError options attempt error = Some pauses.
Proof.
  unfold retried. destruct (attemptOnce r) as [data|error]; [discriminate|].
  intros H. exists error.
  destruct error as [| |status| |]; try (eexists; split; reflexivity).
  unfold onError. unfold clientError in H.
  destruct (status =? 404)%Z eqn:E1; [lia|].
  destruct (status =? 429)%Z eqn:E2; [eexists; split; reflexivity|].
  destruct ((400 <=? status)%Z && (status <? 500)%Z) eqn:E3; [lia|].
  eexists; split; reflexivity.
Qed.

Lemma final_ends (domain url : jsstring) (rounds : nat) (attempt : Z)
      (lastError : option Failure) :
  retried (reply attempt) = false ->
  attempts options reply domain url (S rounds) attempt lastError
  = ([Requested domain url], outcome (reply attempt)).
Proof.
  unfold retried, outcome. simpl.
  destruct (attemptOnce (reply attempt)) as [data|error]; [reflexivity|].
  destruct error as [| |status| |]; try discriminate.
  unfold clientError, onError. intros H.
  destruct (status =? 404)%Z eqn:E1; [reflexivity|].
  destruct (status =? 429)%Z eqn:E2; [lia|].
  destruct ((400 <=? status)%Z && (status <? 500)%Z) eqn:E3; [reflexivity|lia].
Qed.

Lemma attempts_first_final (domain url : jsstring) (k : nat) :
  forall rounds attempt lastError,
    (k < rounds)%nat ->
    (forall i, (0 <= i < Z.of_nat k)%Z -> retried (reply (attempt + i)) = true) ->
    (S k = rounds \/ retried (reply (attempt + Z.of_nat k)) = false) ->
    requests (fst (attempts options reply domain url rounds attempt lastError)) = S k /\
    snd (attempts options reply domain url rounds attempt lastError)
    = outcome (reply (attempt + Z.of_nat k)).
Proof.
  induction k as [|k IH]; intros rounds attempt lastError Hk Hbefore Hlast.
  - destruct rounds as [|rounds]; [lia|].
    replace (attempt + Z.of_nat 0)%Z with attempt in * by lia.
    destruct (retried (reply attempt)) eqn:R.
    + destruct Hlast as [Hlast|Hlast]; [|discriminate].
      assert (rounds = 0%nat) by lia. subst rounds.
      destruct (retried_goes_on attempt _ R) as (error & pauses & A & O).
      simpl. unfold outcome. rewrite A, O. simpl.
      rewrite requests_cons, requests_app, (onError_requests _ _ O).
      split; reflexivity.
    + rewrite final_ends by exact R. split; reflexivity.
  - destruct rounds as [|rounds]; [lia|].
    assert (R : retried (reply attempt) = true).
    { replace attempt with (attempt + 0)%Z by lia. apply Hbefore. lia. }
    destruct (retried_goes_on attempt _ R) as (error & pauses & A & O).
    simpl attempts. rewrite A, O.
    specialize (IH rounds (attempt + 1)%Z (Some error)).
    replace (attempt + 1 + Z.of_nat k)%Z with (attempt + Z.of_nat (S k))%Z in IH by lia.
    destruct IH as [IH1 IH2].
    + lia.
    + intros i Hi. replace (attempt + 1 + i)%Z with (attempt + (i + 1))%Z by lia.
      apply Hbefore. lia.
    + destruct Hlast as [Hlast|Hlast]; [left; lia|right; exact Hlast].
    + destruct (attempts options reply domain url rounds (attempt + 1) (Some error))
        as [trace result].
      simpl in IH1, IH2 |- *. split; [|exact IH2].
      rewrite requests_cons, requests_app, (onError_requests _ _ O), IH1.
      reflexivity.
Qed.

Lemma attempts_all_429 (domain url : jsstring) (rounds : nat) :
  forall attempt lastError,
    (attempt + Z.of_nat rounds = retryAttempts options + 1)%Z ->
    (forall i, (attempt <= i <= retryAttempts options)%Z -> reply i = HttpError 429) ->
    requests (fst (attempts options reply domain url rounds attempt lastError)) = rounds /\
    slept (fst (attempts options reply domain url rounds attempt lastError))
    = match rounds with
      | O => 0%Z
      | S _ => (retryDelay options * (4 * Z.of_nat rounds - 2))%Z
      end.
Proof.
  induction rounds as [|rounds IH]; intros attempt lastError Hn Hall.
  - split; reflexivity.
  - simpl attempts. rewrite (Hall attempt) by lia. simpl attemptOnce.
    unfold onError. change (429 =? 404)%Z with false.
    change (429 =? 429)%Z with true. cbv iota.
    specialize (IH (attempt + 1)%Z (Some (Http 429))).
    destruct IH as [IH1 IH2]; [lia|intros i Hi; apply Hall; lia|].
    destruct (attempts options reply domain url rounds (attempt + 1) (Some (Http 429)))
      as [trace result].
    cbn [fst snd app] in IH1, IH2 |- *.
    rewrite requests_cons, requests_sleep, requests_app, pause_requests, IH1.
    rewrite slept_request, slept_sleep, slept_app, IH2.
    split; [reflexivity|].
    unfold pause. simpl is429.
    destruct rounds as [|rounds].
    + destruct (attempt <? retryAttempts options)%Z eqn:E; [lia|].
      change (slept []) with 0%Z. lia.
    + destruct (attempt <? retryAttempts options)%Z eqn:E; [|lia].
      rewrite slept_sleep. change (slept []) with 0%Z. lia.
Qed.

End WithPlatform.

(** A URL that holds a percent escape (a percent sign and two
    hexadecimal digits) anywhere never passes [validateUrl], so [fetchHTML]
    throws for it before it makes a request. *)
Theorem percent_escapes_are_refused {P : Platform} (options : Options)
        (reply : Z -> Reply) (pre post : jsstring) (h1 h2 : N) :
  isHexDigit h1 = true -> isHexDigit h2 = true ->
  let url := pre ++ 37%N :: h1 :: h2 :: post in
  isValid (validateUrl url) = false /\
  exists error, fetchHTML options reply url = ([], ThrewInvalidUrl error).
Proof.
  intros H1 H2 url.
  assert (V : exists error, validateUrl url = Invalid error).
  { unfold validateUrl. destruct (JS.eqb url []); [eexists; reflexivity|].
    destruct (parse url) as [urlObj|]; [|eexists; reflexivity].
    destruct (negb (arrayIncludes [lit "http:"; lit "https:"] (protocol urlObj)));
      [eexists; reflexivity|].
    destruct (JS.eqb (hostname urlObj) []); [eexists; reflexivity|].
    unfold url. rewrite (percent_escape_found pre post h1 h2 H1 H2).
    eexists; reflexivity. }
  destruct V as [error V]. split.
  - rewrite V. reflexivity.
  - exists error. unfold fetchHTML. rewrite V. reflexivity.
Qed.

Lemma percent_escapes_are_refused_witness :
  let url := lit "https://www.hdfcbank.com/cards/regalia%20gold" in
  isValid (validateUrl (P := Whatwg.platform) url) = false /\
  exists error,
    fetchHTML (P := Whatwg.platform) defaults (fun _ => Failed) url
    = ([], ThrewInvalidUrl error).
Proof.
  exact (@percent_escapes_are_refused Whatwg.platform defaults (fun _ => Failed)
           (lit "https://www.hdfcbank.com/cards/regalia") (lit "gold") 50%N 48%N
           eq_refl eq_refl).
Defined.

(** [fetchHTML] makes at most [retryAttempts] requests, and none when
    that option is 0 or less: a 0 given to the constructor is not replaced
    by the default of 3, and the call then throws [undefined].  What a call
    returns has passed [validateHtmlContent], for a URL that has passed
    [validateUrl], after at least one request. *)
Theorem fetchHTML_request_budget {P : Platform} (user : UserOptions)
        (reply : Z -> Reply) (url : jsstring) :
  let options := newHTMLCrawler user in
  let trace := fst (fetchHTML options reply url) in
  let result := snd (fetchHTML options reply url) in
  (Z.of_nat (requests trace) <= Z.max 0 (retryAttempts options))%Z /\
  (forall data, result = Returned data ->
     validateHtmlContent data = true /\ isValid (validateUrl url) = true /\
     (1 <= requests trace)%nat) /\
  (forall v, u_retryAttempts user = Some v -> (v <= 0)%Z ->
     isValid (validateUrl url) = true -> trace = [] /\ result = Threw None).
Proof.
  intros options trace result. subst trace result. unfold fetchHTML.
  destruct (validateUrl url) as [sanitized|error] eqn:V.
  - destruct (validateUrl_parses _ V) as [urlObj E]. rewrite E.
    split; [|split].
    + pose proof (attempts_requests options reply (hostname urlObj) url
                    (Z.to_nat (retryAttempts options)) 1 None). lia.
    + intros data H.
      destruct (attempts_returned options reply (hostname urlObj) url _ _ _ H)
        as [H1 H2].
      repeat split; assumption.
    + intros v Hv Hle _.
      assert (E0 : Z.to_nat (retryAttempts options) = 0%nat).
      { unfold options, newHTMLCrawler. rewrite Hv. simpl. lia. }
      rewrite E0. split; reflexivity.
  - simpl. split; [lia|]. split; [discriminate|]. discriminate.
Qed.

Lemma fetchHTML_request_budget_witness :
  let user := mkUserOptions (Some 0%Z) None in
  let url := lit "https://www.hdfcbank.com/cards" in
  retryAttempts (newHTMLCrawler user) = 0%Z /\
  fetchHTML (P := Whatwg.platform) (newHTMLCrawler user)
            (fun _ => Response (Text (lit "<html></html>"))) url
  = ([], Threw None).
Proof.
  intros user url. split; [reflexivity|].
  pose proof (@fetchHTML_request_budget Whatwg.platform user
                (fun _ => Response (Text (lit "<html></html>"))) url) as H.
  destruct H as (_ & _ & H).
  assert (V : isValid (validateUrl (P := Whatwg.platform) url) = true)
    by reflexivity.
  assert (Z0 : (0 <= 0)%Z) by lia.
  destruct (H 0%Z eq_refl Z0 V) as [H1 H2].
  apply injective_projections; assumption.
Defined.

(** The retry loop ends with the first reply that is a page passing
    the check or a client error (a status from 400 to 499 other than 429),
    and with the last attempt if there is none: if the first [k] replies are
    all retried and the next one is not, or is the last attempt, then
    [k + 1] requests are made and the call returns that page or throws that
    reply's error. *)
Theorem fetchHTML_stops_at_first_final_reply {P : Platform} (options : Options)
        (reply : Z -> Reply) (url : jsstring) (k : nat) :
  isValid (validateUrl url) = true ->
  (Z.of_nat k < retryAttempts options)%Z ->
  (forall i, (1 <= i <= Z.of_nat k)%Z -> retried (reply i) = true) ->
  (Z.of_nat k + 1 = retryAttempts options)%Z
  \/ retried (reply (Z.of_nat k + 1)%Z) = false ->
  requests (fst (fetchHTML options reply url)) = S k /\
  snd (fetchHTML options reply url) = outcome (reply (Z.of_nat k + 1)%Z).
Proof.
  intros V Hk Hbefore Hlast. unfold fetchHTML.
  destruct (validateUrl url) as [sanitized|error] eqn:E; [|discriminate].
  destruct (validateUrl_parses _ E) as [urlObj E']. rewrite E'.
  replace (Z.of_nat k + 1)%Z with (1 + Z.of_nat k)%Z in * by lia.
  apply attempts_first_final.
  - lia.
  - intros i Hi. apply Hbefore. lia.
  - destruct Hlast as [Hlast|Hlast]; [left; lia|right; exact Hlast].
Qed.

Lemma fetchHTML_stops_at_first_final_reply_witness :
  let url := lit "https://www.hdfcbank.com/cards" in
  let reply := fun i : Z => if (i =? 1)%Z then HttpError 503 else HttpError 403 in
  requests (fst (fetchHTML (P := Whatwg.platform) defaults reply url)) = 2%nat /\
  snd (fetchHTML (P := Whatwg.platform) defaults reply url) = Threw (Some (Http 403)).
Proof.
  intros url reply.
  apply (@fetchHTML_stops_at_first_final_reply Whatwg.platform defaults reply url 1).
  - reflexivity.
  - reflexivity.
  - intros i Hi. assert (i = 1%Z) by lia. subst i. reflexivity.
  - right. reflexivity.
Defined.

(** When the server answers 429 to every attempt, [fetchHTML] makes
    all [retryAttempts] requests and sleeps [(4 * retryAttempts - 2) *
    retryDelay] in all: twice [2 * retryDelay] after each attempt but the
    last, and [2 * retryDelay] once more after the last one, when only the
    throw is left. *)
Theorem fetchHTML_pauses_after_429 {P : Platform} (options : Options)
        (reply : Z -> Reply) (url : jsstring) :
  isValid (validateUrl url) = true ->
  (1 <= retryAttempts options)%Z ->
  (forall i, (1 <= i <= retryAttempts options)%Z -> reply i = HttpError 429) ->
  Z.of_nat (requests (fst (fetchHTML options reply url))) = retryAttempts options /\
  slept (fst (fetchHTML options reply url))
  = (retryDelay options * (4 * retryAttempts options - 2))%Z /\
  snd (fetchHTML options reply url) = Threw (Some (Http 429)).
Proof.
  intros V Hn Hall. unfold fetchHTML.
  destruct (validateUrl url) as [sanitized|error] eqn:E; [|discriminate].
  destruct (validateUrl_parses _ E) as [urlObj E']. rewrite E'.
  destruct (@attempts_all_429 options reply (hostname urlObj) url
              (Z.to_nat (retryAttempts options)) 1%Z None) as [H1 H2].
  - lia.
  - intros i Hi. apply Hall. lia.
  - split; [rewrite H1; lia|]. split.
    + rewrite H2. destruct (Z.to_nat (retryAttempts options)) eqn:E0; [lia|].
      rewrite <- E0. rewrite Z2Nat.id by lia. reflexivity.
    + destruct (@attempts_first_final options reply (hostname urlObj) url
                  (Z.to_nat (retryAttempts options) - 1)
                  (Z.to_nat (retryAttempts options)) 1%Z None) as [_ H3].
      * lia.
      * intros i Hi. rewrite Hall by lia. reflexivity.
      * left. lia.
      * rewrite H3. rewrite Hall by lia. reflexivity.
Qed.

Lemma fetchHTML_pauses_after_429_witness :
  let url := lit "https://www.hdfcbank.com/cards" in
  let trace := fst (fetchHTML (P := Whatwg.platform) defaults
                              (fun _ => HttpError 429) url) in
  requests trace = 3%nat /\ slept trace = 20000%Z.
Proof.
  intros url trace.
  destruct (@fetchHTML_pauses_after_429 Whatwg.platform defaults
              (fun _ => HttpError 429) url) as (H1 & H2 & _).
  - reflexivity.
  - lazy. discriminate.
  - intros i _. reflexivity.
  - split; [|exact H2]. apply Nat2Z.inj. exact H1.
Defined.

End FetchFacts.

(** ** Text cleaning *)

Module TextCleaningFacts.

Import TextCleaning CleaningSpec.











End TextCleaningFacts.

(** ** The aggregator's [cleanData] *)

Module CleaningFacts.

Import Obj Aggregator AggregatorSpec AggregatorCleaning CleaningSpec ObjFacts.

(** *** [trim] *)

Lemma trimStart_fixed (s : jsstring) :
  match s with [] => True | c :: _ => isWhiteSpace c = false end ->
  trimStart s = s.
Proof. destruct s as [|c s]; simpl; [reflexivity|]. intros ->. reflexivity. Qed.

Lemma trimStart_head (s : jsstring) :
  match trimStart s with [] => True | c :: _ => isWhiteSpace c = false end.
Proof.
  induction s as [|c s IH]; simpl; [exact I|].
  destruct (isWhiteSpace c) eqn:E; [exact IH|exact E].
Qed.

Lemma trimStart_suffix (s : jsstring) : exists pre, s = pre ++ trimStart s.
Proof.
  induction s as [|c s [pre IH]]; simpl; [exists []; reflexivity|].
  destruct (isWhiteSpace c).
  - exists (c :: pre). simpl. f_equal. exact IH.
  - exists []. reflexivity.
Qed.

Lemma trim_idempotent (s : jsstring) : trim (trim s) = trim s.
Proof.
  unfold trim, trimEnd.
  set (u := trimStart s). set (w := trimStart (rev u)).
  destruct (trimStart_suffix (rev u)) as [pre Hpre]. fold w in Hpre.
  assert (Hu : u = rev w ++ rev pre).
  { rewrite <- (rev_involutive u), Hpre, rev_app_distr. reflexivity. }
  assert (Hw : trimStart (rev w) = rev w).
  { apply trimStart_fixed. pose proof (trimStart_head s) as H. fold u in H.
    rewrite Hu in H. destruct (rev w); [exact I|exact H]. }
  rewrite Hw, rev_involutive.
  rewrite (trimStart_fixed w (trimStart_head (rev u))). reflexivity.
Qed.

Lemma nonBlank_trim (x : jsstring) : nonBlank x = true -> nonBlank (trim x) = true.
Proof.
  unfold nonBlank. rewrite trim_idempotent. intros H.
  apply andb_true_iff in H as [_ H]. rewrite H. reflexivity.
Qed.

(** *** Arrays without duplicates *)

Lemma filter_keeps_all (A : Type) (p : A -> bool) (l : list A) :
  (forall x, In x l -> p x = true) -> filter p l = l.
Proof.
  induction l as [|x l IH]; intros H; simpl; [reflexivity|].
  rewrite (H x (or_introl eq_refl)). f_equal. apply IH.
  intros y Hy. apply H. right. exact Hy.
Qed.

Lemma map_fixed (A : Type) (f : A -> A) (l : list A) :
  (forall x, In x l -> f x = x) -> map f l = l.
Proof.
  induction l as [|x l IH]; intros H; simpl; [reflexivity|].
  rewrite (H x (or_introl eq_refl)). f_equal. apply IH.
  intros y Hy. apply H. right. exact Hy.
Qed.

Lemma indexOfFrom_absent (array : list jsstring) (item : jsstring) (i : nat) :
  ~ In item array -> indexOfFrom i array item = None.
Proof.
  revert i. induction array as [|x array IH]; intros i H; simpl; [reflexivity|].
  destruct (JS.eqb x item) eqn:E.
  - apply JSFacts.eqb_eq in E. subst x. exfalso. apply H. left. reflexivity.
  - apply IH. intros Hin. apply H. right. exact Hin.
Qed.

Lemma indexOfFrom_behind (front array : list jsstring) (x : jsstring) :
  ~ In x front ->
  forall k, indexOfFrom k (front ++ x :: array) x = Some (k + length front)%nat.
Proof.
  induction front as [|y front IH]; intros Hx k; simpl.
  - rewrite JSFacts.eqb_refl. f_equal. lia.
  - destruct (JS.eqb y x) eqn:E.
    + apply JSFacts.eqb_eq in E. subst y. exfalso. apply Hx. left. reflexivity.
    + rewrite IH by (intros H; apply Hx; right; exact H). f_equal. lia.
Qed.

Lemma numbered_first (array : list jsstring) :
  forall (front : list jsstring) (i : nat),
    NoDup (front ++ array) -> i = length front ->
    forall entry, In entry (combine (seq i (length array)) array) ->
      indexOfFrom 0 (front ++ array) (snd entry) = Some (fst entry).
Proof.
  induction array as [|x array IH]; intros front i Hnd Hi entry; simpl; [tauto|].
  intros [<-|H].
  - simpl. subst i.
    apply NoDup_remove_2 in Hnd.
    assert (Hx : ~ In x front) by (intros H; apply Hnd; apply in_or_app; tauto).
    rewrite indexOfFrom_behind by exact Hx. reflexivity.
  - specialize (IH (front ++ [x]) (S i)).
    rewrite <- app_assoc in IH. simpl in IH. apply IH; [exact Hnd| |exact H].
    rewrite length_app. simpl. lia.
Qed.

Lemma numbered_values (array : list jsstring) (i : nat) :
  map snd (combine (seq i (length array)) array) = array.
Proof.
  revert i. induction array as [|x array IH]; intros i; simpl; [reflexivity|].
  rewrite IH. reflexivity.
Qed.

Lemma firstOccurrences_distinct (array : list jsstring) :
  NoDup array -> firstOccurrences array = array.
Proof.
  intros H. unfold firstOccurrences, indexOf. rewrite filter_keeps_all.
  - apply numbered_values.
  - intros entry Hin.
    pose proof (@numbered_first array [] 0%nat H eq_refl entry Hin) as E.
    simpl in E. rewrite E. apply Nat.eqb_refl.
Qed.

Lemma setOf_from (arr seen : list jsstring) :
  NoDup (seen ++ arr) ->
  fold_left (fun seen x => if arrayIncludes seen x then seen else seen ++ [x]) arr seen
  = seen ++ arr.
Proof.
  revert seen. induction arr as [|x arr IH]; intros seen H; simpl.
  - rewrite app_nil_r. reflexivity.
  - destruct (arrayIncludes seen x) eqn:E.
    + apply JSFacts.arrayIncludes_In in E. apply NoDup_remove_2 in H.
      exfalso. apply H. apply in_or_app. left. exact E.
    + rewrite IH; rewrite <- app_assoc; [reflexivity|exact H].
Qed.

Lemma setOf_distinct (arr : list jsstring) : NoDup arr -> setOf arr = arr.
Proof. intros H. unfold setOf. now rewrite setOf_from. Qed.

Lemma pushItems_distinct (items acc : list jsstring) :
  NoDup acc -> NoDup (pushItems acc items).
Proof.
  intros H. rewrite AggregatorFacts.pushItems_firstSeen.
  set (l := map trim (filter nonBlank items)). clearbody l.
  revert acc H. induction l as [|x l IH]; intros acc H; simpl.
  - rewrite app_nil_r. exact H.
  - destruct (arrayIncludes acc x) eqn:E; [apply IH; exact H|].
    apply AggregatorFacts.not_included in E.
    change (acc ++ x :: firstSeen (x :: acc) l)
      with (acc ++ [x] ++ firstSeen (x :: acc) l).
    rewrite app_assoc.
    rewrite (@AggregatorFacts.firstSeen_ext l (x :: acc) (acc ++ [x])).
    + apply IH. apply NoDup_app; [exact H|repeat constructor; intros []|].
      intros y Hy [Hy'|[]]. subst y. exact (E Hy).
    + intros y. unfold arrayIncludes. rewrite existsb_app. simpl.
      rewrite orb_false_r. apply orb_comm.
Qed.

(** *** One field at a time *)

Lemma fields_get (step : Obj.t -> jsstring -> Obj.t) (h : Value -> Value) :
  (forall cd g f, get (step cd g) f = if JS.eqb g f then h (get cd f) else get cd f) ->
  forall fields, NoDup fields ->
  forall cd f,
    get (fold_left step fields cd) f
    = if arrayIncludes fields f then h (get cd f) else get cd f.
Proof.
  intros Hstep. induction 1 as [|g fields Hg Hnd IH]; intros cd f; simpl; [reflexivity|].
  rewrite IH, !Hstep. unfold arrayIncludes in *. simpl.
  rewrite (JSFacts.eqb_sym f g).
  destruct (JS.eqb g f) eqn:E; simpl; [|reflexivity].
  apply JSFacts.eqb_eq in E. subst g.
  destruct (existsb (JS.eqb f) fields) eqn:Ef; [|reflexivity].
  exfalso. apply Hg. now apply JSFacts.arrayIncludes_In.
Qed.

Lemma cleanArray_get (cd : Obj.t) (g f : jsstring) :
  get (cleanArray cd g) f
  = if JS.eqb g f then cleanedArray (get cd f) else get cd f.
Proof.
  unfold cleanArray, cleanedArray. destruct (JS.eqb g f) eqn:E.
  - apply JSFacts.eqb_eq in E. subst g.
    destruct (get cd f) eqn:G; try exact G. apply get_set_same.
  - apply JSFacts.eqb_neq in E.
    destruct (get cd g); try reflexivity. now apply get_set_other.
Qed.

Lemma cleanString_get (cd : Obj.t) (g f : jsstring) :
  get (cleanString cd g) f = if JS.eqb g f then trimmed (get cd f) else get cd f.
Proof.
  unfold cleanString. destruct (JS.eqb g f) eqn:E.
  - apply JSFacts.eqb_eq in E. subst g.
    destruct (get cd f) as [| |s|items|o] eqn:G; simpl; try exact G.
    destruct (JS.eqb s []) eqn:Es.
    + apply JSFacts.eqb_eq in Es. subst s. exact G.
    + apply get_set_same.
  - apply JSFacts.eqb_neq in E.
    destruct (get cd g) as [| |s|items|o]; try reflexivity.
    destruct (JS.eqb s []); [reflexivity|]. now apply get_set_other.
Qed.

Lemma cleanPdfLinks_get (cd : Obj.t) (f : jsstring) :
  get (cleanPdfLinks cd) f
  = if JS.eqb (lit "links") f
    then match get cd f with
         | VObj links =>
             match get links (lit "pdfs") with
             | VArr pdfs => VObj (set links (lit "pdfs") (VArr (setOf pdfs)))
             | _ => VObj links
             end
         | v => v
         end
    else get cd f.
Proof.
  unfold cleanPdfLinks. destruct (JS.eqb (lit "links") f) eqn:E.
  - apply JSFacts.eqb_eq in E. subst f.
    destruct (get cd (lit "links")) as [| |s|items|links] eqn:G; try exact G.
    destruct (get links (lit "pdfs")); try exact G.
    apply get_set_same.
  - apply JSFacts.eqb_neq in E.
    destruct (get cd (lit "links")) as [| |s|items|links]; try reflexivity.
    destruct (get links (lit "pdfs")); try reflexivity.
    now apply get_set_other.
Qed.

(** *** Keys *)

Lemma present_key (o : Obj.t) (k : jsstring) :
  get o k <> VUndefined -> arrayIncludes (keys o) k = true.
Proof.
  unfold get, keys, arrayIncludes. induction o as [|[k' v'] o IH]; simpl.
  - intros H. exfalso. apply H. reflexivity.
  - rewrite (JSFacts.eqb_sym k k'). destruct (JS.eqb k' k); simpl; [reflexivity|exact IH].
Qed.

Lemma keys_set_present (o : Obj.t) (k : jsstring) (v : Value) :
  get o k <> VUndefined -> keys (set o k v) = keys o.
Proof. intros H. rewrite keys_set, (present_key o k H). reflexivity. Qed.

Lemma set_same (o : Obj.t) (k : jsstring) (v : Value) :
  v <> VUndefined -> get o k = v -> set o k v = o.
Proof.
  unfold get, set. intros Hv. induction o as [|[k' v'] o IH]; simpl.
  - intros H. congruence.
  - destruct (JS.eqb k' k); [intros ->; reflexivity|].
    intros H. rewrite IH by exact H. reflexivity.
Qed.

Lemma cleanArray_keys (cd : Obj.t) (g : jsstring) : keys (cleanArray cd g) = keys cd.
Proof.
  unfold cleanArray. destruct (get cd g) eqn:G; try reflexivity.
  apply keys_set_present. congruence.
Qed.

Lemma cleanString_keys (cd : Obj.t) (g : jsstring) : keys (cleanString cd g) = keys cd.
Proof.
  unfold cleanString. destruct (get cd g) eqn:G; try reflexivity.
  destruct (JS.eqb s []); [reflexivity|]. apply keys_set_present. congruence.
Qed.

Lemma cleanPdfLinks_keys (cd : Obj.t) : keys (cleanPdfLinks cd) = keys cd.
Proof.
  unfold cleanPdfLinks. destruct (get cd (lit "links")) eqn:G; try reflexivity.
  destruct (get fields (lit "pdfs")); try reflexivity.
  apply keys_set_present. congruence.
Qed.

Lemma fold_keys (step : Obj.t -> jsstring -> Obj.t) :
  (forall cd g, keys (step cd g) = keys cd) ->
  forall fields cd, keys (fold_left step fields cd) = keys cd.
Proof.
  intros H. induction fields as [|g fields IH]; intros cd; simpl; [reflexivity|].
  rewrite IH. apply H.
Qed.

(** *** The links that merging leaves behind *)

Lemma mergeInto_distinct (current : Value) (items : list jsstring) :
  pdfsAreDistinct current -> pdfsAreDistinct (fst (mergeInto current items)).
Proof.
  unfold pdfsAreDistinct. intros H.
  destruct current as [| |s|acc|o]; simpl.
  - intros pdfs E. injection E as <-. apply pushItems_distinct. constructor.
  - intros pdfs E. injection E as <-. apply pushItems_distinct. constructor.
  - destruct (JS.eqb s []); simpl; [|discriminate].
    intros pdfs E. injection E as <-. apply pushItems_distinct. constructor.
  - intros pdfs E. injection E as <-. apply pushItems_distinct. apply H. reflexivity.
  - discriminate.
Qed.

Lemma keepFirst_distinct (current v : Value) :
  pdfsAreDistinct current -> (forall items, v <> VArr items) ->
  pdfsAreDistinct (keepFirst current v).
Proof.
  unfold keepFirst, pdfsAreDistinct. intros H Hv.
  destruct (truthy v && negb (truthy current)); [|exact H].
  intros pdfs E. exfalso. exact (Hv pdfs E).
Qed.

Lemma mergeKey_distinct (target : Obj.t) (kv : jsstring * Value) :
  pdfsAreDistinct (get target (lit "pdfs")) ->
  pdfsAreDistinct (get (fst (mergeKey target kv)) (lit "pdfs")).
Proof.
  intros H. destruct kv as [key v]. unfold mergeKey.
  destruct (JS.eqb key (lit "pdfs")) eqn:E.
  - apply JSFacts.eqb_eq in E. subst key.
    destruct v as [| |s|items|o]; simpl; try exact H.
    + destruct (JS.eqb s []); simpl; [exact H|].
      rewrite get_set_same. apply keepFirst_distinct; [exact H|discriminate].
    + pose proof (mergeInto_distinct items H) as H'.
      destruct (mergeInto (get target (lit "pdfs")) items) as [v' ok]. simpl in *.
      rewrite get_set_same. exact H'.
    + rewrite get_set_same. apply keepFirst_distinct; [exact H|discriminate].
  - apply JSFacts.eqb_neq in E.
    destruct v as [| |s|items|o]; simpl; try exact H.
    + destruct (JS.eqb s []); simpl; [exact H|].
      rewrite get_set_other by exact E. exact H.
    + destruct (mergeInto (get target key) items) as [v' ok]. simpl.
      rewrite get_set_other by exact E. exact H.
    + rewrite get_set_other by exact E. exact H.
Qed.

Lemma mergeKeys_distinct (entries : list (jsstring * Value)) :
  forall target,
    pdfsAreDistinct (get target (lit "pdfs")) ->
    pdfsAreDistinct (get (fst (foldRes mergeKey entries target)) (lit "pdfs")).
Proof.
  induction entries as [|kv entries IH]; intros target H; simpl; [exact H|].
  pose proof (@mergeKey_distinct target kv H) as H'.
  destruct (mergeKey target kv) as [target' ok]. simpl in H'.
  destruct ok; simpl; [apply IH; exact H'|exact H'].
Qed.

Lemma mergeObjectField_links (cd : Obj.t) (g : jsstring) (sv : Value) :
  linksAreClean cd -> linksAreClean (fst (mergeObjectField cd g sv)).
Proof.
  unfold linksAreClean. intros [links [G H]].
  destruct (JS.eqb g (lit "links")) eqn:E.
  - apply JSFacts.eqb_eq in E. subst g. unfold mergeObjectField.
    destruct sv as [| |s|items|o]; cbn [fst];
      try (exists links; split; assumption);
      rewrite G;
      match goal with
      | |- context [foldRes mergeKey ?e links] =>
          pose proof (@mergeKeys_distinct e links H) as H';
          destruct (foldRes mergeKey e links) as [target' ok]
      end;
      cbn [fst] in *; exists target'; (split; [apply get_set_same|exact H']).
  - apply JSFacts.eqb_neq in E. exists links. split; [|exact H].
    rewrite AggregatorFacts.mergeObjectField_other by exact E. exact G.
Qed.

Lemma mergeObjects_links (src : Obj.t) (fields : list jsstring) :
  forall cd,
    linksAreClean cd ->
    linksAreClean
      (fst (foldRes (fun c field => mergeObjectField c field (get src field)) fields cd)).
Proof.
  induction fields as [|g fields IH]; intros cd H; simpl; [exact H|].
  pose proof (@mergeObjectField_links cd g (get src g) H) as H'.
  destruct (mergeObjectField cd g (get src g)) as [cd' ok]. simpl in H'.
  destruct ok; simpl; [apply IH; exact H'|exact H'].
Qed.

Lemma mergeData_links (cd src : Obj.t) :
  linksAreClean cd -> linksAreClean (fst (mergeData cd src)).
Proof.
  intros H. unfold mergeData.
  assert (H2 : linksAreClean
                 (fst (foldRes (mergeArray src) arrayFields
                               (fold_left (mergeString src) stringFields cd)))).
  { destruct H as [links [G H]]. exists links. split; [|exact H].
    rewrite AggregatorFacts.foldRes_other.
    - rewrite (AggregatorFacts.mergeStrings_get src AggregatorFacts.stringFields_NoDup).
      exact G.
    - intros c g Hne. now apply AggregatorFacts.mergeArray_other.
    - apply AggregatorFacts.not_included. reflexivity. }
  destruct (foldRes (mergeArray src) arrayFields _) as [cd2 ok]. simpl in H2.
  destruct ok; [|exact H2].
  apply mergeObjects_links. exact H2.
Qed.

Lemma addSources_links (srcs : list Source) :
  forall a, linksAreClean (cardData a) ->
            linksAreClean (cardData (addSources a srcs)).
Proof.
  unfold addSources. induction srcs as [|src srcs IH]; intros a H; simpl; [exact H|].
  apply IH. rewrite AggregatorFacts.cardData_addSourceData.
  apply mergeData_links. exact H.
Qed.

Lemma fresh_links : linksAreClean (cardData newAggregator).
Proof. exists []. split; [reflexivity|]. intros pdfs E. discriminate. Qed.

Lemma merged_array_is_clean (srcs : list Source) (f : jsstring) :
  In f arrayFields ->
  exists items,
    get (cardData (addSources newAggregator srcs)) f = VArr items
    /\ firstOccurrences (map trim (filter nonBlank items)) = items.
Proof.
  intros Hf. exists (unionOfEntries f srcs). split.
  - rewrite (@AggregatorFacts.addSources_array srcs newAggregator f []
               AggregatorFacts.fresh_arrays_in_place Hf
               (AggregatorFacts.fresh_arrays_empty Hf)).
    now rewrite AggregatorFacts.pushItems_firstSeen.
  - assert (Hall : forall x, In x (unionOfEntries f srcs) ->
                             nonBlank x = true /\ trim x = x).
    { intros x Hx. unfold unionOfEntries in Hx.
      apply AggregatorFacts.firstSeen_In in Hx as [Hx _].
      apply in_map_iff in Hx as [item [<- Hi]]. apply filter_In in Hi as [_ Hb].
      split; [now apply nonBlank_trim|apply trim_idempotent]. }
    rewrite filter_keeps_all by (intros x Hx; apply Hall; exact Hx).
    rewrite map_fixed by (intros x Hx; apply Hall; exact Hx).
    apply firstOccurrences_distinct. apply AggregatorFacts.firstSeen_NoDup.
Qed.

(** After any run of [addSourceData] calls on a new aggregator,
    [cleanData] changes nothing but the five scalar fields, which it trims:
    the arrays were trimmed, freed of blank entries and of duplicates when
    they were merged, and so was [links.pdfs].  The keys and the recorded
    sources stay as they are. *)
Theorem cleanData_only_trims_scalars (srcs : list Source) (f : jsstring) :
  let a := addSources newAggregator srcs in
  get (cardData (cleanData a)) f
  = (if arrayIncludes stringFields f then trimmed (get (cardData a) f)
     else get (cardData a) f)
  /\ keys (cardData (cleanData a)) = keys (cardData a)
  /\ sources (cleanData a) = sources a.
Proof.
  intros a. split; [|split; [|reflexivity]].
  - unfold cleanData. cbn [cardData].
    rewrite cleanPdfLinks_get.
    rewrite !(@fields_get cleanString trimmed cleanString_get stringFields
                          AggregatorFacts.stringFields_NoDup).
    rewrite !(@fields_get cleanArray cleanedArray cleanArray_get arrayFields
                          AggregatorFacts.arrayFields_NoDup).
    destruct (JS.eqb (lit "links") f) eqn:El.
    + apply JSFacts.eqb_eq in El. subst f.
      change (arrayIncludes stringFields (lit "links")) with false.
      change (arrayIncludes arrayFields (lit "links")) with false. cbv iota.
      destruct (addSources_links srcs newAggregator fresh_links) as [links [G H]].
      fold a in G. rewrite G.
      destruct (get links (lit "pdfs")) as [| |s|pdfs|o] eqn:Gp; try reflexivity.
      rewrite (setOf_distinct (H pdfs eq_refl)).
      rewrite set_same; [reflexivity|discriminate|exact Gp].
    + destruct (arrayIncludes stringFields f) eqn:Es.
      * destruct (proj1 (AggregatorFacts.groups_disjoint f) Es) as [Ha _].
        rewrite Ha. reflexivity.
      * destruct (arrayIncludes arrayFields f) eqn:Ea; [|reflexivity].
        apply JSFacts.arrayIncludes_In in Ea.
        destruct (@merged_array_is_clean srcs f Ea) as [items [G C]].
        fold a in G. rewrite G. unfold cleanedArray. rewrite C. reflexivity.
  - unfold cleanData. cbn [cardData].
    rewrite cleanPdfLinks_keys.
    rewrite (fold_keys cleanString cleanString_keys).
    apply (fold_keys cleanArray cleanArray_keys).
Qed.

End CleaningFacts.

(** ** Idempotence of [normalizeUrl] on canonical URLs *)

Module IdempotenceFacts.

Import Whatwg LinkHandler LinkHandlerSpec WhatwgSpec CanonicalForm.

(** *** Words and their regular expressions *)





(** *** Steps of [cleanUrl] that find nothing to do *)













(** *** Parsing and printing a canonical URL *)








(** *** Validation of a canonical URL *)


(** *** Idempotence *)

(** C4, as stated, fails in more ways than one.  The parser escapes a
    brace, and the escape can complete a template marker, which the next
    pass refuses; and it reads a backslash as a slash, which can leave a
    run of slashes for the next pass to collapse. *)
Lemma parsing_breaks_idempotence :
  @normalizeUrl platform (lit "https://www.hdfcbank.com/a{%7Bb")
  = Some (lit "https://www.hdfcbank.com/a%7B%7Bb")
  /\ @normalizeUrl platform (lit "https://www.hdfcbank.com/a%7B%7Bb") = None
  /\ @normalizeUrl platform (lit "https://www.hdfcbank.com/a" ++ [92; 92]%N ++ lit "b")
     = Some (lit "https://www.hdfcbank.com/a//b")
  /\ @normalizeUrl platform (lit "https://www.hdfcbank.com/a//b")
     = Some (lit "https://www.hdfcbank.com/a/b").
Proof. repeat split; vm_compute; reflexivity. Qed.



End IdempotenceFacts.
